(** * Address book assistant: fields, records, address book, upcoming birthdays

    A shallow embedding of [entities.py] (with the exception classes of
    [exceptions.py]).  Python strings are sequences of Unicode code points;
    exceptions are modelled by a [result] type; the methods of [Record] that
    mutate [self] are modelled in a state-and-exception monad, so that the
    state left behind by a raising call is part of the model. *)

From Stdlib Require Import ZArith NArith List Bool Lia String Ascii.
Import ListNotations.
Local Open Scope Z_scope.

(** ** Python strings *)

(** A [str] is a sequence of code points. *)
Definition str := list N.

(** A literal written with characters below U+0100. *)
Definition lit (x : string) : str := map N_of_ascii (list_ascii_of_string x).

Definition len {A} (v : list A) : Z := Z.of_nat (List.length v).

Fixpoint str_eqb (a b : str) : bool :=
  match a, b with
  | [], [] => true
  | x :: a', y :: b' => N.eqb x y && str_eqb a' b'
  | _, _ => false
  end.

(** *** Character classes of CPython 3.11 (Unicode 14.0)

    [decimal_runs] are the runs of characters with Numeric_Type=Decimal
    (general category Nd); inside a run the decimal value of a character is
    its offset modulo 10.  [digit_only_ranges] are the characters with
    Numeric_Type=Digit: superscripts, subscripts, circled digits and the
    like. *)

Definition decimal_runs : list (N * N) :=
  [ (0x30, 0x39); (0x660, 0x669); (0x6F0, 0x6F9); (0x7C0, 0x7C9);
    (0x966, 0x96F); (0x9E6, 0x9EF); (0xA66, 0xA6F); (0xAE6, 0xAEF);
    (0xB66, 0xB6F); (0xBE6, 0xBEF); (0xC66, 0xC6F); (0xCE6, 0xCEF);
    (0xD66, 0xD6F); (0xDE6, 0xDEF); (0xE50, 0xE59); (0xED0, 0xED9);
    (0xF20, 0xF29); (0x1040, 0x1049); (0x1090, 0x1099); (0x17E0, 0x17E9);
    (0x1810, 0x1819); (0x1946, 0x194F); (0x19D0, 0x19D9); (0x1A80, 0x1A89);
    (0x1A90, 0x1A99); (0x1B50, 0x1B59); (0x1BB0, 0x1BB9); (0x1C40, 0x1C49);
    (0x1C50, 0x1C59); (0xA620, 0xA629); (0xA8D0, 0xA8D9); (0xA900, 0xA909);
    (0xA9D0, 0xA9D9); (0xA9F0, 0xA9F9); (0xAA50, 0xAA59); (0xABF0, 0xABF9);
    (0xFF10, 0xFF19); (0x104A0, 0x104A9); (0x10D30, 0x10D39);
    (0x11066, 0x1106F); (0x110F0, 0x110F9); (0x11136, 0x1113F);
    (0x111D0, 0x111D9); (0x112F0, 0x112F9); (0x11450, 0x11459);
    (0x114D0, 0x114D9); (0x11650, 0x11659); (0x116C0, 0x116C9);
    (0x11730, 0x11739); (0x118E0, 0x118E9); (0x11950, 0x11959);
    (0x11C50, 0x11C59); (0x11D50, 0x11D59); (0x11DA0, 0x11DA9);
    (0x16A60, 0x16A69); (0x16AC0, 0x16AC9); (0x16B50, 0x16B59);
    (0x1D7CE, 0x1D7FF); (0x1E140, 0x1E149); (0x1E2F0, 0x1E2F9);
    (0x1E950, 0x1E959); (0x1FBF0, 0x1FBF9) ]%N.

Definition digit_only_ranges : list (N * N) :=
  [ (0xB2, 0xB3); (0xB9, 0xB9); (0x1369, 0x1371); (0x19DA, 0x19DA);
    (0x2070, 0x2070); (0x2074, 0x2079); (0x2080, 0x2089); (0x2460, 0x2468);
    (0x2474, 0x247C); (0x2488, 0x2490); (0x24EA, 0x24EA); (0x24F5, 0x24FD);
    (0x24FF, 0x24FF); (0x2776, 0x277E); (0x2780, 0x2788); (0x278A, 0x2792);
    (0x10A40, 0x10A43); (0x10E60, 0x10E68); (0x11052, 0x1105A);
    (0x1F100, 0x1F10A) ]%N.

(** The characters for which [str.isspace] holds. *)
Definition whitespace_chars : list N :=
  [ 0x9; 0xA; 0xB; 0xC; 0xD; 0x1C; 0x1D; 0x1E; 0x1F; 0x20; 0x85; 0xA0;
    0x1680; 0x2000; 0x2001; 0x2002; 0x2003; 0x2004; 0x2005; 0x2006; 0x2007;
    0x2008; 0x2009; 0x200A; 0x2028; 0x2029; 0x202F; 0x205F; 0x3000 ]%N.

Definition in_range (c : N) (r : N * N) : bool :=
  (fst r <=? c)%N && (c <=? snd r)%N.

(** [\d] of the [re] module on [str] patterns, and [str.isdecimal]. *)
Definition isdecimal_char (c : N) : bool := existsb (in_range c) decimal_runs.

(** The value [int] gives to a decimal character. *)
Definition decimal_value (c : N) : option Z :=
  match find (in_range c) decimal_runs with
  | Some (lo, _) => Some (Z.of_N ((c - lo) mod 10))
  | None => None
  end.

Definition isdigit_char (c : N) : bool :=
  isdecimal_char c || existsb (in_range c) digit_only_ranges.

Definition isspace_char (c : N) : bool := existsb (N.eqb c) whitespace_chars.

(** [str.isdigit]: every character is a digit and there is at least one. *)
Definition isdigit (v : str) : bool :=
  match v with
  | [] => false
  | _ => forallb isdigit_char v
  end.

(** The ASCII digits ['0'..'9']. *)
Definition is_ascii_digit (c : N) : bool := (48 <=? c)%N && (c <=? 57)%N.

(** ** Exceptions *)

(** [ValueError], [IndexError] and [OverflowError] are built in; the other
    four are the classes of [exceptions.py]. *)
Inductive exn : Type :=
| ValueError
| IndexError
| OverflowError
| NoRecordError
| InvalidPhoneNumberFormatError
| InvalidBirthdayFormatError
| NoPhoneError.

Inductive result (A : Type) : Type :=
| Ok (a : A)
| Raise (e : exn).
Arguments Ok {A} a.
Arguments Raise {A} e.

Definition bind {A B} (m : result A) (k : A -> result B) : result B :=
  match m with
  | Ok a => k a
  | Raise e => Raise e
  end.

Declare Scope exn_scope.
Delimit Scope exn_scope with exn.
Notation "x <- m ;; k" := (bind m (fun x => k))
  (at level 61, m at next level, right associativity) : exn_scope.

Definition exn_eqb (a b : exn) : bool :=
  match a, b with
  | ValueError, ValueError
  | IndexError, IndexError
  | OverflowError, OverflowError
  | NoRecordError, NoRecordError
  | InvalidPhoneNumberFormatError, InvalidPhoneNumberFormatError
  | InvalidBirthdayFormatError, InvalidBirthdayFormatError
  | NoPhoneError, NoPhoneError => true
  | _, _ => false
  end.

(** [try: m] followed by [except caught: raise raised]. *)
Definition try_except {A} (m : result A) (caught raised : exn) : result A :=
  match m with
  | Ok a => Ok a
  | Raise e => if exn_eqb e caught then Raise raised else Raise e
  end.

(** A call can also end in an exception of a built-in class that nothing in
    the program names: [AttributeError], when [None] is used as an object,
    and [EOFError], when [input] finds no more lines. *)
Inductive failure : Type :=
| Exn (e : exn)
| AttributeError
| EOFError.

Inductive outcome (A : Type) : Type :=
| Returns (a : A)
| Fails (f : failure).
Arguments Returns {A} a.
Arguments Fails {A} f.

Definition of_result {A} (r : result A) : outcome A :=
  match r with
  | Ok a => Returns a
  | Raise e => Fails (Exn e)
  end.

(** ** Module constants *)

Definition PHONE_LENGTH : Z := 10.
Definition DATE_PATTERN : str := lit "%Y.%m.%d".
Definition DAYS_OF_UPCOMING_RANGE : Z := 7.
Definition ISO_SATURDAY : Z := 6.
Definition ISO_SUNDAY : Z := 7.

(** ** Fields *)

Module Name.
Record t : Type := mk { value : str }.

Definition init (value : str) : result t :=
  if len value =? 0 then Raise ValueError else Ok (mk value).
End Name.

Module Phone.
Record t : Type := mk { value : str }.

Definition init (value : str) : result t :=
  if negb (len value =? PHONE_LENGTH) then Raise InvalidPhoneNumberFormatError
  else if negb (isdigit value) then Raise InvalidPhoneNumberFormatError
  else Ok (mk value).

(** [__eq__]: equality of the values. *)
Definition eq (self other : t) : bool := str_eqb (value self) (value other).

(** [Field.__str__]: [str(self.value)], the value itself for a [str]. *)
Definition to_str (self : t) : str := value self.
End Phone.

(** ** The [datetime] library *)

(** Indexing a list constant at an index known to be in range. *)
Definition item (l : list Z) (i : Z) : Z := nth (Z.to_nat i) l 0.

Definition digit_char (n : Z) : N := (48 + Z.to_N n)%N.

Fixpoint digits_of (fuel : nat) (n : Z) (acc : str) : str :=
  match fuel with
  | O => acc
  | S fuel' =>
      let acc' := digit_char (n mod 10) :: acc in
      if n / 10 =? 0 then acc' else digits_of fuel' (n / 10) acc'
  end.

(** [str(n)] for [0 <= n]. *)
Definition decimal (n : Z) : str := digits_of (S (Z.to_nat (Z.log2 n))) n [].

(** [s.zfill(width)] for an unsigned [s]. *)
Definition zfill (width : nat) (s : str) : str :=
  repeat 48%N (width - List.length s) ++ s.

Module date.
Record t : Type := mk { year : Z; month : Z; day : Z }.

Definition MINYEAR : Z := 1.
Definition MAXYEAR : Z := 9999.
Definition _MAXORDINAL : Z := 3652059.

Definition _DAYS_IN_MONTH : list Z :=
  [-1; 31; 28; 31; 30; 31; 30; 31; 31; 30; 31; 30; 31].

Definition _DAYS_BEFORE_MONTH : list Z :=
  [-1; 0; 31; 59; 90; 120; 151; 181; 212; 243; 273; 304; 334].

Definition _is_leap (year : Z) : bool :=
  (year mod 4 =? 0) && (negb (year mod 100 =? 0) || (year mod 400 =? 0)).

Definition _days_before_year (year : Z) : Z :=
  let y := year - 1 in
  y * 365 + y / 4 - y / 100 + y / 400.

Definition _days_in_month (year month : Z) : Z :=
  if (month =? 2) && _is_leap year then 29 else item _DAYS_IN_MONTH month.

Definition _days_before_month (year month : Z) : Z :=
  item _DAYS_BEFORE_MONTH month
  + (if (month >? 2) && _is_leap year then 1 else 0).

Definition _ymd2ord (year month day : Z) : Z :=
  _days_before_year year + _days_before_month year month + day.

Definition _DI400Y : Z := _days_before_year 401.
Definition _DI100Y : Z := _days_before_year 101.
Definition _DI4Y : Z := _days_before_year 5.

Definition _ord2ymd (n : Z) : Z * Z * Z :=
  let n := n - 1 in
  let n400 := n / _DI400Y in
  let n := n mod _DI400Y in
  let year := n400 * 400 + 1 in
  let n100 := n / _DI100Y in
  let n := n mod _DI100Y in
  let n4 := n / _DI4Y in
  let n := n mod _DI4Y in
  let n1 := n / 365 in
  let n := n mod 365 in
  let year := year + (n100 * 100 + n4 * 4 + n1) in
  if (n1 =? 4) || (n100 =? 4) then (year - 1, 12, 31)
  else
    let leapyear := (n1 =? 3) && (negb (n4 =? 24) || (n100 =? 3)) in
    let month := Z.shiftr (n + 50) 5 in
    let preceding :=
      item _DAYS_BEFORE_MONTH month
      + (if (month >? 2) && leapyear then 1 else 0) in
    if preceding >? n then
      let month := month - 1 in
      let preceding :=
        preceding - (item _DAYS_IN_MONTH month
                     + (if (month =? 2) && leapyear then 1 else 0)) in
      (year, month, n - preceding + 1)
    else (year, month, n - preceding + 1).

(** [date(year, month, day)], with the checks of [_check_date_fields]. *)
Definition new (year month day : Z) : result t :=
  if negb ((MINYEAR <=? year) && (year <=? MAXYEAR)) then Raise ValueError
  else if negb ((1 <=? month) && (month <=? 12)) then Raise ValueError
  else if negb ((1 <=? day) && (day <=? _days_in_month year month))
  then Raise ValueError
  else Ok (mk year month day).

Definition toordinal (self : t) : Z :=
  _ymd2ord (year self) (month self) (day self).

Definition fromordinal (n : Z) : result t :=
  let '(y, m, d) := _ord2ymd n in new y m d.

(** [self.toordinal() % 7 or 7]. *)
Definition isoweekday (self : t) : Z :=
  let r := toordinal self mod 7 in
  if r =? 0 then 7 else r.

(** [self < other]: the comparison of [(year, month, day)] tuples. *)
Definition lt (self other : t) : bool :=
  if year self =? year other then
    if month self =? month other then day self <? day other
    else month self <? month other
  else year self <? year other.

(** [self + timedelta(days=days)]. *)
Definition add (self : t) (days : Z) : result t :=
  let o := toordinal self + days in
  if (0 <? o) && (o <=? _MAXORDINAL) then fromordinal o
  else Raise OverflowError.

(** One directive of [strftime].  The C library renders [%Y]: glibc prints
    the year without padding, other platforms and later CPython versions pad
    it with zeros to four digits; [pads_year] says which.  [%m] and [%d] are
    always two digits. *)
Definition strftime_directive (pads_year : bool) (self : t) (c : N)
  : option str :=
  if (c =? 89)%N then
    Some (if pads_year then zfill 4 (decimal (year self))
          else decimal (year self))
  else if (c =? 109)%N then Some (zfill 2 (decimal (month self)))
  else if (c =? 100)%N then Some (zfill 2 (decimal (day self)))
  else None.

(** [self.strftime(format)] for formats built from [%Y], [%m], [%d] and
    ordinary characters. *)
Fixpoint strftime (pads_year : bool) (self : t) (format : str) : str :=
  match format with
  | [] => []
  | c :: rest =>
      if (c =? 37)%N then
        match rest with
        | [] => [c]
        | x :: rest' =>
            match strftime_directive pads_year self x with
            | Some s => s ++ strftime pads_year self rest'
            | None => c :: x :: strftime pads_year self rest'
            end
        end
      else c :: strftime pads_year self rest
  end.
End date.

(** *** [int] on the text of a regular-expression group *)

Fixpoint lstrip (v : str) : str :=
  match v with
  | c :: rest => if isspace_char c then lstrip rest else v
  | [] => []
  end.

Definition strip (v : str) : str := rev (lstrip (rev (lstrip v))).

Fixpoint decimal_number (v : str) (acc : Z) : option Z :=
  match v with
  | [] => Some acc
  | c :: rest =>
      match decimal_value c with
      | Some k => decimal_number rest (10 * acc + k)
      | None => None
      end
  end.

(** [int(v)] for the texts a group of the birthday pattern can hold: white
    space around a non-empty run of decimal characters.  Signs and
    underscores never occur there. *)
Definition int (v : str) : result Z :=
  match strip v with
  | [] => Raise ValueError
  | body =>
      match decimal_number body 0 with
      | Some n => Ok n
      | None => Raise ValueError
      end
  end.

(** *** [_strptime]: the format as a regular expression

    [TimeRE] turns [%d], [%m] and [%Y] into the named groups
    [3[0-1]|[1-2]\d|0[1-9]|[1-9]| [1-9]], [1[0-2]|0[1-9]|[1-9]] and
    [\d\d\d\d]; every other character of the format matches itself.  The
    pattern is compiled with IGNORECASE, which changes nothing for digits,
    the space and the dot.  Formats with white space or other directives are
    outside this model. *)

Inductive directive : Type :=
| Dir_d
| Dir_m
| Dir_Y
| Lit (c : N).

Fixpoint pattern (format : str) : option (list directive) :=
  match format with
  | [] => Some []
  | c :: rest =>
      if (c =? 37)%N then
        match rest with
        | [] => None
        | x :: rest' =>
            if (x =? 100)%N then option_map (cons Dir_d) (pattern rest')
            else if (x =? 109)%N then option_map (cons Dir_m) (pattern rest')
            else if (x =? 89)%N then option_map (cons Dir_Y) (pattern rest')
            else None
        end
      else option_map (cons (Lit c)) (pattern rest)
  end.

Definition is_char (a : N) (c : N) : bool := (c =? a)%N.
Definition between (lo hi : N) (c : N) : bool := (lo <=? c)%N && (c <=? hi)%N.

(** The ways one alternative can match at the start of [s]: the matched text
    and what follows it. *)
Definition one (p : N -> bool) (s : str) : list (str * str) :=
  match s with
  | c :: rest => if p c then [([c], rest)] else []
  | [] => []
  end.

Definition two (p q : N -> bool) (s : str) : list (str * str) :=
  match s with
  | c1 :: c2 :: rest => if p c1 && q c2 then [([c1; c2], rest)] else []
  | _ => []
  end.

Definition four (p : N -> bool) (s : str) : list (str * str) :=
  match s with
  | c1 :: c2 :: c3 :: c4 :: rest =>
      if p c1 && p c2 && p c3 && p c4 then [([c1; c2; c3; c4], rest)] else []
  | _ => []
  end.

(** The alternatives of a directive, in the order the matcher tries them. *)
Definition alternatives (d : directive) (s : str) : list (str * str) :=
  match d with
  | Dir_d =>
      two (is_char 51) (between 48 49) s
      ++ two (between 49 50) isdecimal_char s
      ++ two (is_char 48) (between 49 57) s
      ++ one (between 49 57) s
      ++ two (is_char 32) (between 49 57) s
  | Dir_m =>
      two (is_char 49) (between 48 50) s
      ++ two (is_char 48) (between 49 57) s
      ++ one (between 49 57) s
  | Dir_Y => four isdecimal_char s
  | Lit c => one (is_char c) s
  end.

(** [found.groupdict()]. *)
Record groupdict : Type :=
  mk_groups { group_d : option str; group_m : option str; group_Y : option str }.

Definition no_groups : groupdict := mk_groups None None None.

Definition set_group (d : directive) (text : str) (g : groupdict) : groupdict :=
  match d with
  | Dir_d => mk_groups (Some text) (group_m g) (group_Y g)
  | Dir_m => mk_groups (group_d g) (Some text) (group_Y g)
  | Dir_Y => mk_groups (group_d g) (group_m g) (Some text)
  | Lit _ => g
  end.

(** Backtracking: the first alternative after which the rest of the pattern
    matches. *)
Fixpoint first_match {A} (cands : list (str * str))
  (k : str -> str -> option A) : option A :=
  match cands with
  | [] => None
  | (text, rest) :: cands' =>
      match k text rest with
      | Some r => Some r
      | None => first_match cands' k
      end
  end.

(** [format_regex.match(data_string)]: the groups, and the text after the
    match. *)
Fixpoint re_match (re : list directive) (s : str) (g : groupdict)
  : option (groupdict * str) :=
  match re with
  | [] => Some (g, s)
  | d :: re' =>
      first_match (alternatives d s)
        (fun text rest => re_match re' rest (set_group d text g))
  end.

Definition group_int (group : option str) (default : Z) : result Z :=
  match group with
  | Some text => int text
  | None => Ok default
  end.

(** [_strptime(data_string, format)]: year, month and day.  Without [%Y] the
    year defaults to 1900, the month and the day to 1. *)
Definition _strptime (data_string format : str) : result (Z * Z * Z) :=
  match pattern format with
  | None => Raise ValueError
  | Some re =>
      match re_match re data_string no_groups with
      | None => Raise ValueError
      | Some (found, rest) =>
          if negb (len rest =? 0) then Raise ValueError
          else
            (year <- group_int (group_Y found) 1900 ;;
             month <- group_int (group_m found) 1 ;;
             day <- group_int (group_d found) 1 ;;
             Ok (year, month, day))%exn
      end
  end.

(** [datetime.strptime(data_string, format).date()]. *)
Definition strptime_date (data_string format : str) : result date.t :=
  (ymd <- _strptime data_string format ;;
   let '(year, month, day) := ymd in
   date.new year month day)%exn.

Module Birthday.
Record t : Type := mk { value : date.t }.

Definition RAW_DATE_PATTERN : str := lit "%d.%m.%Y".

Definition init (value : str) : result t :=
  try_except
    (d <- strptime_date value RAW_DATE_PATTERN ;; Ok (mk d))%exn
    ValueError InvalidBirthdayFormatError.

(** [__str__]. *)
Definition to_str (pads_year : bool) (self : t) : str :=
  date.strftime pads_year (value self) RAW_DATE_PATTERN.
End Birthday.

(** ** Python lists of phones *)

(** [l.index(x)]: the position of the first item equal to [x]. *)
Fixpoint list_index (l : list Phone.t) (x : Phone.t) : result Z :=
  match l with
  | [] => Raise ValueError
  | y :: l' =>
      if Phone.eq y x then Ok 0
      else (i <- list_index l' x ;; Ok (i + 1))%exn
  end.

(** [l.remove(x)]: the list without the first item equal to [x]. *)
Fixpoint list_remove (l : list Phone.t) (x : Phone.t)
  : result (list Phone.t) :=
  match l with
  | [] => Raise ValueError
  | y :: l' =>
      if Phone.eq y x then Ok l'
      else (l'' <- list_remove l' x ;; Ok (y :: l''))%exn
  end.

(** [l[i] = v]: a negative index counts from the end. *)
Definition list_setitem (l : list Phone.t) (i : Z) (v : Phone.t)
  : result (list Phone.t) :=
  let i := if i <? 0 then i + len l else i in
  if (0 <=? i) && (i <? len l)
  then Ok (firstn (Z.to_nat i) l ++ v :: skipn (S (Z.to_nat i)) l)
  else Raise IndexError.

(** [sep.join(items)]. *)
Fixpoint join (sep : str) (items : list str) : str :=
  match items with
  | [] => []
  | [x] => x
  | x :: items' => x ++ sep ++ join sep items'
  end.

(** ** Record *)

Module Record.
Record t : Type :=
  mk { name : Name.t; phones : list Phone.t; birthday : option Birthday.t }.

(** A method body: from the state of [self] to what the call produces and
    the state of [self] afterwards, also when it raises. *)
Definition method (A : Type) : Type := t -> result A * t.

Definition ret {A} (a : A) : method A := fun self => (Ok a, self).

Definition raise {A} (e : exn) : method A := fun self => (Raise e, self).

(** An expression that does not touch [self]. *)
Definition eval {A} (m : result A) : method A := fun self => (m, self).

Definition mbind {A B} (m : method A) (k : A -> method B) : method B :=
  fun self =>
    match m self with
    | (Ok a, self') => k a self'
    | (Raise e, self') => (Raise e, self')
    end.

Definition get_phones : method (list Phone.t) :=
  fun self => (Ok (phones self), self).

Definition set_phones (l : list Phone.t) : method unit :=
  fun self => (Ok tt, mk (name self) l (birthday self)).

Definition set_birthday (b : option Birthday.t) : method unit :=
  fun self => (Ok tt, mk (name self) (phones self) b).

Declare Scope method_scope.
Delimit Scope method_scope with method.
Notation "x <~ m ;; k" := (mbind m (fun x => k))
  (at level 61, m at next level, right associativity) : method_scope.
Local Open Scope method_scope.

Definition init (name : str) : result t :=
  (n <- Name.init name ;; Ok (mk n [] None))%exn.

Definition add_phone (phone : str) : method unit :=
  p <~ eval (Phone.init phone) ;;
  l <~ get_phones ;;
  set_phones (l ++ [p]).

Definition remove_phone (phone : str) : method unit :=
  p <~ eval (Phone.init phone) ;;
  l <~ get_phones ;;
  l' <~ eval (list_remove l p) ;;
  set_phones l'.

Definition edit_phone (phone new_phone : str) : method unit :=
  phone_object <~ eval (Phone.init phone) ;;
  l <~ get_phones ;;
  existing_phone_index <~ eval (list_index l phone_object) ;;
  if existing_phone_index <? 0 then raise NoPhoneError
  else
    p <~ eval (Phone.init new_phone) ;;
    l <~ get_phones ;;
    l' <~ eval (list_setitem l existing_phone_index p) ;;
    set_phones l'.

(** The first phone whose value is [phone], or [None]. *)
Definition find_phone (phone : str) (self : t) : option Phone.t :=
  find (fun maybe_phone => str_eqb (Phone.value maybe_phone) phone)
       (phones self).

Definition add_birthday (birthday : str) : method unit :=
  b <~ eval (Birthday.init birthday) ;;
  set_birthday (Some b).
(** [__str__]: the name, the birthday ([None] when there is none) and the
    phones; the line break inside the literal is escaped, the indentation
    after it is part of the text. *)
Definition to_str (pads_year : bool) (self : t) : str :=
  lit "Contact name: " ++ Name.value (name self)
  ++ lit ", birthday: "
  ++ match birthday self with
     | Some b => Birthday.to_str pads_year b
     | None => lit "None"
     end
  ++ lit ",             phones: "
  ++ join (lit "; ") (map Phone.value (phones self)).
End Record.

(** ** AddressBook *)

(** The [dict] behind [UserDict.data]: keys in insertion order, each once. *)
Definition dict : Type := list (str * Record.t).

Definition dict_contains (d : dict) (k : str) : bool :=
  existsb (fun kv => str_eqb (fst kv) k) d.

Definition dict_get (d : dict) (k : str) : option Record.t :=
  option_map snd (find (fun kv => str_eqb (fst kv) k) d).

(** [d[k] = v]: an existing key keeps its place. *)
Fixpoint dict_set (d : dict) (k : str) (v : Record.t) : dict :=
  match d with
  | [] => [(k, v)]
  | (k', v') :: d' =>
      if str_eqb k' k then (k', v) :: d' else (k', v') :: dict_set d' k v
  end.

Definition dict_pop (d : dict) (k : str) : dict :=
  filter (fun kv => negb (str_eqb (fst kv) k)) d.

(** An entry of the list [get_upcoming_birthdays] returns: the values under
    [USER_KEY] and [CONGRATULATION_DATE_KEY]. *)
Record upcoming : Type :=
  mk_upcoming { user : Record.t; congratulation_date : str }.

Module AddressBook.
Record t : Type := mk { data : dict }.

Definition empty : t := mk [].

Definition add_record (record : Record.t) (self : t) : t :=
  mk (dict_set (data self) (Name.value (Record.name record)) record).

(** [find] returns what [self.data.get(name)] gives, a record or [None]. *)
Definition find (name : str) (self : t) : result (option Record.t) :=
  if negb (dict_contains (data self) name) then Raise NoRecordError
  else Ok (dict_get (data self) name).

Definition delete (name : str) (self : t) : result t :=
  if negb (dict_contains (data self) name) then Raise NoRecordError
  else Ok (mk (dict_pop (data self) name)).

Definition all_records (self : t) : list Record.t := map snd (data self).

(** Lines 293-301: the next date with the month and day of the birthday. *)
Definition congrats_date_of (current_date birthday_date : date.t)
  : result date.t :=
  let current_year := date.year current_date in
  let birthday_month := date.month birthday_date in
  let birthday_day := date.day birthday_date in
  (this_year_birthday_date <-
     date.new current_year birthday_month birthday_day ;;
   let is_birthday_passed := date.lt this_year_birthday_date current_date in
   if is_birthday_passed
   then date.new (current_year + 1) birthday_month birthday_day
   else Ok this_year_birthday_date)%exn.

(** Lines 302-306: a date in the weekend moves to the Monday after it. *)
Definition weekend_shift (congrats_date : date.t) : result date.t :=
  let congrats_day_of_week := date.isoweekday congrats_date in
  let is_congrats_date_in_weekend := congrats_day_of_week >=? ISO_SATURDAY in
  if is_congrats_date_in_weekend then
    let days_factor := if congrats_day_of_week =? ISO_SUNDAY then 1 else 2 in
    date.add congrats_date days_factor
  else Ok congrats_date.

(** Lines 307-309. *)
Definition in_upcoming_range (current_date congrats_date : date.t) : bool :=
  date.toordinal congrats_date - date.toordinal current_date
  <=? DAYS_OF_UPCOMING_RANGE.

(** The loop over [self.all_records()]; [current_date] is what
    [datetime.today().date()] returned. *)
Fixpoint upcoming_loop (pads_year : bool) (current_date : date.t)
  (records : list Record.t) (upcoming_birthdays_result : list upcoming)
  : result (list upcoming) :=
  match records with
  | [] => Ok upcoming_birthdays_result
  | record :: records' =>
      match Record.birthday record with
      | None =>
          upcoming_loop pads_year current_date records'
            upcoming_birthdays_result
      | Some birthday =>
          (congrats_date <-
             congrats_date_of current_date (Birthday.value birthday) ;;
           congrats_date <- weekend_shift congrats_date ;;
           if in_upcoming_range current_date congrats_date then
             upcoming_loop pads_year current_date records'
               (upcoming_birthdays_result
                ++ [mk_upcoming record
                      (date.strftime pads_year congrats_date DATE_PATTERN)])
           else
             upcoming_loop pads_year current_date records'
               upcoming_birthdays_result)%exn
      end
  end.

Definition get_upcoming_birthdays (pads_year : bool) (current_date : date.t)
  (self : t) : result (list upcoming) :=
  upcoming_loop pads_year current_date (all_records self) [].

(** [self.find(name).phones]. *)
Definition find_phones (name : str) (self : t) : outcome (list Phone.t) :=
  match find name self with
  | Ok (Some record) => Returns (Record.phones record)
  | Ok None => Fails AttributeError
  | Raise e => Fails (Exn e)
  end.
End AddressBook.

(** ** helpers.py: [input_error] *)

Definition DEFAULT_ERROR_MESSAGE : str :=
  lit "Make sure you enter correct command and arguments"
  ++ lit "(run 'info' command if you have any doubts).".

(** The value returned by the first [except] clause that catches the
    exception.  [KeyError] has a clause too; nothing modelled here raises
    it.  [OverflowError], [AttributeError] and [EOFError] reach
    [except Exception]. *)
Definition error_message (f : failure) : str :=
  match f with
  | Exn NoRecordError =>
      lit "No such user found. Make sure you enter name of "
      ++ lit "existing contact. Run 'all' "
      ++ lit "command to see all contacts you have."
  | Exn InvalidPhoneNumberFormatError =>
      lit "Invalid format of phone number. Make sure you "
      ++ lit "enter number with exactly 10 symbols, and "
      ++ lit "it contains only digits."
  | Exn InvalidBirthdayFormatError =>
      lit "Invalid format of birtday. "
      ++ lit "Make sure you use DD.MM.YYYY format."
  | Exn NoPhoneError =>
      lit "No such phone number found. Make sure you "
      ++ lit "enter existing phone number, which "
      ++ lit "was added to contact before."
  | Exn ValueError => lit "ValueError. " ++ DEFAULT_ERROR_MESSAGE
  | Exn IndexError => lit "Index error. " ++ DEFAULT_ERROR_MESSAGE
  | Exn OverflowError | AttributeError | EOFError =>
      lit "Unexpected error. " ++ DEFAULT_ERROR_MESSAGE
  end.

(** A command function: from its arguments and the state of the address
    book to what it returns or raises and the state of the book after. *)
Definition command (Args : Type) : Type :=
  Args -> AddressBook.t -> outcome str * AddressBook.t.

(** The decorated function: it returns what [func] returns, or the message
    for what [func] raises. *)
Definition input_error {Args} (func : command Args)
  : Args -> AddressBook.t -> str * AddressBook.t :=
  fun args address_book =>
    match func args address_book with
    | (Returns message, address_book') => (message, address_book')
    | (Fails f, address_book') => (error_message f, address_book')
    end.

(** ** main.py: the command functions *)

(** The records of the book are shared objects: after a method has run on
    the record stored under [key], the entry holds the state it left. *)
Fixpoint dict_update (d : dict) (key : str) (record : Record.t) : dict :=
  match d with
  | [] => []
  | (k, v) :: d' =>
      if str_eqb k key then (k, record) :: d'
      else (k, v) :: dict_update d' key record
  end.

(** A method called on [contact], the object stored under [key], or
    [None]. *)
Definition call_method {A} (contact : option Record.t) (key : str)
  (m : Record.method A) (address_book : AddressBook.t)
  : outcome A * AddressBook.t :=
  match contact with
  | None => (Fails AttributeError, address_book)
  | Some record =>
      let (r, record') := m record in
      (of_result r,
       AddressBook.mk
         (dict_update (AddressBook.data address_book) key record'))
  end.

(** The statement after a call: [return message]. *)
Definition then_return {A} (message : str)
  (r : outcome A * AddressBook.t) : outcome str * AddressBook.t :=
  match r with
  | (Returns _, address_book) => (Returns message, address_book)
  | (Fails f, address_book) => (Fails f, address_book)
  end.

Definition add_contact_func : command (list str) :=
  fun args address_book =>
    match args with
    | name :: phone :: _ =>
        if dict_contains (AddressBook.data address_book) name then
          match AddressBook.find name address_book with
          | Raise e => (Fails (Exn e), address_book)
          | Ok contact =>
              then_return (lit "Contact updated.")
                (call_method contact name (Record.add_phone phone)
                   address_book)
          end
        else
          match Record.init name with
          | Raise e => (Fails (Exn e), address_book)
          | Ok contact =>
              let address_book :=
                AddressBook.add_record contact address_book in
              then_return (lit "Contact added.")
                (call_method (Some contact)
                   (Name.value (Record.name contact))
                   (Record.add_phone phone) address_book)
          end
    | _ => (Fails (Exn ValueError), address_book)
    end.

Definition add_contact := input_error add_contact_func.

Definition change_contact_func : command (list str) :=
  fun args address_book =>
    match args with
    | name :: old_phone :: new_phone :: _ =>
        match AddressBook.find name address_book with
        | Raise e => (Fails (Exn e), address_book)
        | Ok contact_record =>
            then_return (lit "Contact changed.")
              (call_method contact_record name
                 (Record.edit_phone old_phone new_phone) address_book)
        end
    | _ => (Fails (Exn ValueError), address_book)
    end.

Definition change_contact := input_error change_contact_func.

Definition find_numbers_by_name_func : command (list str) :=
  fun args address_book =>
    match args with
    | name :: _ =>
        match AddressBook.find_phones name address_book with
        | Fails f => (Fails f, address_book)
        | Returns phones =>
            (Returns
               (lit "Phone numbers of " ++ name ++ lit ":" ++ [10%N]
                ++ lit " [" ++ join (lit ", ") (map Phone.to_str phones)
                ++ lit "]."),
             address_book)
        end
    | [] => (Fails (Exn IndexError), address_book)
    end.

Definition find_numbers_by_name := input_error find_numbers_by_name_func.

Definition add_birthday_func : command (list str) :=
  fun args address_book =>
    match args with
    | name :: birthday :: _ =>
        match AddressBook.find name address_book with
        | Raise e => (Fails (Exn e), address_book)
        | Ok record =>
            then_return (lit "Birthday added for " ++ name)
              (call_method record name (Record.add_birthday birthday)
                 address_book)
        end
    | _ => (Fails (Exn ValueError), address_book)
    end.

Definition add_birthday := input_error add_birthday_func.

Definition show_birthday_func (pads_year : bool) : command (list str) :=
  fun args address_book =>
    match args with
    | name :: _ =>
        match AddressBook.find name address_book with
        | Raise e => (Fails (Exn e), address_book)
        | Ok None => (Fails AttributeError, address_book)
        | Ok (Some user) =>
            match Record.birthday user with
            | Some birthday =>
                (Returns (lit "Birthday of " ++ name ++ lit "'s is "
                          ++ Birthday.to_str pads_year birthday),
                 address_book)
            | None =>
                (Returns (lit "No birthday added for user " ++ name),
                 address_book)
            end
        end
    | [] => (Fails (Exn IndexError), address_book)
    end.

Definition show_birthday (pads_year : bool) :=
  input_error (show_birthday_func pads_year).

(** One line of the answer of [birthdays]; as in [Record.__str__], the
    indentation after the escaped line break is part of the text. *)
Definition birthday_line (birthday_item : upcoming) : str :=
  Name.value (Record.name (user birthday_item))
  ++ lit ":             " ++ congratulation_date birthday_item ++ [10%N].

(** [current_date] is what [datetime.today().date()] returns during the
    call. *)
Definition birthdays_func (pads_year : bool) (current_date : date.t)
  : command (list str) :=
  fun args address_book =>
    match AddressBook.get_upcoming_birthdays pads_year current_date
            address_book with
    | Raise e => (Fails (Exn e), address_book)
    | Ok [] => (Returns (lit "No upcoming birthdays for now."), address_book)
    | Ok upcoming_birthdays =>
        (Returns (lit "Upcoming birthdays:" ++ [10%N]
                  ++ List.concat (map birthday_line upcoming_birthdays)),
         address_book)
    end.

Definition birthdays (pads_year : bool) (current_date : date.t) :=
  input_error (birthdays_func pads_year current_date).

Definition output_all_contacts_func (pads_year : bool) : command unit :=
  fun _ address_book =>
    let all_contacts := AddressBook.all_records address_book in
    if len all_contacts >? 0 then
      (Returns (lit "Here's all added contacts:" ++ [10%N]
                ++ lit "["
                ++ join (lit ", ") (map (Record.to_str pads_year) all_contacts)
                ++ lit "]."),
       address_book)
    else (Returns (lit "No contacts added so far."), address_book).

Definition output_all_contacts (pads_year : bool) :=
  input_error (output_all_contacts_func pads_year) tt.

(** ** main.py: the session *)

Definition ASSISTANT_INFO : str :=
  join [10%N]
    [ lit "";
      lit "==================== ASSISTANT BOT COMMANDS ====================";
      lit "";
      lit "Contacts Management:";
      lit "  add <name> <phone>           Add new contact. Phone must be exactly 10 digits";
      lit "  change <name> <old> <new>    Change a contact's phone number";
      lit "  phone <name>                 Show all phone numbers for a contact";
      lit "  clear                        Remove all contacts from the address book";
      lit "";
      lit "Birthday Management:";
      lit "  add-birthday <name> <date>   Add a birthday to a contact (format: DD.MM.YYYY)";
      lit "  show-birthday <name>         Show the birthday for a contact";
      lit "  birthdays                    List all upcoming birthdays in the next 7 days";
      lit "";
      lit "General:";
      lit "  all                          Show all saved contacts";
      lit "  info                         Show this help message";
      lit "  close                        Print 'Good bye!' and exit the assistant";
      lit "  exit                         Exit the program immediately";
      lit "  hello                        Just say 'Hi!'";
      lit "";
      lit "Notes:";
      lit "- Phone numbers must be 10 digits (no spaces, plus, or special characters)";
      lit "- Birthday format must be DD.MM.YYYY (e.g., 28.09.2025)";
      lit "- Arguments in <angle brackets> are required";
      lit "===============================================================";
      lit "" ].

(** The decorated [format_info]: its body cannot raise. *)
Definition format_info : str := ASSISTANT_INFO.

(** [s.split()]: the runs of characters that are not white space; [token]
    is the run being read. *)
Fixpoint split_from (token : str) (s : str) : list str :=
  match s with
  | [] =>
      match token with
      | [] => []
      | _ => [token]
      end
  | c :: rest =>
      if isspace_char c then
        match token with
        | [] => split_from [] rest
        | _ => token :: split_from [] rest
        end
      else split_from (token ++ [c]) rest
  end.

Definition split (s : str) : list str := split_from [] s.

(** [haystack.startswith(needle)] and [needle in haystack]. *)
Fixpoint startswith (haystack needle : str) : bool :=
  match needle, haystack with
  | [], _ => true
  | c :: needle', d :: haystack' => N.eqb c d && startswith haystack' needle'
  | _ :: _, [] => false
  end.

Fixpoint contains (haystack needle : str) : bool :=
  startswith haystack needle
  || match haystack with
     | [] => false
     | _ :: haystack' => contains haystack' needle
     end.

(** [load_address_book]: what the file holds, or a new book when there is
    no file.  A file that cannot be read back is outside the model. *)
Definition load_address_book (stored : option AddressBook.t)
  : AddressBook.t :=
  match stored with
  | Some address_book => address_book
  | None => AddressBook.empty
  end.

(** What a run of [use_case] leaves: the texts given to [print] (the prompts
    of [input] are not among them), what the decorated function returns
    ([None] after [break], the message of [input_error] when an exception
    ends the loop), and the book given to [save_address_book], if any. *)
Record session : Type :=
  mk_session {
    printed : list str;
    returned : option str;
    saved : option AddressBook.t }.

Section Session.

(** [str.lower], the lower-case mapping of the Unicode database, is not
    spelled out; [pads_year] is the platform's rendering of [%Y]; [today_at
    n] is the date when the command after [n] earlier ones runs. *)
Variable lower : str -> str.
Variable pads_year : bool.
Variable today_at : nat -> date.t.

Definition parse_input (user_input : str) : result (str * list str) :=
  match split user_input with
  | [] => Raise ValueError
  | cmd :: args => Ok (lower (strip cmd), args)
  end.

(** The loop of [use_case] on the lines that [input] will return. *)
Fixpoint command_loop (inputs : list str) (n : nat)
  (address_book : AddressBook.t) (printed : list str) : session :=
  match inputs with
  | [] => mk_session printed (Some (error_message EOFError)) None
  | user_input :: inputs' =>
      match parse_input user_input with
      | Raise e => mk_session printed (Some (error_message (Exn e))) None
      | Ok (command, args) =>
          if str_eqb command (lit "info") then
            command_loop inputs' (S n) address_book (printed ++ [format_info])
          else if str_eqb command (lit "hello") then
            command_loop inputs' (S n) address_book (printed ++ [lit "Hi!"])
          else if str_eqb command (lit "add") then
            let (message, address_book') := add_contact args address_book in
            command_loop inputs' (S n) address_book' (printed ++ [message])
          else if str_eqb command (lit "change") then
            let (message, address_book') :=
              change_contact args address_book in
            command_loop inputs' (S n) address_book' (printed ++ [message])
          else if str_eqb command (lit "phone") then
            let (message, address_book') :=
              find_numbers_by_name args address_book in
            command_loop inputs' (S n) address_book' (printed ++ [message])
          else if str_eqb command (lit "add-birthday") then
            let (message, address_book') :=
              add_birthday args address_book in
            command_loop inputs' (S n) address_book' (printed ++ [message])
          else if str_eqb command (lit "show-birthday") then
            let (message, address_book') :=
              show_birthday pads_year args address_book in
            command_loop inputs' (S n) address_book' (printed ++ [message])
          else if str_eqb command (lit "birthdays") then
            let (message, address_book') :=
              birthdays pads_year (today_at n) args address_book in
            command_loop inputs' (S n) address_book' (printed ++ [message])
          else if str_eqb command (lit "all") then
            let (message, address_book') :=
              output_all_contacts pads_year address_book in
            command_loop inputs' (S n) address_book' (printed ++ [message])
          else if contains (lit "close") command then
            mk_session (printed ++ [lit "Good bye!"]) None (Some address_book)
          else if str_eqb command (lit "exit") then
            mk_session printed None (Some address_book)
          else
            command_loop inputs' (S n) address_book
              (printed ++ [lit "Invalid command."])
      end
  end.

(** The decorated [use_case]; [stored] is what the file of the address book
    holds, if it exists. *)
Definition use_case (stored : option AddressBook.t) (inputs : list str)
  : session :=
  command_loop inputs 0 (load_address_book stored)
    [lit "Welcome to the assistant bot!"; format_info].

End Session.

(** [str.lower] on text without letters outside ASCII. *)
Definition ascii_lower (s : str) : str :=
  map (fun c => if (65 <=? c)%N && (c <=? 90)%N then (c + 32)%N else c) s.

(** * Properties *)

(** ** Strings and phones *)

Lemma str_eqb_eq (a b : str) : str_eqb a b = true <-> a = b.
Proof.
  revert b; induction a as [|x a IH]; intros [|y b]; simpl;
    try (split; [discriminate | discriminate]); try tauto.
  rewrite andb_true_iff, N.eqb_eq, IH.
  split; [intros [-> ->]; reflexivity | intros H; inversion H; auto].
Qed.

Lemma str_eqb_refl (a : str) : str_eqb a a = true.
Proof. apply str_eqb_eq; reflexivity. Qed.

Lemma isdigit_forall (v : str) :
  isdigit v = true <-> v <> [] /\ forall c, In c v -> isdigit_char c = true.
Proof.
  destruct v as [|c v].
  - simpl; split; [discriminate | intros [H _]; congruence].
  - unfold isdigit. rewrite forallb_forall.
    split; [intros H; split; [discriminate | exact H] | intros [_ H]; exact H].
Qed.

Lemma ascii_digit_isdecimal (c : N) :
  is_ascii_digit c = true -> isdecimal_char c = true.
Proof.
  unfold is_ascii_digit, isdecimal_char; intros H.
  apply existsb_exists; exists (48%N, 57%N); split; [left; reflexivity|].
  exact H.
Qed.

Lemma ascii_digit_isdigit (c : N) :
  is_ascii_digit c = true -> isdigit_char c = true.
Proof.
  intros H; unfold isdigit_char; rewrite (ascii_digit_isdecimal c H);
    reflexivity.
Qed.

(** What a stored phone value looks like. *)
Definition ten_digits (v : str) : Prop :=
  len v = 10 /\ forall c, In c v -> isdigit_char c = true.

Lemma Phone_init_ok (v : str) :
  ten_digits v -> Phone.init v = Ok (Phone.mk v).
Proof.
  intros [Hlen Hdig]; unfold Phone.init, PHONE_LENGTH.
  rewrite (proj2 (Z.eqb_eq _ _) Hlen); simpl.
  assert (Hd : isdigit v = true).
  { apply isdigit_forall; split; [|exact Hdig].
    intros ->; discriminate Hlen. }
  rewrite Hd; reflexivity.
Qed.

Lemma Phone_init_inv (v : str) (p : Phone.t) :
  Phone.init v = Ok p -> p = Phone.mk v /\ ten_digits v.
Proof.
  unfold Phone.init, PHONE_LENGTH, ten_digits.
  destruct (len v =? 10) eqn:Hlen; simpl; [|discriminate].
  destruct (isdigit v) eqn:Hd; simpl; [|discriminate].
  intros H; inversion H; subst; split; [reflexivity|].
  split; [apply Z.eqb_eq; exact Hlen | apply isdigit_forall; exact Hd].
Qed.

Lemma Phone_init_raise (v : str) (e : exn) :
  Phone.init v = Raise e -> e = InvalidPhoneNumberFormatError /\ ~ ten_digits v.
Proof.
  unfold Phone.init, PHONE_LENGTH, ten_digits.
  destruct (len v =? 10) eqn:Hlen; simpl.
  - destruct (isdigit v) eqn:Hd; simpl; [discriminate|].
    intros H; inversion H; split; [reflexivity|].
    intros [_ Hall].
    assert (isdigit v = true); [|congruence].
    apply isdigit_forall; split; [|exact Hall].
    intros ->; discriminate Hlen.
  - intros H; inversion H; split; [reflexivity|].
    intros [Hl _]. apply Z.eqb_neq in Hlen; contradiction.
Qed.

Lemma not_ten_digits (v : str) :
  ~ ten_digits v <->
  (len v <> 10 \/ exists c, In c v /\ isdigit_char c = false).
Proof.
  unfold ten_digits; split.
  - intros H. destruct (Z.eq_dec (len v) 10) as [Hl|Hl]; [right|left; exact Hl].
    destruct (forallb isdigit_char v) eqn:Hf.
    + exfalso; apply H; split; [exact Hl|].
      apply forallb_forall; exact Hf.
    + clear -Hf. induction v as [|c v IH]; simpl in Hf; [discriminate|].
      destruct (isdigit_char c) eqn:Hc; simpl in Hf.
      * destruct (IH Hf) as [c' [Hin Hc']]; exists c'; split; [right|]; auto.
      * exists c; split; [left; reflexivity | exact Hc].
  - intros [Hl | [c [Hin Hc]]] [Hl' Hall]; [contradiction|].
    rewrite (Hall c Hin) in Hc; discriminate.
Qed.

(** C5, as amended.  A phone is refused exactly when its length is not 10 or
    one of its characters is not a digit in the sense of [str.isdigit]; ten
    ASCII digits are accepted, stored verbatim and rendered back
    unchanged. *)
Theorem Phone_init_spec (s : str) :
  (Phone.init s = Raise InvalidPhoneNumberFormatError <->
   (len s <> 10 \/ exists c, In c s /\ isdigit_char c = false))
  /\ (forall e, Phone.init s = Raise e -> e = InvalidPhoneNumberFormatError)
  /\ (len s = 10 -> (forall c, In c s -> is_ascii_digit c = true) ->
      exists p, Phone.init s = Ok p /\ Phone.value p = s /\ Phone.to_str p = s).
Proof.
  split; [|split].
  - rewrite <- not_ten_digits. split.
    + intros H; apply (Phone_init_raise _ _ H).
    + intros H. destruct (Phone.init s) as [p|e] eqn:Hi.
      * exfalso; apply H; apply (Phone_init_inv _ _ Hi).
      * destruct (Phone_init_raise _ _ Hi) as [-> _]; reflexivity.
  - intros e H; apply (Phone_init_raise _ _ H).
  - intros Hlen Hascii. exists (Phone.mk s); split; [|split; reflexivity].
    apply Phone_init_ok; split; [exact Hlen|].
    intros c Hin; apply ascii_digit_isdigit; auto.
Qed.

Definition superscript_twos : str := repeat 178%N 10.

(** C5 as stated fails: SUPERSCRIPT TWO is not a decimal digit, and a phone
    made of ten of them is accepted. *)
Lemma Phone_init_superscript_twos :
  len superscript_twos = 10
  /\ In 178%N superscript_twos
  /\ isdecimal_char 178 = false
  /\ is_ascii_digit 178 = false
  /\ Phone.init superscript_twos = Ok (Phone.mk superscript_twos).
Proof. repeat split; try reflexivity. left; reflexivity. Qed.

Lemma Phone_init_spec_witness :
  exists p, Phone.init (lit "0123456789") = Ok p
            /\ Phone.value p = lit "0123456789"
            /\ Phone.to_str p = lit "0123456789".
Proof.
  apply (proj2 (proj2 (Phone_init_spec (lit "0123456789")))).
  - reflexivity.
  - intros c Hin; simpl in Hin.
    repeat (destruct Hin as [<-|Hin]; [reflexivity|]); contradiction.
Defined.

(** ** Record: the list operations *)

Lemma Phone_eq_true (a b : Phone.t) : Phone.eq a b = true <-> a = b.
Proof.
  unfold Phone.eq; rewrite str_eqb_eq.
  destruct a as [x], b as [y]; simpl.
  split; [intros ->; reflexivity | intros H; inversion H; reflexivity].
Qed.

Lemma list_index_raise (l : list Phone.t) (x : Phone.t) (e : exn) :
  list_index l x = Raise e -> e = ValueError /\ ~ In x l.
Proof.
  induction l as [|y l IH]; simpl.
  - intros H; inversion H; auto.
  - destruct (Phone.eq y x) eqn:Heq; [discriminate|].
    destruct (list_index l x) as [i|e'] eqn:Hi; simpl; [discriminate|].
    intros H; inversion H; subst e'.
    destruct (IH eq_refl) as [-> Hn]; split; [reflexivity|].
    intros [-> | Hin]; [|contradiction].
    rewrite (proj2 (Phone_eq_true x x) eq_refl) in Heq; discriminate.
Qed.

Lemma list_index_absent (l : list Phone.t) (x : Phone.t) :
  ~ In x l -> list_index l x = Raise ValueError.
Proof.
  induction l as [|y l IH]; simpl; intros Hn; [reflexivity|].
  destruct (Phone.eq y x) eqn:Heq.
  - exfalso; apply Hn; left; apply Phone_eq_true; exact Heq.
  - rewrite IH; [reflexivity | intros H; apply Hn; right; exact H].
Qed.

(** A successful [index] is the position of the first occurrence. *)
Lemma list_index_ok (l : list Phone.t) (x : Phone.t) (i : Z) :
  list_index l x = Ok i ->
  0 <= i < len l
  /\ exists before after,
       l = before ++ x :: after /\ ~ In x before
       /\ Z.to_nat i = List.length before.
Proof.
  revert i; induction l as [|y l IH]; simpl; intros i; [discriminate|].
  destruct (Phone.eq y x) eqn:Heq.
  - intros H; inversion H; subst i. apply Phone_eq_true in Heq; subst y.
    split; [unfold len; simpl; lia|].
    exists [], l; repeat split; auto.
  - destruct (list_index l x) as [j|e'] eqn:Hj; simpl; [|discriminate].
    intros H; inversion H; subst i.
    destruct (IH j eq_refl) as [Hr [before [after [Hl [Hn Hlen]]]]].
    split; [unfold len in *; simpl; lia|].
    exists (y :: before), after; repeat split.
    + simpl; rewrite Hl; reflexivity.
    + intros [-> | Hin]; [|contradiction].
      rewrite (proj2 (Phone_eq_true x x) eq_refl) in Heq; discriminate.
    + simpl; rewrite <- Hlen; lia.
Qed.

Lemma list_index_present (l : list Phone.t) (x : Phone.t) :
  In x l -> exists i, list_index l x = Ok i.
Proof.
  intros Hin. destruct (list_index l x) as [i|e] eqn:H; [eauto|].
  destruct (list_index_raise _ _ _ H) as [_ Hn]; contradiction.
Qed.

Lemma list_remove_raise (l : list Phone.t) (x : Phone.t) (e : exn) :
  list_remove l x = Raise e -> e = ValueError /\ ~ In x l.
Proof.
  induction l as [|y l IH]; simpl.
  - intros H; inversion H; auto.
  - destruct (Phone.eq y x) eqn:Heq; [discriminate|].
    destruct (list_remove l x) as [i|e'] eqn:Hi; simpl; [discriminate|].
    intros H; inversion H; subst e'.
    destruct (IH eq_refl) as [-> Hn]; split; [reflexivity|].
    intros [-> | Hin]; [|contradiction].
    rewrite (proj2 (Phone_eq_true x x) eq_refl) in Heq; discriminate.
Qed.

Lemma list_remove_absent (l : list Phone.t) (x : Phone.t) :
  ~ In x l -> list_remove l x = Raise ValueError.
Proof.
  induction l as [|y l IH]; simpl; intros Hn; [reflexivity|].
  destruct (Phone.eq y x) eqn:Heq.
  - exfalso; apply Hn; left; apply Phone_eq_true; exact Heq.
  - rewrite IH; [reflexivity | intros H; apply Hn; right; exact H].
Qed.

(** A successful [remove] drops the first occurrence and nothing else. *)
Lemma list_remove_ok (l l' : list Phone.t) (x : Phone.t) :
  list_remove l x = Ok l' ->
  exists before after,
    l = before ++ x :: after /\ ~ In x before /\ l' = before ++ after.
Proof.
  revert l'; induction l as [|y l IH]; simpl; intros l'; [discriminate|].
  destruct (Phone.eq y x) eqn:Heq.
  - intros H; inversion H; subst l'. apply Phone_eq_true in Heq; subst y.
    exists [], l; repeat split; auto.
  - destruct (list_remove l x) as [l1|e'] eqn:Hj; simpl; [|discriminate].
    intros H; inversion H; subst l'.
    destruct (IH l1 eq_refl) as [before [after [Hl [Hn Hl1]]]].
    exists (y :: before), after; repeat split.
    + simpl; rewrite Hl; reflexivity.
    + intros [-> | Hin]; [|contradiction].
      rewrite (proj2 (Phone_eq_true x x) eq_refl) in Heq; discriminate.
    + simpl; rewrite Hl1; reflexivity.
Qed.

Lemma In_firstn_list {A} (n : nat) (l : list A) (x : A) :
  In x (firstn n l) -> In x l.
Proof.
  revert l; induction n as [|n IH]; intros [|y l]; simpl; try tauto.
  intros [H | H]; [left; exact H | right; apply IH; exact H].
Qed.

Lemma In_skipn_list {A} (n : nat) (l : list A) (x : A) :
  In x (skipn n l) -> In x l.
Proof.
  revert l; induction n as [|n IH]; intros [|y l]; simpl; try tauto.
  intros H; right; apply IH; exact H.
Qed.

Lemma list_setitem_ok (l : list Phone.t) (i : Z) (v : Phone.t) :
  0 <= i < len l ->
  list_setitem l i v
  = Ok (firstn (Z.to_nat i) l ++ v :: skipn (S (Z.to_nat i)) l).
Proof.
  intros Hi; unfold list_setitem.
  destruct (i <? 0) eqn:Hneg; [apply Z.ltb_lt in Hneg; lia|].
  destruct (0 <=? i) eqn:H0; [|apply Z.leb_gt in H0; lia].
  destruct (i <? len l) eqn:H1; [|apply Z.ltb_ge in H1; lia].
  reflexivity.
Qed.

Lemma list_setitem_In (l l' : list Phone.t) (i : Z) (v p : Phone.t) :
  list_setitem l i v = Ok l' -> In p l' -> p = v \/ In p l.
Proof.
  unfold list_setitem.
  destruct (_ && _); [|discriminate].
  intros H; inversion H; subst l'; clear H.
  rewrite in_app_iff; simpl.
  intros [Hin | [Heq | Hin]].
  - right; eapply In_firstn_list; eauto.
  - left; symmetry; exact Heq.
  - right; eapply In_skipn_list with (n := S _); eauto.
Qed.

(** ** Record: the methods, unfolded *)

Lemma add_phone_eq (phone : str) (self : Record.t) :
  Record.add_phone phone self =
  match Phone.init phone with
  | Ok p =>
      (Ok tt, Record.mk (Record.name self) (Record.phones self ++ [p])
                (Record.birthday self))
  | Raise e => (Raise e, self)
  end.
Proof.
  unfold Record.add_phone, Record.mbind, Record.eval.
  destruct (Phone.init phone); reflexivity.
Qed.

Lemma remove_phone_eq (phone : str) (self : Record.t) :
  Record.remove_phone phone self =
  match Phone.init phone with
  | Ok p =>
      match list_remove (Record.phones self) p with
      | Ok l' =>
          (Ok tt, Record.mk (Record.name self) l' (Record.birthday self))
      | Raise e => (Raise e, self)
      end
  | Raise e => (Raise e, self)
  end.
Proof.
  unfold Record.remove_phone, Record.mbind, Record.eval.
  destruct (Phone.init phone) as [p|e]; [|reflexivity].
  simpl. destruct (list_remove (Record.phones self) p); reflexivity.
Qed.

Lemma edit_phone_eq (phone new_phone : str) (self : Record.t) :
  Record.edit_phone phone new_phone self =
  match Phone.init phone with
  | Ok phone_object =>
      match list_index (Record.phones self) phone_object with
      | Ok i =>
          if i <? 0 then (Raise NoPhoneError, self)
          else
            match Phone.init new_phone with
            | Ok p =>
                match list_setitem (Record.phones self) i p with
                | Ok l' =>
                    (Ok tt,
                     Record.mk (Record.name self) l' (Record.birthday self))
                | Raise e => (Raise e, self)
                end
            | Raise e => (Raise e, self)
            end
      | Raise e => (Raise e, self)
      end
  | Raise e => (Raise e, self)
  end.
Proof.
  unfold Record.edit_phone, Record.mbind, Record.eval.
  destruct (Phone.init phone) as [po|e]; [|reflexivity].
  simpl. destruct (list_index (Record.phones self) po) as [i|e]; [|reflexivity].
  destruct (i <? 0); [reflexivity|].
  destruct (Phone.init new_phone) as [p|e]; [|reflexivity].
  simpl. destruct (list_setitem (Record.phones self) i p); reflexivity.
Qed.

Lemma add_birthday_eq (birthday : str) (self : Record.t) :
  Record.add_birthday birthday self =
  match Birthday.init birthday with
  | Ok b =>
      (Ok tt, Record.mk (Record.name self) (Record.phones self) (Some b))
  | Raise e => (Raise e, self)
  end.
Proof.
  unfold Record.add_birthday, Record.mbind, Record.eval.
  destruct (Birthday.init birthday); reflexivity.
Qed.

(** What [remove_phone] does with a well-formed number: [ValueError] when no
    phone has that value, otherwise the first such phone is dropped and the
    others keep their order. *)
Lemma remove_phone_valid (raw : str) (self : Record.t) :
  ten_digits raw ->
  (~ In (Phone.mk raw) (Record.phones self) ->
   Record.remove_phone raw self = (Raise ValueError, self))
  /\ (forall before after,
        Record.phones self = before ++ Phone.mk raw :: after ->
        ~ In (Phone.mk raw) before ->
        Record.remove_phone raw self
        = (Ok tt, Record.mk (Record.name self) (before ++ after)
                    (Record.birthday self))).
Proof.
  intros Hv; rewrite remove_phone_eq, (Phone_init_ok raw Hv); split.
  - intros Hn; rewrite (list_remove_absent _ _ Hn); reflexivity.
  - intros before after Hl Hn.
    destruct (list_remove (Record.phones self) (Phone.mk raw)) as [l'|e] eqn:Hr.
    + destruct (list_remove_ok _ _ _ Hr) as [b' [a' [Hl' [Hn' ->]]]].
      rewrite Hl in Hl'.
      assert (Hb : before = b').
      { clear -Hl' Hn Hn'. revert b' Hl' Hn'.
        induction before as [|y before IH]; intros [|z b'] Hl' Hn'; simpl in *.
        - reflexivity.
        - inversion Hl'; subst z. exfalso; apply Hn'; left; reflexivity.
        - inversion Hl'; subst y. exfalso; apply Hn; left; reflexivity.
        - inversion Hl'; subst z. f_equal. apply IH; auto. }
      subst b'. apply app_inv_head in Hl'. inversion Hl'; reflexivity.
    + destruct (list_remove_raise _ _ _ Hr) as [_ Hn'].
      exfalso; apply Hn'; rewrite Hl; apply in_or_app; right; left; reflexivity.
Qed.

Definition record_1111111111 : Record.t :=
  Record.mk (Name.mk (lit "Ann")) [Phone.mk (lit "1111111111")] None.

(** C4.  Removing a well-formed number that the record does not hold raises
    the [ValueError] of [list.remove], not [NoPhoneError]. *)
Theorem remove_phone_absent_ValueError :
  Phone.init (lit "2222222222") = Ok (Phone.mk (lit "2222222222"))
  /\ ~ In (Phone.mk (lit "2222222222")) (Record.phones record_1111111111)
  /\ Record.remove_phone (lit "2222222222") record_1111111111
     = (Raise ValueError, record_1111111111).
Proof.
  split; [reflexivity|]. split; [|reflexivity].
  simpl; intros [H | []]; discriminate H.
Qed.

(** C10.  A mutating method of [Record] that raises leaves the name, the
    phones and the birthday of the record as they were. *)
Theorem Record_mutation_atomic (self : Record.t) (e : exn) :
  (forall phone,
     fst (Record.add_phone phone self) = Raise e ->
     snd (Record.add_phone phone self) = self)
  /\ (forall phone,
        fst (Record.remove_phone phone self) = Raise e ->
        snd (Record.remove_phone phone self) = self)
  /\ (forall phone new_phone,
        fst (Record.edit_phone phone new_phone self) = Raise e ->
        snd (Record.edit_phone phone new_phone self) = self)
  /\ (forall birthday,
        fst (Record.add_birthday birthday self) = Raise e ->
        snd (Record.add_birthday birthday self) = self).
Proof.
  repeat split.
  - intros phone; rewrite add_phone_eq.
    destruct (Phone.init phone); simpl; [discriminate | reflexivity].
  - intros phone; rewrite remove_phone_eq.
    destruct (Phone.init phone) as [p|]; simpl; [|reflexivity].
    destruct (list_remove _ p); simpl; [discriminate | reflexivity].
  - intros phone new_phone; rewrite edit_phone_eq.
    destruct (Phone.init phone) as [po|]; simpl; [|reflexivity].
    destruct (list_index _ po) as [i|]; simpl; [|reflexivity].
    destruct (i <? 0); simpl; [reflexivity|].
    destruct (Phone.init new_phone) as [p|]; simpl; [|reflexivity].
    destruct (list_setitem _ i p); simpl; [discriminate | reflexivity].
  - intros birthday; rewrite add_birthday_eq.
    destruct (Birthday.init birthday); simpl; [discriminate | reflexivity].
Qed.

Definition record_with_birthday : Record.t :=
  Record.mk (Name.mk (lit "Ann"))
    [Phone.mk (lit "1111111111"); Phone.mk (lit "0987654321")]
    (Some (Birthday.mk (date.mk 1990 6 8))).

Lemma Record_mutation_atomic_witness :
  snd (Record.add_phone (lit "12345") record_with_birthday)
  = record_with_birthday
  /\ snd (Record.remove_phone (lit "2222222222") record_with_birthday)
     = record_with_birthday
  /\ snd (Record.edit_phone (lit "1111111111") (lit "abc")
            record_with_birthday)
     = record_with_birthday
  /\ snd (Record.add_birthday (lit "31.02.2000") record_with_birthday)
     = record_with_birthday.
Proof.
  split; [|split; [|split]].
  - apply (proj1 (Record_mutation_atomic record_with_birthday
                    InvalidPhoneNumberFormatError)); reflexivity.
  - apply (proj1 (proj2 (Record_mutation_atomic record_with_birthday
                           ValueError))); reflexivity.
  - apply (proj1 (proj2 (proj2 (Record_mutation_atomic record_with_birthday
                                  InvalidPhoneNumberFormatError))));
      reflexivity.
  - apply (proj2 (proj2 (proj2 (Record_mutation_atomic record_with_birthday
                                  InvalidBirthdayFormatError))));
      reflexivity.
Defined.

(** ** Record: the phones stay well formed *)

Definition phones_valid (self : Record.t) : Prop :=
  Forall (fun p => ten_digits (Phone.value p)) (Record.phones self).

Lemma Phone_init_valid (v : str) (p : Phone.t) :
  Phone.init v = Ok p -> ten_digits (Phone.value p).
Proof.
  intros H; destruct (Phone_init_inv _ _ H) as [-> Hv]; exact Hv.
Qed.

Lemma phones_valid_steps :
  (forall name self, Record.init name = Ok self -> phones_valid self)
  /\ (forall self,
        phones_valid self ->
        (forall phone, phones_valid (snd (Record.add_phone phone self)))
        /\ (forall phone, phones_valid (snd (Record.remove_phone phone self)))
        /\ (forall phone new_phone,
              phones_valid (snd (Record.edit_phone phone new_phone self)))
        /\ (forall birthday,
              phones_valid (snd (Record.add_birthday birthday self)))).
Proof.
  split.
  - intros name self; unfold Record.init.
    destruct (Name.init name); simpl; [|discriminate].
    intros H; inversion H; constructor.
  - intros self Hinv; unfold phones_valid in *; repeat split.
    + intros phone; rewrite add_phone_eq.
      destruct (Phone.init phone) as [p|] eqn:Hp; simpl; [|exact Hinv].
      apply Forall_app; split; [exact Hinv|].
      constructor; [exact (Phone_init_valid _ _ Hp) | constructor].
    + intros phone; rewrite remove_phone_eq.
      destruct (Phone.init phone) as [p|]; simpl; [|exact Hinv].
      destruct (list_remove _ p) as [l'|] eqn:Hr; simpl; [|exact Hinv].
      destruct (list_remove_ok _ _ _ Hr) as [before [after [Hl [_ ->]]]].
      rewrite Hl in Hinv. apply Forall_app in Hinv; destruct Hinv as [Hb Ha].
      apply Forall_app; split; [exact Hb | inversion Ha; assumption].
    + intros phone new_phone; rewrite edit_phone_eq.
      destruct (Phone.init phone) as [po|]; simpl; [|exact Hinv].
      destruct (list_index _ po) as [i|]; simpl; [|exact Hinv].
      destruct (i <? 0); simpl; [exact Hinv|].
      destruct (Phone.init new_phone) as [p|] eqn:Hp; simpl; [|exact Hinv].
      destruct (list_setitem _ i p) as [l'|] eqn:Hs; simpl; [|exact Hinv].
      apply Forall_forall; intros q Hq.
      destruct (list_setitem_In _ _ _ _ _ Hs Hq) as [-> | Hin].
      * exact (Phone_init_valid _ _ Hp).
      * rewrite Forall_forall in Hinv; apply Hinv; exact Hin.
    + intros birthday; rewrite add_birthday_eq.
      destruct (Birthday.init birthday); simpl; exact Hinv.
Qed.

Lemma phones_valid_record_with_birthday : phones_valid record_with_birthday.
Proof.
  unfold phones_valid; simpl.
  repeat (constructor; [split; [reflexivity|];
    intros c Hin; simpl in Hin;
    repeat (destruct Hin as [<-|Hin]; [reflexivity|]); contradiction|]).
  constructor.
Qed.

(** The records a program can build with the methods of [Record]. *)
Inductive reachable : Record.t -> Prop :=
| reach_init name self : Record.init name = Ok self -> reachable self
| reach_add_phone self phone :
    reachable self -> reachable (snd (Record.add_phone phone self))
| reach_remove_phone self phone :
    reachable self -> reachable (snd (Record.remove_phone phone self))
| reach_edit_phone self phone new_phone :
    reachable self ->
    reachable (snd (Record.edit_phone phone new_phone self))
| reach_add_birthday self birthday :
    reachable self -> reachable (snd (Record.add_birthday birthday self)).

Lemma reachable_phones_valid (self : Record.t) :
  reachable self -> phones_valid self.
Proof.
  induction 1 as [name self H | self phone _ IH | self phone _ IH
                 | self phone new_phone _ IH | self birthday _ IH].
  - exact (proj1 phones_valid_steps name self H).
  - apply (proj2 phones_valid_steps self IH).
  - apply (proj2 phones_valid_steps self IH).
  - apply (proj2 phones_valid_steps self IH).
  - apply (proj2 phones_valid_steps self IH).
Qed.

(** Every string of ten characters that [str.isdigit] accepts is a phone of
    some record built with the methods: no narrower set of characters holds
    of all stored phones. *)
Lemma reachable_any_ten_digits (v : str) :
  ten_digits v ->
  exists self, reachable self /\ In (Phone.mk v) (Record.phones self).
Proof.
  intros Hv.
  exists (snd (Record.add_phone v (Record.mk (Name.mk (lit "Ann")) [] None))).
  split.
  - apply reach_add_phone. apply (reach_init (lit "Ann")). reflexivity.
  - rewrite add_phone_eq, (Phone_init_ok v Hv). left; reflexivity.
Qed.

(** The record of Ann after [add_phone] of ten SUPERSCRIPT TWO. *)
Definition record_superscript_twos : Record.t :=
  snd (Record.add_phone (repeat 178%N 10)
         (Record.mk (Name.mk (lit "Ann")) [] None)).

(** C8 as stated fails when a digit is a decimal digit, as in the format of
    a phone number: the record made by [Record] of Ann and [add_phone] of ten
    SUPERSCRIPT TWO holds a phone none of whose characters is an ASCII digit
    or a decimal digit. *)
Lemma reachable_superscript_phone :
  Record.init (lit "Ann") = Ok (Record.mk (Name.mk (lit "Ann")) [] None)
  /\ Record.add_phone (repeat 178%N 10)
       (Record.mk (Name.mk (lit "Ann")) [] None)
     = (Ok tt, record_superscript_twos)
  /\ reachable record_superscript_twos
  /\ Record.phones record_superscript_twos = [Phone.mk (repeat 178%N 10)]
  /\ isdecimal_char 178 = false
  /\ is_ascii_digit 178 = false
  /\ decimal_value 178 = None
  /\ isdigit_char 178 = true.
Proof.
  repeat split; try reflexivity.
  apply reach_add_phone. apply (reach_init (lit "Ann")). reflexivity.
Qed.

(** C8, as amended.  Every phone of a record holds ten characters that are
    digits in the sense of [str.isdigit], the test that [Phone] applies: a
    new record has no phones, and [add_phone], [remove_phone], [edit_phone]
    and [add_birthday] keep the property, whether they return or raise; so
    it holds of every record built with these methods.  Nothing narrower
    holds: every string of ten such characters is a phone of some record
    built with them. *)
Theorem phones_valid_invariant :
  (forall name self, Record.init name = Ok self -> phones_valid self)
  /\ (forall self,
        phones_valid self ->
        (forall phone, phones_valid (snd (Record.add_phone phone self)))
        /\ (forall phone, phones_valid (snd (Record.remove_phone phone self)))
        /\ (forall phone new_phone,
              phones_valid (snd (Record.edit_phone phone new_phone self)))
        /\ (forall birthday,
              phones_valid (snd (Record.add_birthday birthday self))))
  /\ (forall self, reachable self -> phones_valid self)
  /\ (forall v,
        ten_digits v ->
        exists self, reachable self /\ In (Phone.mk v) (Record.phones self)).
Proof.
  split; [exact (proj1 phones_valid_steps)|].
  split; [exact (proj2 phones_valid_steps)|].
  split; [exact reachable_phones_valid | exact reachable_any_ten_digits].
Qed.

Lemma phones_valid_invariant_witness :
  phones_valid
    (snd (Record.edit_phone (lit "1111111111") (lit "5555555555")
            record_with_birthday))
  /\ phones_valid (snd (Record.add_phone (lit "0000000000")
                          record_with_birthday)).
Proof.
  split.
  - apply (proj1 (proj2 phones_valid_invariant) record_with_birthday
             phones_valid_record_with_birthday).
  - apply (proj1 (proj2 phones_valid_invariant) record_with_birthday
             phones_valid_record_with_birthday).
Defined.


(** ** Record: [edit_phone] *)

(** C9.  The [NoPhoneError] branch of [edit_phone] is dead: when no phone
    equals the old one, [index] itself raises [ValueError]; when it returns,
    the index is not negative; so [edit_phone] never raises
    [NoPhoneError]. *)
Theorem edit_phone_never_NoPhoneError
  (phone new_phone : str) (self : Record.t) :
  (forall x, ~ In x (Record.phones self) ->
             list_index (Record.phones self) x = Raise ValueError)
  /\ (forall x i, list_index (Record.phones self) x = Ok i -> 0 <= i)
  /\ (forall p, Phone.init phone = Ok p -> ~ In p (Record.phones self) ->
                Record.edit_phone phone new_phone self
                = (Raise ValueError, self))
  /\ fst (Record.edit_phone phone new_phone self) <> Raise NoPhoneError.
Proof.
  split; [|split; [|split]].
  - intros x Hn; apply list_index_absent; exact Hn.
  - intros x i Hi; apply (list_index_ok _ _ _ Hi).
  - intros p Hp Hn; rewrite edit_phone_eq, Hp, (list_index_absent _ _ Hn).
    reflexivity.
  - rewrite edit_phone_eq.
    destruct (Phone.init phone) as [po|e] eqn:Hpo; simpl.
    + destruct (list_index _ po) as [i|e] eqn:Hi; simpl.
      * destruct (list_index_ok _ _ _ Hi) as [[H0 H1] _].
        destruct (i <? 0) eqn:Hneg; [apply Z.ltb_lt in Hneg; lia|].
        destruct (Phone.init new_phone) as [p|e] eqn:Hp; simpl.
        -- rewrite list_setitem_ok by lia; simpl; discriminate.
        -- destruct (Phone_init_raise _ _ Hp) as [-> _]; discriminate.
      * destruct (list_index_raise _ _ _ Hi) as [-> _]; discriminate.
    + destruct (Phone_init_raise _ _ Hpo) as [-> _]; discriminate.
Qed.

Lemma edit_phone_never_NoPhoneError_witness :
  Record.edit_phone (lit "2222222222") (lit "3333333333") record_1111111111
  = (Raise ValueError, record_1111111111).
Proof.
  apply (proj1 (proj2 (proj2
           (edit_phone_never_NoPhoneError (lit "2222222222")
              (lit "3333333333") record_1111111111)))
           (Phone.mk (lit "2222222222"))).
  - reflexivity.
  - simpl; intros [H | []]; discriminate H.
Defined.

(** C1 as stated fails: with a well-formed old number that the record does
    not hold and a malformed new one, the call does not end in
    [InvalidPhoneNumberFormatError]. *)
Lemma edit_phone_absent_old_malformed_new :
  Phone.init (lit "abc") = Raise InvalidPhoneNumberFormatError
  /\ fst (Record.edit_phone (lit "2222222222") (lit "abc") record_1111111111)
     <> Raise InvalidPhoneNumberFormatError.
Proof. split; [reflexivity | discriminate]. Qed.

(** C1, as amended.  The new number is validated after the old one has been
    looked up: with a malformed new number, [edit_phone] raises
    [InvalidPhoneNumberFormatError] exactly when the old number is itself
    malformed or a phone equal to it is on the record. *)
Theorem edit_phone_malformed_new
  (phone new_phone : str) (self : Record.t) :
  Phone.init new_phone = Raise InvalidPhoneNumberFormatError ->
  (fst (Record.edit_phone phone new_phone self)
   = Raise InvalidPhoneNumberFormatError
   <-> (Phone.init phone = Raise InvalidPhoneNumberFormatError
        \/ (ten_digits phone /\ In (Phone.mk phone) (Record.phones self)))).
Proof.
  intros Hnew; rewrite edit_phone_eq.
  destruct (Phone.init phone) as [po|e] eqn:Hpo; simpl.
  - destruct (Phone_init_inv _ _ Hpo) as [-> Hv].
    destruct (list_index _ (Phone.mk phone)) as [i|e] eqn:Hi; simpl.
    + destruct (list_index_ok _ _ _ Hi) as [[H0 H1] [b [a [Hl _]]]].
      destruct (i <? 0) eqn:Hneg; [apply Z.ltb_lt in Hneg; lia|].
      rewrite Hnew; simpl. split; [intros _; right; split; [exact Hv|] | reflexivity].
      rewrite Hl; apply in_or_app; right; left; reflexivity.
    + destruct (list_index_raise _ _ _ Hi) as [-> Hn].
      split; [discriminate|]. intros [H | [_ H]]; [discriminate | contradiction].
  - destruct (Phone_init_raise _ _ Hpo) as [-> _].
    split; [intros _; left|]; reflexivity.
Qed.

Lemma edit_phone_malformed_new_witness :
  fst (Record.edit_phone (lit "1111111111") (lit "abc") record_1111111111)
  = Raise InvalidPhoneNumberFormatError.
Proof.
  apply (proj2 (edit_phone_malformed_new (lit "1111111111") (lit "abc")
                  record_1111111111 eq_refl)).
  right; split; [|left; reflexivity].
  split; [reflexivity|].
  intros c Hin; simpl in Hin.
  repeat (destruct Hin as [<-|Hin]; [reflexivity|]); contradiction.
Defined.

(** ** AddressBook: [find] *)

Lemma dict_contains_In (d : dict) (k : str) :
  dict_contains d k = true <-> In k (map fst d).
Proof.
  unfold dict_contains; rewrite existsb_exists, in_map_iff; split.
  - intros [kv [Hin Heq]]; apply str_eqb_eq in Heq; exists kv; auto.
  - intros [kv [Heq Hin]]; exists kv; split; [exact Hin|].
    apply str_eqb_eq; exact Heq.
Qed.

Lemma dict_get_Some (d : dict) (k : str) (v : Record.t) :
  dict_get d k = Some v -> In (k, v) d.
Proof.
  unfold dict_get.
  destruct (find _ d) as [[k' v']|] eqn:Hf; simpl; [|discriminate].
  intros H; inversion H; subst v'.
  destruct (find_some _ _ Hf) as [Hin Heq]; simpl in Heq.
  apply str_eqb_eq in Heq; subst k'; exact Hin.
Qed.

Lemma dict_get_contains (d : dict) (k : str) :
  dict_contains d k = true -> exists v, dict_get d k = Some v.
Proof.
  unfold dict_contains, dict_get; induction d as [|[k' v'] d IH]; simpl;
    [discriminate|].
  destruct (str_eqb k' k); simpl; [intros _; eauto | exact IH].
Qed.

(** With each key stored once, [get] finds the entry of the key. *)
Lemma dict_get_In (d : dict) (k : str) (v : Record.t) :
  NoDup (map fst d) -> In (k, v) d -> dict_get d k = Some v.
Proof.
  unfold dict_get; induction d as [|[k' v'] d IH]; simpl; [tauto|].
  intros Hnd [Heq | Hin]; inversion Hnd as [|? ? Hn Hnd']; subst.
  - inversion Heq; subst. rewrite str_eqb_refl; reflexivity.
  - destruct (str_eqb k' k) eqn:Hk.
    + apply str_eqb_eq in Hk; subst k'. exfalso; apply Hn.
      apply in_map_iff; exists (k, v); auto.
    + apply IH; assumption.
Qed.

Lemma dict_get_set (d : dict) (k : str) (v : Record.t) :
  dict_get (dict_set d k v) k = Some v.
Proof.
  unfold dict_get; induction d as [|[k' v'] d IH]; simpl.
  - rewrite str_eqb_refl; reflexivity.
  - destruct (str_eqb k' k) eqn:Hk; simpl; rewrite Hk; [reflexivity | exact IH].
Qed.

Lemma dict_contains_set (d : dict) (k : str) (v : Record.t) :
  dict_contains (dict_set d k v) k = true.
Proof.
  unfold dict_contains; induction d as [|[k' v'] d IH]; simpl.
  - rewrite str_eqb_refl; reflexivity.
  - destruct (str_eqb k' k) eqn:Hk; simpl; rewrite Hk; [reflexivity | exact IH].
Qed.

Lemma dict_set_NoDup (d : dict) (k : str) (v : Record.t) :
  NoDup (map fst d) -> NoDup (map fst (dict_set d k v)).
Proof.
  induction d as [|[k' v'] d IH]; simpl; intros Hnd.
  - constructor; [tauto | constructor].
  - inversion Hnd as [|? ? Hn Hnd']; subst.
    destruct (str_eqb k' k) eqn:Hk; simpl; constructor; auto.
    intros Hin; apply Hn.
    clear -Hin Hk. induction d as [|[k2 v2] d IH]; simpl in *.
    + destruct Hin as [<- | []]; rewrite str_eqb_refl in Hk; discriminate.
    + destruct (str_eqb k2 k); simpl in Hin; destruct Hin as [H | H]; auto.
Qed.

(** C7.  [find] raises [NoRecordError] exactly when no entry has the key, and
    otherwise returns the record stored under the key; on the empty book it
    raises for every name. *)
Theorem find_spec (self : AddressBook.t) (name : str) :
  (AddressBook.find name self = Raise NoRecordError
   <-> ~ In name (map fst (AddressBook.data self)))
  /\ (forall e, AddressBook.find name self = Raise e -> e = NoRecordError)
  /\ (In name (map fst (AddressBook.data self)) ->
      exists record, AddressBook.find name self = Ok (Some record)
                     /\ In (name, record) (AddressBook.data self))
  /\ (forall record,
        NoDup (map fst (AddressBook.data self)) ->
        In (name, record) (AddressBook.data self) ->
        AddressBook.find name self = Ok (Some record))
  /\ (forall record,
        AddressBook.find (Name.value (Record.name record))
          (AddressBook.add_record record self) = Ok (Some record))
  /\ AddressBook.find name AddressBook.empty = Raise NoRecordError.
Proof.
  unfold AddressBook.find.
  split; [|split; [|split; [|split; [|split]]]].
  - rewrite <- dict_contains_In.
    destruct (dict_contains _ name); simpl; split; congruence.
  - intros e. destruct (dict_contains _ name); simpl; congruence.
  - intros Hin. apply dict_contains_In in Hin. rewrite Hin; simpl.
    destruct (dict_get_contains _ _ Hin) as [v Hv]. exists v.
    rewrite Hv; split; [reflexivity | apply dict_get_Some; exact Hv].
  - intros record Hnd Hin.
    assert (Hc : dict_contains (AddressBook.data self) name = true).
    { apply dict_contains_In, in_map_iff; exists (name, record); auto. }
    rewrite Hc; simpl. rewrite (dict_get_In _ _ _ Hnd Hin); reflexivity.
  - intros record; simpl. rewrite dict_contains_set, dict_get_set; reflexivity.
  - reflexivity.
Qed.

Definition book_of_one : AddressBook.t :=
  AddressBook.add_record record_with_birthday AddressBook.empty.

Lemma find_spec_witness :
  AddressBook.find (lit "Ann") book_of_one = Ok (Some record_with_birthday)
  /\ AddressBook.find (lit "Bob") book_of_one = Raise NoRecordError.
Proof.
  split.
  - apply (proj1 (proj2 (proj2 (proj2 (find_spec book_of_one (lit "Ann")))))).
    + simpl; constructor; [tauto | constructor].
    + left; reflexivity.
  - apply (proj1 (find_spec book_of_one (lit "Bob"))).
    simpl; intros [H | []]; discriminate H.
Defined.

(** ** Dates *)

(** A date that [date(year, month, day)] accepts. *)
Definition valid_date (d : date.t) : Prop :=
  1 <= date.year d <= 9999
  /\ 1 <= date.month d <= 12
  /\ 1 <= date.day d <= date._days_in_month (date.year d) (date.month d).

Lemma date_new_ok (y m d : Z) :
  valid_date (date.mk y m d) -> date.new y m d = Ok (date.mk y m d).
Proof.
  unfold valid_date, date.new, date.MINYEAR, date.MAXYEAR; simpl.
  intros [[? ?] [[? ?] [? ?]]].
  repeat match goal with
         | |- context [?a <=? ?b] =>
             rewrite (proj2 (Z.leb_le a b)) by assumption
         end.
  reflexivity.
Qed.

Lemma date_new_inv (y m d : Z) (x : date.t) :
  date.new y m d = Ok x -> x = date.mk y m d /\ valid_date x.
Proof.
  unfold valid_date, date.new, date.MINYEAR, date.MAXYEAR.
  destruct (1 <=? y) eqn:H1; [|discriminate].
  destruct (y <=? 9999) eqn:H2; [|discriminate].
  destruct (1 <=? m) eqn:H3; [|discriminate].
  destruct (m <=? 12) eqn:H4; [|discriminate].
  destruct (1 <=? d) eqn:H5; [|discriminate].
  destruct (d <=? date._days_in_month y m) eqn:H6; [|discriminate].
  simpl; intros H; inversion H; subst x; simpl.
  apply Z.leb_le in H1, H2, H3, H4, H5, H6. auto.
Qed.

Lemma date_new_raise (y m d : Z) (e : exn) :
  date.new y m d = Raise e -> e = ValueError /\ ~ valid_date (date.mk y m d).
Proof.
  intros H; split.
  - unfold date.new in H.
    repeat match type of H with
           | (if ?c then _ else _) = _ => destruct c
           end; inversion H; reflexivity.
  - intros Hv; rewrite (date_new_ok _ _ _ Hv) in H; discriminate.
Qed.

Lemma days_before_year_decomp (a b c e : Z) :
  0 <= a -> 0 <= b <= 3 -> 0 <= c <= 24 -> 0 <= e <= 3 ->
  date._days_before_year (400 * a + 100 * b + 4 * c + e + 1)
  = 146097 * a + 36524 * b + 1461 * c + 365 * e.
Proof.
  intros Ha Hb Hc He; unfold date._days_before_year.
  replace (400 * a + 100 * b + 4 * c + e + 1 - 1)
    with (400 * a + 100 * b + 4 * c + e) by lia.
  assert (H4 : (400 * a + 100 * b + 4 * c + e) / 4 = 100 * a + 25 * b + c).
  { symmetry; apply Z.div_unique with (r := e); lia. }
  assert (H100 : (400 * a + 100 * b + 4 * c + e) / 100 = 4 * a + b).
  { symmetry; apply Z.div_unique with (r := 4 * c + e); lia. }
  assert (H400 : (400 * a + 100 * b + 4 * c + e) / 400 = a).
  { symmetry; apply Z.div_unique with (r := 100 * b + 4 * c + e); lia. }
  rewrite H4, H100, H400; lia.
Qed.

Lemma is_leap_decomp (a b c e : Z) :
  0 <= a -> 0 <= b <= 3 -> 0 <= c <= 24 -> 0 <= e <= 3 ->
  date._is_leap (400 * a + 100 * b + 4 * c + e + 1)
  = (e =? 3) && (negb (c =? 24) || (b =? 3)).
Proof.
  intros Ha Hb Hc He; unfold date._is_leap.
  repeat match goal with
         | |- context [?x =? ?y] => destruct (Z.eqb_spec x y)
         end; simpl; try reflexivity; exfalso;
    Z.div_mod_to_equations; lia.
Qed.

(** The month and day that [_ord2ymd] computes from the offset [n] in the
    year. *)
Definition month_day (leapyear : bool) (n : Z) : Z * Z :=
  let month := Z.shiftr (n + 50) 5 in
  let preceding :=
    item date._DAYS_BEFORE_MONTH month
    + (if (month >? 2) && leapyear then 1 else 0) in
  if preceding >? n then
    let month := month - 1 in
    let preceding :=
      preceding - (item date._DAYS_IN_MONTH month
                   + (if (month =? 2) && leapyear then 1 else 0)) in
    (month, n - preceding + 1)
  else (month, n - preceding + 1).

Definition month_day_ok (leapyear : bool) (n : Z) : bool :=
  let '(m, d) := month_day leapyear n in
  (1 <=? m) && (m <=? 12) && (1 <=? d)
  && (d <=? (if (m =? 2) && leapyear then 29 else item date._DAYS_IN_MONTH m))
  && (item date._DAYS_BEFORE_MONTH m
      + (if (m >? 2) && leapyear then 1 else 0) + d =? n + 1).

Lemma month_day_table :
  forallb (fun k => month_day_ok false (Z.of_nat k)) (seq 0 365)
  && forallb (fun k => month_day_ok true (Z.of_nat k)) (seq 0 366) = true.
Proof. vm_compute; reflexivity. Qed.

Lemma month_day_correct (leapyear : bool) (n : Z) :
  0 <= n < 365 + (if leapyear then 1 else 0) ->
  month_day_ok leapyear n = true.
Proof.
  intros Hn. pose proof month_day_table as H.
  apply andb_true_iff in H; destruct H as [Hf Ht].
  rewrite forallb_forall in Hf, Ht.
  rewrite <- (Z2Nat.id n) by lia.
  destruct leapyear; [apply Ht | apply Hf]; apply in_seq; lia.
Qed.

Lemma ord2ymd_correct (o : Z) :
  1 <= o <= date._MAXORDINAL ->
  exists y m d,
    date._ord2ymd o = (y, m, d)
    /\ valid_date (date.mk y m d)
    /\ date._ymd2ord y m d = o.
Proof.
  unfold date._MAXORDINAL; intros Ho.
  unfold date._ord2ymd; cbv zeta.
  change date._DI400Y with 146097.
  change date._DI100Y with 36524.
  change date._DI4Y with 1461.
  set (n0 := o - 1).
  set (a := n0 / 146097). set (r1 := n0 mod 146097).
  set (b := r1 / 36524). set (r2 := r1 mod 36524).
  set (c := r2 / 1461). set (r3 := r2 mod 1461).
  set (e := r3 / 365). set (n := r3 mod 365).
  assert (E1 : n0 = 146097 * a + r1 /\ 0 <= r1 < 146097).
  { split; [apply Z.div_mod | apply Z.mod_pos_bound]; lia. }
  assert (E2 : r1 = 36524 * b + r2 /\ 0 <= r2 < 36524).
  { split; [apply Z.div_mod | apply Z.mod_pos_bound]; lia. }
  assert (E3 : r2 = 1461 * c + r3 /\ 0 <= r3 < 1461).
  { split; [apply Z.div_mod | apply Z.mod_pos_bound]; lia. }
  assert (E4 : r3 = 365 * e + n /\ 0 <= n < 365).
  { split; [apply Z.div_mod | apply Z.mod_pos_bound]; lia. }
  assert (Hn0 : n0 = o - 1) by reflexivity.
  clearbody n0 a r1 b r2 c r3 e n.
  destruct E1 as [E1 B1], E2 as [E2 B2], E3 as [E3 B3], E4 as [E4 B4].
  assert (Ha : 0 <= a <= 24) by lia.
  assert (Hb : 0 <= b <= 4) by lia.
  assert (Hc : 0 <= c <= 24) by lia.
  assert (He : 0 <= e <= 4) by lia.
  destruct (Z.eqb_spec e 4) as [He4 | He4];
    [|destruct (Z.eqb_spec b 4) as [Hb4 | Hb4]]; simpl orb; cbv iota.
  - (* the last day of a leap year closing a 4-year cycle *)
    assert (Hc' : c <= 23) by lia.
    assert (Hb' : b <= 3) by lia.
    exists (400 * a + 100 * b + 4 * c + 3 + 1), 12, 31.
    split; [f_equal; f_equal; lia|].
    pose proof (is_leap_decomp a b c 3) as HL.
    pose proof (days_before_year_decomp a b c 3) as HD.
    assert (Hc24 : (c =? 24) = false) by (apply Z.eqb_neq; lia).
    rewrite Hc24 in HL; change (3 =? 3) with true in HL;
      cbn [negb orb andb] in HL.
    split.
    + unfold valid_date, date._days_in_month.
      cbn [date.year date.month date.day].
      change (12 =? 2) with false; cbn [andb].
      change (item date._DAYS_IN_MONTH 12) with 31. lia.
    + unfold date._ymd2ord, date._days_before_month.
      rewrite HL, HD by lia.
      change (item date._DAYS_BEFORE_MONTH 12) with 334.
      change (12 >? 2) with true; cbn [andb]. lia.
  - (* the last day of a 400-year cycle *)
    exists (400 * a + 100 * 3 + 4 * 24 + 3 + 1), 12, 31.
    split; [f_equal; f_equal; lia|].
    pose proof (is_leap_decomp a 3 24 3) as HL.
    pose proof (days_before_year_decomp a 3 24 3) as HD.
    change (3 =? 3) with true in HL; change (24 =? 24) with true in HL;
      cbn [negb orb andb] in HL.
    split.
    + unfold valid_date, date._days_in_month.
      cbn [date.year date.month date.day].
      change (12 =? 2) with false; cbn [andb].
      change (item date._DAYS_IN_MONTH 12) with 31. lia.
    + unfold date._ymd2ord, date._days_before_month.
      rewrite HL, HD by lia.
      change (item date._DAYS_BEFORE_MONTH 12) with 334.
      change (12 >? 2) with true; cbn [andb]. lia.
  - set (L := (e =? 3) && (negb (c =? 24) || (b =? 3))).
    set (Y := a * 400 + 1 + (b * 100 + c * 4 + e)).
    assert (HY : Y = 400 * a + 100 * b + 4 * c + e + 1) by (unfold Y; lia).
    pose proof (is_leap_decomp a b c e) as HL.
    pose proof (days_before_year_decomp a b c e) as HD.
    rewrite <- HY in HL, HD. fold L in HL.
    assert (HLe : date._is_leap Y = L) by (apply HL; lia).
    assert (HDe : date._days_before_year Y
                  = 146097 * a + 36524 * b + 1461 * c + 365 * e)
      by (apply HD; lia).
    clear HL HD.
    assert (Hmd : month_day_ok L n = true).
    { apply month_day_correct. destruct L; lia. }
    unfold month_day_ok in Hmd.
    exists Y, (fst (month_day L n)), (snd (month_day L n)).
    split.
    { unfold month_day.
      destruct (_ >? n); reflexivity. }
    destruct (month_day L n) as [m d]; simpl fst; simpl snd.
    repeat (apply andb_true_iff in Hmd; destruct Hmd as [Hmd ?]).
    repeat match goal with
           | H : (_ <=? _) = true |- _ => apply Z.leb_le in H
           | H : (_ =? _) = true |- _ => apply Z.eqb_eq in H
           end.
    split.
    + unfold valid_date, date._days_in_month.
      cbn [date.year date.month date.day]. rewrite HLe. lia.
    + unfold date._ymd2ord, date._days_before_month. rewrite HLe, HDe. lia.
Qed.

Lemma fromordinal_ok (o : Z) :
  1 <= o <= date._MAXORDINAL ->
  exists d, date.fromordinal o = Ok d /\ valid_date d /\ date.toordinal d = o.
Proof.
  intros Ho. destruct (ord2ymd_correct o Ho) as [y [m [d [He [Hv Hord]]]]].
  exists (date.mk y m d). unfold date.fromordinal. rewrite He.
  rewrite (date_new_ok _ _ _ Hv). auto.
Qed.

(** Adding days moves the ordinal by as many days, or overflows. *)
Lemma date_add_spec (self : date.t) (days : Z) :
  (0 < date.toordinal self + days <= date._MAXORDINAL ->
   exists d, date.add self days = Ok d /\ valid_date d
             /\ date.toordinal d = date.toordinal self + days)
  /\ (~ 0 < date.toordinal self + days <= date._MAXORDINAL ->
      date.add self days = Raise OverflowError).
Proof.
  unfold date.add; split; intros H.
  - destruct (0 <? _) eqn:H0; [|apply Z.ltb_ge in H0; lia].
    destruct (_ <=? date._MAXORDINAL) eqn:H1; [|apply Z.leb_gt in H1; lia].
    simpl. apply fromordinal_ok. lia.
  - destruct (0 <? _) eqn:H0; [|reflexivity].
    destruct (_ <=? date._MAXORDINAL) eqn:H1; [|reflexivity].
    apply Z.ltb_lt in H0. apply Z.leb_le in H1. lia.
Qed.

(** ** Upcoming birthdays *)

Lemma isoweekday_range (d : date.t) : 1 <= date.isoweekday d <= 7.
Proof.
  unfold date.isoweekday.
  pose proof (Z.mod_pos_bound (date.toordinal d) 7 ltac:(lia)) as H.
  destruct (Z.eqb_spec (date.toordinal d mod 7) 0); lia.
Qed.

(** A Saturday moves by two days and a Sunday by one, both to a Monday; the
    other days stay. *)
Lemma weekend_shift_spec (c c' : date.t) :
  AddressBook.weekend_shift c = Ok c' ->
  (date.isoweekday c = 6 ->
   date.toordinal c' = date.toordinal c + 2 /\ date.isoweekday c' = 1)
  /\ (date.isoweekday c = 7 ->
      date.toordinal c' = date.toordinal c + 1 /\ date.isoweekday c' = 1)
  /\ (date.isoweekday c < 6 -> c' = c).
Proof.
  unfold AddressBook.weekend_shift, ISO_SATURDAY, ISO_SUNDAY.
  pose proof (isoweekday_range c) as Hr.
  destruct (Z.geb_spec (date.isoweekday c) 6) as [Hw | Hw].
  - intros Hadd.
    assert (Hord : date.toordinal c'
                   = date.toordinal c
                     + (if date.isoweekday c =? 7 then 1 else 2)).
    { destruct (date_add_spec c (if date.isoweekday c =? 7 then 1 else 2))
        as [Hok Hov].
      destruct (Z_lt_dec 0 (date.toordinal c
                            + (if date.isoweekday c =? 7 then 1 else 2)))
        as [H0 | H0];
        [destruct (Z_le_dec (date.toordinal c
                             + (if date.isoweekday c =? 7 then 1 else 2))
                            date._MAXORDINAL) as [H1 | H1]|].
      - destruct (Hok (conj H0 H1)) as [d [Hd [_ Hd']]].
        rewrite Hd in Hadd; inversion Hadd; subst; exact Hd'.
      - rewrite Hov in Hadd by lia; discriminate.
      - rewrite Hov in Hadd by lia; discriminate. }
    assert (Hmon : date.isoweekday c' = 1).
    { unfold date.isoweekday; rewrite Hord.
      unfold date.isoweekday in *; cbv zeta in *.
      set (t := date.toordinal c) in *; clearbody t.
      destruct (Z.eqb_spec (t mod 7) 0) as [E | E].
      - change (7 =? 7) with true; cbv iota.
        destruct (Z.eqb_spec ((t + 1) mod 7) 0);
          Z.div_mod_to_equations; lia.
      - destruct (Z.eqb_spec (t mod 7) 7) as [E7 | E7];
          [Z.div_mod_to_equations; lia|].
        destruct (Z.eqb_spec ((t + 2) mod 7) 0);
          Z.div_mod_to_equations; lia. }
    split; [|split].
    + intros H6; rewrite H6 in Hord; change (6 =? 7) with false in Hord.
      split; [exact Hord | exact Hmon].
    + intros H7; rewrite H7 in Hord; change (7 =? 7) with true in Hord.
      split; [exact Hord | exact Hmon].
    + lia.
  - intros H; inversion H; subst c'.
    split; [|split]; try lia. reflexivity.
Qed.

(** What one round of the loop adds to the result. *)
Definition entry_of (pads_year : bool) (current_date : date.t)
  (record : Record.t) : result (option upcoming) :=
  match Record.birthday record with
  | None => Ok None
  | Some birthday =>
      (congrats_date <-
         AddressBook.congrats_date_of current_date (Birthday.value birthday) ;;
       congrats_date <- AddressBook.weekend_shift congrats_date ;;
       Ok (if AddressBook.in_upcoming_range current_date congrats_date
           then Some (mk_upcoming record
                        (date.strftime pads_year congrats_date DATE_PATTERN))
           else None))%exn
  end.

Fixpoint entries_of (pads_year : bool) (current_date : date.t)
  (records : list Record.t) : result (list upcoming) :=
  match records with
  | [] => Ok []
  | record :: records' =>
      (o <- entry_of pads_year current_date record ;;
       es <- entries_of pads_year current_date records' ;;
       Ok (match o with Some e => e :: es | None => es end))%exn
  end.

Lemma upcoming_loop_entries (pads_year : bool) (current_date : date.t)
  (records : list Record.t) (acc : list upcoming) :
  AddressBook.upcoming_loop pads_year current_date records acc
  = (es <- entries_of pads_year current_date records ;; Ok (acc ++ es))%exn.
Proof.
  revert acc; induction records as [|record records IH]; intros acc; simpl.
  - rewrite app_nil_r; reflexivity.
  - unfold entry_of.
    destruct (Record.birthday record) as [b|]; simpl.
    + destruct (AddressBook.congrats_date_of _ _) as [c|]; simpl;
        [|reflexivity].
      destruct (AddressBook.weekend_shift c) as [c'|]; simpl; [|reflexivity].
      destruct (AddressBook.in_upcoming_range _ c'); simpl; rewrite IH;
        destruct (entries_of _ _ records); simpl; try reflexivity.
      rewrite <- app_assoc; reflexivity.
    + rewrite IH. destruct (entries_of _ _ records); reflexivity.
Qed.

Lemma entries_of_sound (pads_year : bool) (current_date : date.t)
  (records : list Record.t) (es : list upcoming) :
  entries_of pads_year current_date records = Ok es ->
  (forall record, In record records ->
     exists o, entry_of pads_year current_date record = Ok o
               /\ (forall e, o = Some e -> In e es))
  /\ (forall e, In e es ->
        exists record, In record records
                       /\ entry_of pads_year current_date record = Ok (Some e)).
Proof.
  revert es; induction records as [|r records IH]; intros es; simpl.
  - intros H; inversion H; subst; split; intros ? [].
  - destruct (entry_of _ _ r) as [o|] eqn:Ho; simpl; [|discriminate].
    destruct (entries_of _ _ records) as [es'|]; simpl; [|discriminate].
    intros H; inversion H; subst es; clear H.
    destruct (IH es' eq_refl) as [IH1 IH2]; split.
    + intros record [<- | Hin].
      * exists o; split; [exact Ho|]. intros e ->; left; reflexivity.
      * destruct (IH1 record Hin) as [o' [Ho' Hin']].
        exists o'; split; [exact Ho'|]. intros e He.
        destruct o; [right|]; apply Hin'; exact He.
    + intros e Hin.
      assert (Hcase : o = Some e \/ In e es').
      { destruct o; [destruct Hin as [<- | Hin]|]; auto. }
      destruct Hcase as [-> | Hin'].
      * exists r; split; [left; reflexivity | exact Ho].
      * destruct (IH2 e Hin') as [record [Hr He]].
        exists record; split; [right; exact Hr | exact He].
Qed.

Lemma get_upcoming_birthdays_entries (pads_year : bool)
  (current_date : date.t) (self : AddressBook.t) (res : list upcoming) :
  AddressBook.get_upcoming_birthdays pads_year current_date self = Ok res ->
  entries_of pads_year current_date (AddressBook.all_records self) = Ok res.
Proof.
  unfold AddressBook.get_upcoming_birthdays.
  rewrite upcoming_loop_entries.
  destruct (entries_of _ _ _); simpl; [|discriminate].
  intros H; exact H.
Qed.

Lemma entry_of_user (pads_year : bool) (current_date : date.t)
  (record : Record.t) (e : upcoming) :
  entry_of pads_year current_date record = Ok (Some e) -> user e = record.
Proof.
  unfold entry_of.
  destruct (Record.birthday record); [|discriminate].
  destruct (AddressBook.congrats_date_of _ _); simpl; [|discriminate].
  destruct (AddressBook.weekend_shift _); simpl; [|discriminate].
  destruct (AddressBook.in_upcoming_range _ _); [|discriminate].
  intros H; inversion H; reflexivity.
Qed.

(** ** When the upcoming-birthday query returns *)

Lemma days_before_month_bounds (y m : Z) :
  1 <= m <= 12 ->
  0 <= date._days_before_month y m
  /\ date._days_before_month y m + date._days_in_month y m
     <= 365 + (if date._is_leap y then 1 else 0).
Proof.
  intros Hm. unfold date._days_before_month, date._days_in_month.
  assert (Hc : m = 1 \/ m = 2 \/ m = 3 \/ m = 4 \/ m = 5 \/ m = 6 \/ m = 7
               \/ m = 8 \/ m = 9 \/ m = 10 \/ m = 11 \/ m = 12) by lia.
  destruct (date._is_leap y);
    repeat (destruct Hc as [-> | Hc]; [vm_compute; split; discriminate|]);
    subst m; vm_compute; split; discriminate.
Qed.

Lemma toordinal_bounds (d : date.t) :
  valid_date d -> 1 <= date.toordinal d <= date._MAXORDINAL.
Proof.
  intros [Hy [Hm Hd]].
  destruct (days_before_month_bounds (date.year d) (date.month d) Hm)
    as [H0 H1].
  unfold date.toordinal, date._ymd2ord, date._MAXORDINAL.
  set (y := date.year d) in *.
  set (dbm := date._days_before_month y (date.month d)) in *.
  set (dim := date._days_in_month y (date.month d)) in *.
  clearbody dbm dim.
  assert (Hleap : date._is_leap y = true -> y <= 9996).
  { unfold date._is_leap. intros HL. apply andb_true_iff in HL.
    destruct HL as [HL _]. apply Z.eqb_eq in HL.
    Z.div_mod_to_equations; lia. }
  unfold date._days_before_year.
  destruct (date._is_leap y).
  - specialize (Hleap eq_refl). Z.div_mod_to_equations; lia.
  - Z.div_mod_to_equations; lia.
Qed.

Lemma date_new_other_year (y y' m d : Z) :
  valid_date (date.mk y m d) -> ~ (m = 2 /\ d = 29) -> 1 <= y' <= 9999 ->
  date.new y' m d = Ok (date.mk y' m d).
Proof.
  intros [Hy [Hm Hd]] Hfeb Hy'; simpl in *.
  apply date_new_ok; unfold valid_date; simpl.
  split; [exact Hy'|]. split; [exact Hm|].
  revert Hd; unfold date._days_in_month.
  destruct (Z.eqb_spec m 2) as [-> | Hm2]; cbn [andb].
  - change (item date._DAYS_IN_MONTH 2) with 28.
    destruct (date._is_leap y), (date._is_leap y'); lia.
  - tauto.
Qed.

Lemma congrats_date_of_ok (today bd : date.t) :
  valid_date today -> date.year today < 9999 ->
  valid_date bd -> ~ (date.month bd = 2 /\ date.day bd = 29) ->
  exists c, AddressBook.congrats_date_of today bd = Ok c /\ valid_date c.
Proof.
  intros Ht Hy Hb Hfeb. destruct bd as [yb m d]; simpl in Hfeb.
  unfold AddressBook.congrats_date_of; cbn [date.month date.day].
  destruct Ht as [Hty _].
  rewrite (date_new_other_year yb (date.year today) m d Hb Hfeb) by lia.
  cbn [bind].
  assert (Hv : forall y', 1 <= y' <= 9999 -> valid_date (date.mk y' m d)).
  { intros y' Hy'.
    apply (date_new_inv y' m d), (date_new_other_year yb); assumption. }
  destruct (date.lt _ today).
  - rewrite (date_new_other_year yb (date.year today + 1) m d Hb Hfeb) by lia.
    eexists; split; [reflexivity | apply Hv; lia].
  - eexists; split; [reflexivity | apply Hv; lia].
Qed.

Lemma weekend_shift_ok (c : date.t) :
  valid_date c ->
  exists c', AddressBook.weekend_shift c = Ok c' /\ valid_date c'.
Proof.
  intros Hv. pose proof (toordinal_bounds c Hv) as Hb.
  unfold date._MAXORDINAL in Hb.
  unfold AddressBook.weekend_shift, ISO_SATURDAY, ISO_SUNDAY.
  destruct (Z.geb_spec (date.isoweekday c) 6) as [Hw | Hw];
    [|exists c; auto].
  assert (Hr : 0 < date.toordinal c
                   + (if date.isoweekday c =? 7 then 1 else 2)
               <= date._MAXORDINAL).
  { unfold date._MAXORDINAL. revert Hw. unfold date.isoweekday.
    destruct (Z.eqb_spec (date.toordinal c mod 7) 0) as [E | E].
    - change (7 =? 7) with true; cbv iota. intros _.
      Z.div_mod_to_equations; lia.
    - intros Hw.
      destruct (Z.eqb_spec (date.toordinal c mod 7) 7);
        Z.div_mod_to_equations; lia. }
  destruct (proj1 (date_add_spec c _) Hr) as [c' [Hc' [Hv' _]]].
  exists c'; auto.
Qed.

(** The query returns on every book whose birthdays are real dates other
    than 29 February, for every today before the year 9999. *)
Lemma get_upcoming_birthdays_returns (pads_year : bool) (today : date.t)
  (self : AddressBook.t) :
  valid_date today -> date.year today < 9999 ->
  (forall record birthday,
     In record (AddressBook.all_records self) ->
     Record.birthday record = Some birthday ->
     valid_date (Birthday.value birthday)
     /\ ~ (date.month (Birthday.value birthday) = 2
           /\ date.day (Birthday.value birthday) = 29)) ->
  exists res,
    AddressBook.get_upcoming_birthdays pads_year today self = Ok res.
Proof.
  intros Ht Hy. unfold AddressBook.get_upcoming_birthdays.
  generalize (@nil upcoming) as acc.
  induction (AddressBook.all_records self) as [|record records IH];
    intros acc Hall; simpl; [eauto|].
  assert (Hrest : forall r b, In r records -> Record.birthday r = Some b ->
                    valid_date (Birthday.value b)
                    /\ ~ (date.month (Birthday.value b) = 2
                          /\ date.day (Birthday.value b) = 29)).
  { intros r b Hin; apply Hall; right; exact Hin. }
  destruct (Record.birthday record) as [b|] eqn:Hb; [|apply IH; exact Hrest].
  destruct (Hall record b (or_introl eq_refl) Hb) as [Hv Hfeb].
  destruct (congrats_date_of_ok today _ Ht Hy Hv Hfeb) as [c [Hc Hvc]].
  rewrite Hc; cbn [bind].
  destruct (weekend_shift_ok c Hvc) as [c' [Hc' _]].
  rewrite Hc'; cbn [bind].
  destruct (AddressBook.in_upcoming_range today c'); apply IH; exact Hrest.
Qed.

(** C3.  When [get_upcoming_birthdays] returns, then for every record with a
    birthday: the congratulation date is first moved off the weekend (a
    Saturday by two days, a Sunday by one, any other day not at all), and
    the record is in the result exactly when the moved date is at most 7
    days after today; its entry carries the moved date. *)
Theorem upcoming_shift_then_window (pads_year : bool) (today : date.t)
  (self : AddressBook.t) (res : list upcoming) :
  AddressBook.get_upcoming_birthdays pads_year today self = Ok res ->
  forall record birthday,
    In record (AddressBook.all_records self) ->
    Record.birthday record = Some birthday ->
    exists c c',
      AddressBook.congrats_date_of today (Birthday.value birthday) = Ok c
      /\ AddressBook.weekend_shift c = Ok c'
      /\ (date.isoweekday c = 6 -> date.toordinal c' = date.toordinal c + 2)
      /\ (date.isoweekday c = 7 -> date.toordinal c' = date.toordinal c + 1)
      /\ (date.isoweekday c < 6 -> c' = c)
      /\ ((exists entry, In entry res /\ user entry = record)
          <-> date.toordinal c' - date.toordinal today <= 7)
      /\ (forall entry,
            In entry res -> user entry = record ->
            congratulation_date entry
            = date.strftime pads_year c' DATE_PATTERN).
Proof.
  intros Hres record birthday Hin Hb.
  apply get_upcoming_birthdays_entries in Hres.
  destruct (entries_of_sound _ _ _ _ Hres) as [Hall Hfrom].
  destruct (Hall record Hin) as [o [Ho Hoin]].
  assert (Hentry := Ho). unfold entry_of in Ho. rewrite Hb in Ho.
  destruct (AddressBook.congrats_date_of today (Birthday.value birthday))
    as [c|] eqn:Hc; cbn [bind] in Ho; [|discriminate].
  destruct (AddressBook.weekend_shift c) as [c'|] eqn:Hs; cbn [bind] in Ho;
    [|discriminate].
  exists c, c'.
  destruct (weekend_shift_spec c c' Hs) as [H6 [H7 Hweek]].
  split; [reflexivity|]. split; [exact Hs|].
  split; [intros H; apply (H6 H)|].
  split; [intros H; apply (H7 H)|].
  split; [exact Hweek|].
  assert (Hsame : forall entry,
             In entry res -> user entry = record ->
             AddressBook.in_upcoming_range today c' = true
             /\ entry = mk_upcoming record
                          (date.strftime pads_year c' DATE_PATTERN)).
  { intros entry Hine Hu.
    destruct (Hfrom entry Hine) as [r' [_ Hr']].
    pose proof (entry_of_user _ _ _ _ Hr') as Hu'.
    rewrite Hu in Hu'; subst r'.
    rewrite Hentry in Hr'. inversion Hr'; subst o; clear Hr'.
    destruct (AddressBook.in_upcoming_range today c'); inversion Ho.
    split; reflexivity. }
  split.
  - unfold AddressBook.in_upcoming_range, DAYS_OF_UPCOMING_RANGE in *.
    split.
    + intros [entry [Hine Hu]].
      destruct (Hsame entry Hine Hu) as [Hr _]. apply Z.leb_le; exact Hr.
    + intros Hle. apply Z.leb_le in Hle. rewrite Hle in Ho.
      inversion Ho; subst o.
      eexists; split; [apply Hoin; reflexivity | reflexivity].
  - intros entry Hine Hu.
    destruct (Hsame entry Hine Hu) as [_ ->]; reflexivity.
Qed.

Definition birthday_8_June_1990 : Birthday.t := Birthday.mk (date.mk 1990 6 8).

Lemma upcoming_shift_then_window_witness :
  exists c c',
    AddressBook.congrats_date_of (date.mk 2024 6 3)
      (Birthday.value birthday_8_June_1990) = Ok c
    /\ AddressBook.weekend_shift c = Ok c'
    /\ (date.isoweekday c = 6 -> date.toordinal c' = date.toordinal c + 2)
    /\ (date.isoweekday c = 7 -> date.toordinal c' = date.toordinal c + 1)
    /\ (date.isoweekday c < 6 -> c' = c)
    /\ ((exists entry,
           In entry [mk_upcoming record_with_birthday (lit "2024.06.10")]
           /\ user entry = record_with_birthday)
        <-> date.toordinal c' - date.toordinal (date.mk 2024 6 3) <= 7)
    /\ (forall entry,
          In entry [mk_upcoming record_with_birthday (lit "2024.06.10")] ->
          user entry = record_with_birthday ->
          congratulation_date entry = date.strftime true c' DATE_PATTERN).
Proof.
  apply (upcoming_shift_then_window true (date.mk 2024 6 3) book_of_one
           [mk_upcoming record_with_birthday (lit "2024.06.10")]).
  - reflexivity.
  - left; reflexivity.
  - reflexivity.
Defined.

(** C2 as stated fails: on Monday 10 June 2024 the 8th of June has passed,
    the congratulation date is taken in 2025, and the record is left out. *)
Lemma upcoming_on_10_June_2024 :
  Birthday.init (lit "08.06.1990") = Ok birthday_8_June_1990
  /\ Record.birthday record_with_birthday = Some birthday_8_June_1990
  /\ In record_with_birthday (AddressBook.all_records book_of_one)
  /\ date.isoweekday (date.mk 2024 6 10) = 1
  /\ AddressBook.get_upcoming_birthdays true (date.mk 2024 6 10) book_of_one
     = Ok []
  /\ AddressBook.get_upcoming_birthdays false (date.mk 2024 6 10) book_of_one
     = Ok [].
Proof.
  repeat split; try reflexivity. left; reflexivity.
Qed.

(** C2, as amended.  On 10 June 2024 a record with birthday 08.06.1990 is
    not in the result: 8 June 2024 is before today, so the date is taken in
    2025, where 8 June is a Sunday, moved to Monday 9 June 2025.  On each of
    3 to 8 June 2024 the record is in the result with congratulation date
    2024.06.10, the Monday after Saturday 8 June 2024. *)
Theorem upcoming_birthday_8_June (pads_year : bool) (self : AddressBook.t)
  (record : Record.t) :
  In record (AddressBook.all_records self) ->
  Record.birthday record = Some birthday_8_June_1990 ->
  (forall res,
     AddressBook.get_upcoming_birthdays pads_year (date.mk 2024 6 10) self
     = Ok res ->
     ~ exists entry, In entry res /\ user entry = record)
  /\ (forall day res,
        3 <= day <= 8 ->
        AddressBook.get_upcoming_birthdays pads_year (date.mk 2024 6 day) self
        = Ok res ->
        In (mk_upcoming record (lit "2024.06.10")) res)
  /\ AddressBook.congrats_date_of (date.mk 2024 6 10) (date.mk 1990 6 8)
     = Ok (date.mk 2025 6 8)
  /\ AddressBook.weekend_shift (date.mk 2025 6 8) = Ok (date.mk 2025 6 9)
  /\ AddressBook.weekend_shift (date.mk 2024 6 8) = Ok (date.mk 2024 6 10).
Proof.
  intros Hin Hb.
  split; [|split; [|repeat split]].
  - intros res Hres [entry [Hine Hu]].
    apply get_upcoming_birthdays_entries in Hres.
    destruct (entries_of_sound _ _ _ _ Hres) as [_ Hfrom].
    destruct (Hfrom entry Hine) as [r' [_ Hr']].
    pose proof (entry_of_user _ _ _ _ Hr') as Hu'.
    rewrite Hu in Hu'; subst r'.
    unfold entry_of in Hr'. rewrite Hb in Hr'.
    vm_compute in Hr'. discriminate.
  - intros day res Hday Hres.
    apply get_upcoming_birthdays_entries in Hres.
    destruct (entries_of_sound _ _ _ _ Hres) as [Hall _].
    destruct (Hall record Hin) as [o [Ho Hoin]].
    apply Hoin. unfold entry_of in Ho. rewrite Hb in Ho.
    assert (Hd : day = 3 \/ day = 4 \/ day = 5 \/ day = 6 \/ day = 7
                 \/ day = 8) by lia.
    destruct pads_year;
      repeat (destruct Hd as [-> | Hd]; [vm_compute in Ho; inversion Ho;
                                         reflexivity|]);
      subst day; vm_compute in Ho; inversion Ho; reflexivity.
Qed.

Lemma upcoming_birthday_8_June_witness :
  In (mk_upcoming record_with_birthday (lit "2024.06.10"))
     [mk_upcoming record_with_birthday (lit "2024.06.10")].
Proof.
  apply (proj1 (proj2 (upcoming_birthday_8_June true book_of_one
                         record_with_birthday (or_introl eq_refl) eq_refl))
           8 [mk_upcoming record_with_birthday (lit "2024.06.10")]).
  - lia.
  - reflexivity.
Defined.

(** ** Birthdays: rendering and parsing *)

Definition two_digits (n : Z) : str :=
  [digit_char (n / 10); digit_char (n mod 10)].

Definition four_digits (n : Z) : str :=
  [digit_char (n / 1000); digit_char (n / 100 mod 10);
   digit_char (n / 10 mod 10); digit_char (n mod 10)].

Lemma digit_char_facts (k : Z) :
  0 <= k <= 9 ->
  isspace_char (digit_char k) = false
  /\ isdecimal_char (digit_char k) = true
  /\ decimal_value (digit_char k) = Some k.
Proof.
  intros Hk.
  assert (Hc : k = 0 \/ k = 1 \/ k = 2 \/ k = 3 \/ k = 4 \/ k = 5 \/ k = 6
               \/ k = 7 \/ k = 8 \/ k = 9) by lia.
  repeat (destruct Hc as [-> | Hc]; [vm_compute; auto|]).
  subst k; vm_compute; auto.
Qed.

Lemma int_four (a b c e : Z) :
  0 <= a <= 9 -> 0 <= b <= 9 -> 0 <= c <= 9 -> 0 <= e <= 9 ->
  int [digit_char a; digit_char b; digit_char c; digit_char e]
  = Ok (1000 * a + 100 * b + 10 * c + e).
Proof.
  intros Ha Hb Hc He.
  destruct (digit_char_facts a Ha) as [Sa [_ Va]].
  destruct (digit_char_facts b Hb) as [_ [_ Vb]].
  destruct (digit_char_facts c Hc) as [_ [_ Vc]].
  destruct (digit_char_facts e He) as [Se [_ Ve]].
  unfold int, strip.
  cbn [lstrip]. rewrite Sa. cbn [rev app lstrip]. rewrite Se.
  cbn [rev app decimal_number]. rewrite Va, Vb, Vc, Ve.
  f_equal; lia.
Qed.

Lemma digits_of_acc (fuel : nat) (n : Z) (acc : str) :
  digits_of fuel n acc = digits_of fuel n [] ++ acc.
Proof.
  revert n acc; induction fuel as [|fuel IH]; intros n acc; simpl;
    [reflexivity|].
  destruct (n / 10 =? 0); [reflexivity|].
  rewrite IH, (IH _ [_]), <- app_assoc. reflexivity.
Qed.

(** Numbers below 100 need two rounds. *)
Lemma digits_of_small (fuel : nat) (n : Z) :
  0 <= n <= 99 -> (1 <= fuel)%nat -> (10 <= n -> (2 <= fuel)%nat) ->
  digits_of fuel n []
  = if n <? 10 then [digit_char n] else two_digits n.
Proof.
  intros Hn Hf1 Hf2.
  destruct fuel as [|fuel]; [lia|]. cbn [digits_of].
  destruct (Z.ltb_spec n 10) as [Hs | Hb].
  - rewrite (Z.div_small n 10), (Z.mod_small n 10) by lia. reflexivity.
  - destruct (Z.eqb_spec (n / 10) 0) as [E | E];
      [Z.div_mod_to_equations; lia|].
    destruct fuel as [|fuel]; [specialize (Hf2 Hb); lia|]. cbn [digits_of].
    destruct (Z.eqb_spec (n / 10 / 10) 0) as [E' | E'];
      [|Z.div_mod_to_equations; lia].
    unfold two_digits. rewrite (Z.mod_small (n / 10) 10); [reflexivity|].
    Z.div_mod_to_equations; lia.
Qed.

Lemma log2_fuel (n : Z) :
  (10 <= n -> (3 <= Z.to_nat (Z.log2 n))%nat)
  /\ (100 <= n -> (6 <= Z.to_nat (Z.log2 n))%nat).
Proof.
  split; intros Hn.
  - pose proof (Z.log2_le_mono 10 n Hn) as H.
    change (Z.log2 10) with 3 in H. lia.
  - pose proof (Z.log2_le_mono 100 n Hn) as H.
    change (Z.log2 100) with 6 in H. lia.
Qed.

(** The digits of a number below 10000, by its size. *)
Lemma decimal_below_10000 (n : Z) :
  0 <= n <= 9999 ->
  decimal n
  = if n <? 10 then [digit_char n]
    else if n <? 100 then two_digits n
    else if n <? 1000 then digit_char (n / 100) :: two_digits (n mod 100)
    else four_digits n.
Proof.
  intros Hn. unfold decimal.
  destruct (log2_fuel n) as [L10 L100].
  destruct (Z.ltb_spec n 100) as [H100 | H100].
  - rewrite digits_of_small by lia.
    destruct (Z.ltb_spec n 10); reflexivity.
  - destruct (Z.ltb_spec n 10) as [H10 | H10]; [lia|].
    specialize (L100 H100).
    destruct (Z.to_nat (Z.log2 n)) as [|fuel]; [lia|].
    cbn [digits_of].
    destruct (Z.eqb_spec (n / 10) 0) as [E | E];
      [Z.div_mod_to_equations; lia|].
    destruct (Z.eqb_spec (n / 10 / 10) 0) as [E' | E'];
      [Z.div_mod_to_equations; lia|].
    rewrite digits_of_acc.
    rewrite digits_of_small by (try lia; Z.div_mod_to_equations; lia).
    assert (Hq : n / 10 / 10 = n / 100) by (Z.div_mod_to_equations; lia).
    assert (Hr : n / 10 mod 10 = n mod 100 / 10)
      by (Z.div_mod_to_equations; lia).
    assert (Hs : n mod 10 = n mod 100 mod 10)
      by (Z.div_mod_to_equations; lia).
    rewrite Hq.
    destruct (Z.ltb_spec n 1000) as [H1000 | H1000].
    + destruct (Z.ltb_spec (n / 100) 10) as [Hq10 | Hq10];
        [|Z.div_mod_to_equations; lia].
      unfold two_digits. rewrite Hr, Hs. reflexivity.
    + destruct (Z.ltb_spec (n / 100) 10) as [Hq10 | Hq10];
        [Z.div_mod_to_equations; lia|].
      unfold two_digits, four_digits.
      assert (Ht : n / 100 / 10 = n / 1000) by (Z.div_mod_to_equations; lia).
      rewrite Ht. reflexivity.
Qed.

Lemma four_digits_correct (n : Z) :
  0 <= n <= 9999 ->
  zfill 4 (decimal n) = four_digits n
  /\ (1000 <= n -> decimal n = four_digits n)
  /\ forallb isdecimal_char (four_digits n) = true
  /\ int (four_digits n) = Ok n.
Proof.
  intros Hn.
  assert (Ha : 0 <= n / 1000 <= 9) by (Z.div_mod_to_equations; lia).
  assert (Hb : 0 <= n / 100 mod 10 <= 9) by (Z.div_mod_to_equations; lia).
  assert (Hc : 0 <= n / 10 mod 10 <= 9) by (Z.div_mod_to_equations; lia).
  assert (He : 0 <= n mod 10 <= 9) by (Z.div_mod_to_equations; lia).
  split; [|split; [|split]].
  - rewrite (decimal_below_10000 n Hn). unfold four_digits, two_digits.
    destruct (Z.ltb_spec n 10) as [H10 | H10];
      [|destruct (Z.ltb_spec n 100) as [H100 | H100];
        [|destruct (Z.ltb_spec n 1000) as [H1000 | H1000]]].
    + replace (n / 1000) with 0 by (Z.div_mod_to_equations; lia).
      replace (n / 100) with 0 by (Z.div_mod_to_equations; lia).
      replace (n / 10) with 0 by (Z.div_mod_to_equations; lia).
      rewrite (Z.mod_small n 10) by lia. reflexivity.
    + replace (n / 1000) with 0 by (Z.div_mod_to_equations; lia).
      replace (n / 100) with 0 by (Z.div_mod_to_equations; lia).
      rewrite (Z.mod_small (n / 10) 10) by (Z.div_mod_to_equations; lia).
      reflexivity.
    + replace (n / 1000) with 0 by (Z.div_mod_to_equations; lia).
      rewrite (Z.mod_small (n / 100) 10) by (Z.div_mod_to_equations; lia).
      replace (n mod 100 / 10) with (n / 10 mod 10)
        by (Z.div_mod_to_equations; lia).
      replace (n mod 100 mod 10) with (n mod 10)
        by (Z.div_mod_to_equations; lia).
      reflexivity.
    + reflexivity.
  - intros Hbig. rewrite (decimal_below_10000 n Hn).
    destruct (Z.ltb_spec n 10); [lia|].
    destruct (Z.ltb_spec n 100); [lia|].
    destruct (Z.ltb_spec n 1000); [lia | reflexivity].
  - unfold four_digits; cbn [forallb].
    rewrite (proj1 (proj2 (digit_char_facts _ Ha))).
    rewrite (proj1 (proj2 (digit_char_facts _ Hb))).
    rewrite (proj1 (proj2 (digit_char_facts _ Hc))).
    rewrite (proj1 (proj2 (digit_char_facts _ He))). reflexivity.
  - unfold four_digits. rewrite int_four by assumption.
    f_equal. Z.div_mod_to_equations; lia.
Qed.

Lemma int_two (a b : Z) :
  0 <= a <= 9 -> 0 <= b <= 9 ->
  int [digit_char a; digit_char b] = Ok (10 * a + b).
Proof.
  intros Ha Hb.
  destruct (digit_char_facts a Ha) as [Sa [_ Va]].
  destruct (digit_char_facts b Hb) as [Sb [_ Vb]].
  unfold int, strip.
  cbn [lstrip]. rewrite Sa. cbn [rev app lstrip]. rewrite Sb.
  cbn [rev app decimal_number]. rewrite Va, Vb.
  f_equal; lia.
Qed.

Lemma two_digits_correct (n : Z) :
  0 <= n <= 99 ->
  zfill 2 (decimal n) = two_digits n /\ int (two_digits n) = Ok n.
Proof.
  intros Hn. split.
  - rewrite (decimal_below_10000 n) by lia. unfold two_digits.
    destruct (Z.ltb_spec n 10) as [H10 | H10].
    + rewrite (Z.div_small n 10), (Z.mod_small n 10) by lia. reflexivity.
    + destruct (Z.ltb_spec n 100); [reflexivity | lia].
  - unfold two_digits. rewrite int_two by (Z.div_mod_to_equations; lia).
    f_equal. Z.div_mod_to_equations; lia.
Qed.

(** The text [strftime] renders for the birthday pattern. *)
Lemma strftime_raw (pads_year : bool) (d : date.t) :
  date.strftime pads_year d Birthday.RAW_DATE_PATTERN
  = zfill 2 (decimal (date.day d))
    ++ 46%N :: zfill 2 (decimal (date.month d))
    ++ 46%N :: (if pads_year then zfill 4 (decimal (date.year d))
                else decimal (date.year d)) ++ [].
Proof. reflexivity. Qed.

Lemma days_in_month_le_31 (y m : Z) :
  1 <= m <= 12 -> date._days_in_month y m <= 31.
Proof.
  intros Hm; unfold date._days_in_month.
  destruct ((m =? 2) && date._is_leap y); [lia|].
  assert (Hc : m = 1 \/ m = 2 \/ m = 3 \/ m = 4 \/ m = 5 \/ m = 6 \/ m = 7
               \/ m = 8 \/ m = 9 \/ m = 10 \/ m = 11 \/ m = 12) by lia.
  repeat (destruct Hc as [-> | Hc]; [vm_compute; discriminate|]).
  subst m; vm_compute; discriminate.
Qed.

Lemma first_match_head {A} (cands more : list (str * str)) (text rest : str)
  (k : str -> str -> option A) (x : A) :
  cands = (text, rest) :: more -> k text rest = Some x ->
  first_match cands k = Some x.
Proof. intros -> Hk; simpl; rewrite Hk; reflexivity. Qed.

Lemma alternatives_d_two_digits (day : Z) (rest : str) :
  1 <= day <= 31 ->
  exists more,
    alternatives Dir_d (two_digits day ++ rest)
    = (two_digits day, rest) :: more.
Proof.
  intros Hd.
  assert (Hc : exists k, (k < 31)%nat /\ day = Z.of_nat (S k)).
  { exists (Z.to_nat (day - 1)); split; lia. }
  destruct Hc as [k [Hk ->]].
  do 31 (destruct k as [|k]; [eexists; reflexivity|]).
  lia.
Qed.

Lemma alternatives_m_two_digits (month : Z) (rest : str) :
  1 <= month <= 12 ->
  exists more,
    alternatives Dir_m (two_digits month ++ rest)
    = (two_digits month, rest) :: more.
Proof.
  intros Hd.
  assert (Hc : exists k, (k < 12)%nat /\ month = Z.of_nat (S k)).
  { exists (Z.to_nat (month - 1)); split; lia. }
  destruct Hc as [k [Hk ->]].
  do 12 (destruct k as [|k]; [eexists; reflexivity|]).
  lia.
Qed.

Lemma re_match_cons (d : directive) (re : list directive) (s : str)
  (g : groupdict) :
  re_match (d :: re) s g
  = first_match (alternatives d s)
      (fun text rest => re_match re rest (set_group d text g)).
Proof. reflexivity. Qed.

Lemma re_match_dot (re : list directive) (rest : str) (g : groupdict) :
  re_match (Lit 46 :: re) (46%N :: rest) g = re_match re rest g.
Proof.
  simpl. destruct (re_match re rest g); reflexivity.
Qed.

Lemma re_match_year (y : Z) (g : groupdict) :
  0 <= y <= 9999 ->
  re_match [Dir_Y] (four_digits y) g
  = Some (set_group Dir_Y (four_digits y) g, []).
Proof.
  intros Hy. destruct (four_digits_correct y Hy) as [_ [_ [Hdec _]]].
  unfold four_digits in *. simpl in Hdec.
  rewrite andb_true_r in Hdec.
  cbn [re_match alternatives four].
  rewrite !andb_assoc in Hdec. rewrite Hdec. reflexivity.
Qed.

(** Parsing the two-digit, two-digit, four-digit rendering of a date. *)
Lemma strptime_rendering (d : date.t) :
  valid_date d ->
  strptime_date
    (two_digits (date.day d)
     ++ 46%N :: two_digits (date.month d)
     ++ 46%N :: four_digits (date.year d))
    Birthday.RAW_DATE_PATTERN
  = Ok d.
Proof.
  intros Hv. destruct d as [y m dd]; unfold valid_date in Hv; simpl in Hv.
  destruct Hv as [Hy [Hm Hd]].
  pose proof (days_in_month_le_31 y m Hm) as H31.
  cbn [date.year date.month date.day].
  unfold strptime_date, _strptime.
  change (pattern Birthday.RAW_DATE_PATTERN)
    with (Some [Dir_d; Lit 46; Dir_m; Lit 46; Dir_Y]).
  cbv beta iota.
  assert (Hmatch :
    re_match [Dir_d; Lit 46; Dir_m; Lit 46; Dir_Y]
      (two_digits dd ++ 46%N :: two_digits m ++ 46%N :: four_digits y)
      no_groups
    = Some (mk_groups (Some (two_digits dd)) (Some (two_digits m))
              (Some (four_digits y)), [])).
  { destruct (alternatives_d_two_digits dd
                (46%N :: two_digits m ++ 46%N :: four_digits y))
      as [more Hmore]; [lia|].
    rewrite re_match_cons. eapply first_match_head; [exact Hmore|].
    cbv beta. rewrite re_match_dot.
    destruct (alternatives_m_two_digits m (46%N :: four_digits y))
      as [more' Hmore']; [lia|].
    rewrite re_match_cons. eapply first_match_head; [exact Hmore'|].
    cbv beta. rewrite re_match_dot.
    rewrite re_match_year by lia. reflexivity. }
  rewrite Hmatch. change (len (@nil N) =? 0) with true. cbn [negb].
  cbn [group_Y group_m group_d group_int].
  destruct (four_digits_correct y ltac:(lia)) as [_ [_ [_ HY]]].
  destruct (two_digits_correct m ltac:(lia)) as [_ HM].
  destruct (two_digits_correct dd ltac:(lia)) as [_ HD].
  rewrite HY, HM, HD. cbn [bind].
  apply date_new_ok. unfold valid_date; simpl. lia.
Qed.

Lemma first_match_Some {A} (cands : list (str * str))
  (k : str -> str -> option A) (x : A) :
  first_match cands k = Some x ->
  exists text rest, In (text, rest) cands /\ k text rest = Some x.
Proof.
  induction cands as [|[text rest] cands IH]; simpl; [discriminate|].
  destruct (k text rest) as [r|] eqn:Hk.
  - intros H; inversion H; subst r. exists text, rest; auto.
  - intros H. destruct (IH H) as [t [r [Hin Hr]]]. exists t, r; auto.
Qed.

Lemma one_In (p : N -> bool) (s text rest : str) :
  In (text, rest) (one p s) ->
  s = text ++ rest /\ exists c, text = [c] /\ p c = true.
Proof.
  destruct s as [|c s]; simpl; [tauto|].
  destruct (p c) eqn:Hp; simpl; [|tauto].
  intros [H | []]; inversion H; subst. split; [reflexivity | eauto].
Qed.

Lemma two_In (p q : N -> bool) (s text rest : str) :
  In (text, rest) (two p q s) ->
  s = text ++ rest /\ List.length text = 2%nat.
Proof.
  destruct s as [|c1 [|c2 s]]; simpl; try tauto.
  destruct (p c1 && q c2); simpl; [|tauto].
  intros [H | []]; inversion H; subst. split; reflexivity.
Qed.

Lemma four_In (p : N -> bool) (s text rest : str) :
  In (text, rest) (four p s) ->
  s = text ++ rest /\ List.length text = 4%nat.
Proof.
  destruct s as [|c1 [|c2 [|c3 [|c4 s]]]]; simpl; try tauto.
  destruct (p c1 && p c2 && p c3 && p c4); simpl; [|tauto].
  intros [H | []]; inversion H; subst. split; reflexivity.
Qed.

(** What a directive can match: one or two characters for the day and the
    month, four for the year, the character itself for a literal. *)
Definition group_length_ok (d : directive) (text : str) : Prop :=
  match d with
  | Dir_d | Dir_m => List.length text = 1%nat \/ List.length text = 2%nat
  | Dir_Y => List.length text = 4%nat
  | Lit c => text = [c]
  end.

Lemma alternatives_In (d : directive) (s text rest : str) :
  In (text, rest) (alternatives d s) ->
  s = text ++ rest /\ group_length_ok d text.
Proof.
  destruct d; unfold alternatives, group_length_ok;
    rewrite ?in_app_iff; intros H.
  - destruct H as [H | [H | [H | [H | H]]]];
      try (apply two_In in H; destruct H as [-> Hl]; auto).
    apply one_In in H; destruct H as [-> [c [-> _]]]; auto.
  - destruct H as [H | [H | H]];
      try (apply two_In in H; destruct H as [-> Hl]; auto).
    apply one_In in H; destruct H as [-> [c' [-> _]]]; auto.
  - apply four_In in H; exact H.
  - apply one_In in H; destruct H as [-> [c' [-> Hc]]].
    unfold is_char in Hc; apply N.eqb_eq in Hc; subst; auto.
Qed.

Lemma re_match_raw_shape (s rest : str) (g : groupdict) :
  re_match [Dir_d; Lit 46; Dir_m; Lit 46; Dir_Y] s no_groups = Some (g, rest) ->
  exists dd mm yy,
    s = dd ++ 46%N :: mm ++ 46%N :: yy ++ rest
    /\ g = mk_groups (Some dd) (Some mm) (Some yy)
    /\ group_length_ok Dir_d dd /\ group_length_ok Dir_m mm
    /\ group_length_ok Dir_Y yy.
Proof.
  intros H.
  rewrite re_match_cons in H; apply first_match_Some in H.
  destruct H as [dd [r1 [Hd H]]]. apply alternatives_In in Hd.
  rewrite re_match_cons in H; apply first_match_Some in H.
  destruct H as [p1 [r2 [Hp1 H]]]. apply alternatives_In in Hp1.
  rewrite re_match_cons in H; apply first_match_Some in H.
  destruct H as [mm [r3 [Hm H]]]. apply alternatives_In in Hm.
  rewrite re_match_cons in H; apply first_match_Some in H.
  destruct H as [p2 [r4 [Hp2 H]]]. apply alternatives_In in Hp2.
  rewrite re_match_cons in H; apply first_match_Some in H.
  destruct H as [yy [r5 [Hy H]]]. apply alternatives_In in Hy.
  simpl in H; inversion H; subst g rest; clear H.
  destruct Hd as [-> Hd], Hp1 as [-> Hp1], Hm as [-> Hm], Hp2 as [-> Hp2],
    Hy as [-> Hy].
  simpl in Hp1, Hp2; subst p1 p2.
  exists dd, mm, yy. repeat split; assumption.
Qed.

Lemma int_raise (v : str) (e : exn) : int v = Raise e -> e = ValueError.
Proof.
  unfold int. destruct (strip v); [intros H; inversion H; reflexivity|].
  destruct (decimal_number _ 0); [discriminate|].
  intros H; inversion H; reflexivity.
Qed.

Lemma strptime_date_raise (s format : str) (e : exn) :
  strptime_date s format = Raise e -> e = ValueError.
Proof.
  unfold strptime_date, _strptime.
  destruct (pattern format) as [re|]; cbn [bind];
    [|intros H; inversion H; reflexivity].
  destruct (re_match re s no_groups) as [[found rest]|]; cbn [bind];
    [|intros H; inversion H; reflexivity].
  destruct (negb (len rest =? 0)); cbn [bind];
    [intros H; inversion H; reflexivity|].
  unfold group_int.
  destruct (group_Y found) as [ty|];
    [destruct (int ty) as [y|] eqn:Hy; cbn [bind];
     [|intros H; inversion H; subst; apply (int_raise _ _ Hy)]|];
    (destruct (group_m found) as [tm|];
     [destruct (int tm) as [m|] eqn:Hm; cbn [bind];
      [|intros H; inversion H; subst; apply (int_raise _ _ Hm)]|]);
    (destruct (group_d found) as [td|];
     [destruct (int td) as [d|] eqn:Hd; cbn [bind];
      [|intros H; inversion H; subst; apply (int_raise _ _ Hd)]|]);
    cbn [bind]; intros H; apply (date_new_raise _ _ _ _ H).
Qed.

Lemma Birthday_init_raise (s : str) (e : exn) :
  Birthday.init s = Raise e -> e = InvalidBirthdayFormatError.
Proof.
  unfold Birthday.init.
  destruct (strptime_date s Birthday.RAW_DATE_PATTERN) as [d|e'] eqn:Hp;
    cbn [bind try_except]; [discriminate|].
  rewrite (strptime_date_raise _ _ _ Hp). cbn [exn_eqb].
  intros H; inversion H; reflexivity.
Qed.

(** A string that [Birthday] accepts is a day of one or two characters, a
    dot, a month of one or two characters, a dot and a year of four
    characters, which [int] reads as the fields of a real date. *)
Lemma Birthday_init_inv (s : str) (b : Birthday.t) :
  Birthday.init s = Ok b ->
  valid_date (Birthday.value b)
  /\ exists dd mm yy,
       s = dd ++ 46%N :: mm ++ 46%N :: yy
       /\ (List.length dd = 1%nat \/ List.length dd = 2%nat)
       /\ (List.length mm = 1%nat \/ List.length mm = 2%nat)
       /\ List.length yy = 4%nat
       /\ int dd = Ok (date.day (Birthday.value b))
       /\ int mm = Ok (date.month (Birthday.value b))
       /\ int yy = Ok (date.year (Birthday.value b)).
Proof.
  unfold Birthday.init.
  destruct (strptime_date s Birthday.RAW_DATE_PATTERN) as [d|e'] eqn:Hp;
    cbn [bind try_except]; [|destruct (exn_eqb e' ValueError); discriminate].
  intros H; inversion H; subst b; clear H. cbn [Birthday.value].
  unfold strptime_date, _strptime in Hp.
  change (pattern Birthday.RAW_DATE_PATTERN)
    with (Some [Dir_d; Lit 46; Dir_m; Lit 46; Dir_Y]) in Hp.
  cbv beta iota in Hp.
  destruct (re_match _ s no_groups) as [[found rest]|] eqn:Hm;
    cbn [bind] in Hp; [|discriminate].
  destruct (Z.eqb_spec (len rest) 0) as [Hl | Hl]; cbn [negb] in Hp;
    [|discriminate].
  destruct (re_match_raw_shape _ _ _ Hm)
    as [dd [mm [yy [Hs [Hg [Hd [Hmm Hy]]]]]]].
  subst found. cbn [group_Y group_m group_d group_int] in Hp.
  destruct (int yy) as [y|] eqn:HY; cbn [bind] in Hp; [|discriminate].
  destruct (int mm) as [m|] eqn:HM; cbn [bind] in Hp; [|discriminate].
  destruct (int dd) as [dy|] eqn:HD; cbn [bind] in Hp; [|discriminate].
  destruct (date_new_inv _ _ _ _ Hp) as [-> Hv].
  split; [exact Hv|].
  exists dd, mm, yy. cbn [date.year date.month date.day].
  assert (rest = []) by (destruct rest; [reflexivity | discriminate Hl]).
  subst rest. rewrite app_nil_r in Hs. auto 10.
Qed.

(** The text DD.MM.YYYY of a date: two digits, two digits, four digits. *)
Definition rendering (d : date.t) : str :=
  two_digits (date.day d)
  ++ 46%N :: two_digits (date.month d)
  ++ 46%N :: four_digits (date.year d).

Lemma to_str_rendering (pads_year : bool) (d : date.t) :
  valid_date d -> pads_year = true \/ 1000 <= date.year d ->
  Birthday.to_str pads_year (Birthday.mk d) = rendering d.
Proof.
  intros [Hy [Hm Hd]] Hp.
  pose proof (days_in_month_le_31 (date.year d) _ Hm) as H31.
  unfold Birthday.to_str, rendering; cbn [Birthday.value].
  rewrite strftime_raw, app_nil_r.
  destruct (two_digits_correct (date.day d) ltac:(lia)) as [-> _].
  destruct (two_digits_correct (date.month d) ltac:(lia)) as [-> _].
  destruct (four_digits_correct (date.year d) ltac:(lia)) as [H4 [Hraw _]].
  destruct pads_year.
  - rewrite H4; reflexivity.
  - rewrite Hraw; [reflexivity|]. destruct Hp as [Hp | Hp]; [discriminate|lia].
Qed.

(** Where the year is not padded, a year below 1000 is rendered with fewer
    than four digits. *)
Lemma to_str_short_year (d : date.t) :
  valid_date d -> date.year d < 1000 ->
  Birthday.to_str false (Birthday.mk d) <> rendering d.
Proof.
  intros [Hy [Hm Hd]] Hs E.
  pose proof (days_in_month_le_31 (date.year d) _ Hm) as H31.
  apply (f_equal (@List.length N)) in E. revert E.
  unfold Birthday.to_str, rendering; cbn [Birthday.value].
  rewrite strftime_raw, app_nil_r.
  destruct (two_digits_correct (date.day d) ltac:(lia)) as [-> _].
  destruct (two_digits_correct (date.month d) ltac:(lia)) as [-> _].
  rewrite (decimal_below_10000 (date.year d)) by lia.
  destruct (Z.ltb_spec (date.year d) 10);
    [|destruct (Z.ltb_spec (date.year d) 100);
      [|destruct (Z.ltb_spec (date.year d) 1000); [|lia]]];
    discriminate.
Qed.

(** *** The texts that the groups of the birthday pattern can hold *)

(** A day: one ASCII digit, a space and one ASCII digit, or an ASCII digit
    and a decimal character. *)
Definition day_text (text : str) : Prop :=
  (exists c, text = [c] /\ is_ascii_digit c = true)
  \/ (exists c, text = [32%N; c] /\ is_ascii_digit c = true)
  \/ (exists c1 c2,
        text = [c1; c2] /\ is_ascii_digit c1 = true
        /\ isdecimal_char c2 = true).

(** A month: one or two ASCII digits. *)
Definition month_text (text : str) : Prop :=
  (exists c, text = [c] /\ is_ascii_digit c = true)
  \/ (exists c1 c2,
        text = [c1; c2] /\ is_ascii_digit c1 = true
        /\ is_ascii_digit c2 = true).

(** A year: four decimal characters. *)
Definition year_text (text : str) : Prop :=
  exists c1 c2 c3 c4,
    text = [c1; c2; c3; c4]
    /\ isdecimal_char c1 = true /\ isdecimal_char c2 = true
    /\ isdecimal_char c3 = true /\ isdecimal_char c4 = true.

Lemma two_In_chars (p q : N -> bool) (s text rest : str) :
  In (text, rest) (two p q s) ->
  exists c1 c2, text = [c1; c2] /\ p c1 = true /\ q c2 = true.
Proof.
  destruct s as [|c1 [|c2 s]]; simpl; try tauto.
  destruct (p c1) eqn:Hp; destruct (q c2) eqn:Hq; simpl; try tauto.
  intros [H | []]; inversion H; subst. eauto.
Qed.

Lemma four_In_chars (p : N -> bool) (s text rest : str) :
  In (text, rest) (four p s) ->
  exists c1 c2 c3 c4,
    text = [c1; c2; c3; c4]
    /\ p c1 = true /\ p c2 = true /\ p c3 = true /\ p c4 = true.
Proof.
  destruct s as [|c1 [|c2 [|c3 [|c4 s]]]]; simpl; try tauto.
  destruct (p c1) eqn:H1; destruct (p c2) eqn:H2; destruct (p c3) eqn:H3;
    destruct (p c4) eqn:H4; simpl; try tauto.
  intros [H | []]; inversion H; subst. eauto 10.
Qed.

Lemma between_ascii_digit (lo hi c : N) :
  (48 <= lo)%N -> (hi <= 57)%N -> between lo hi c = true ->
  is_ascii_digit c = true.
Proof.
  unfold between, is_ascii_digit. intros Hlo Hhi H.
  apply andb_true_iff in H. destruct H as [H1 H2].
  apply N.leb_le in H1, H2. apply andb_true_iff; split; apply N.leb_le; lia.
Qed.

Lemma is_char_ascii_digit (a c : N) :
  (48 <= a <= 57)%N -> is_char a c = true -> is_ascii_digit c = true.
Proof.
  unfold is_char, is_ascii_digit. intros Ha H. apply N.eqb_eq in H; subst c.
  apply andb_true_iff; split; apply N.leb_le; lia.
Qed.

Lemma alternatives_d_text (s text rest : str) :
  In (text, rest) (alternatives Dir_d s) -> day_text text.
Proof.
  unfold alternatives, day_text. rewrite !in_app_iff.
  intros [H | [H | [H | [H | H]]]].
  - apply two_In_chars in H. destruct H as [c1 [c2 [-> [H1 H2]]]].
    right; right. exists c1, c2. split; [reflexivity|]. split.
    + apply (is_char_ascii_digit 51); [lia | exact H1].
    + apply ascii_digit_isdecimal.
      apply (between_ascii_digit 48 49); [lia | lia | exact H2].
  - apply two_In_chars in H. destruct H as [c1 [c2 [-> [H1 H2]]]].
    right; right. exists c1, c2. split; [reflexivity|]. split; [|exact H2].
    apply (between_ascii_digit 49 50); [lia | lia | exact H1].
  - apply two_In_chars in H. destruct H as [c1 [c2 [-> [H1 H2]]]].
    right; right. exists c1, c2. split; [reflexivity|]. split.
    + apply (is_char_ascii_digit 48); [lia | exact H1].
    + apply ascii_digit_isdecimal.
      apply (between_ascii_digit 49 57); [lia | lia | exact H2].
  - apply one_In in H. destruct H as [_ [c [-> Hc]]].
    left. exists c. split; [reflexivity|].
    apply (between_ascii_digit 49 57); [lia | lia | exact Hc].
  - apply two_In_chars in H. destruct H as [c1 [c2 [-> [H1 H2]]]].
    right; left. unfold is_char in H1. apply N.eqb_eq in H1; subst c1.
    exists c2. split; [reflexivity|].
    apply (between_ascii_digit 49 57); [lia | lia | exact H2].
Qed.

Lemma alternatives_m_text (s text rest : str) :
  In (text, rest) (alternatives Dir_m s) -> month_text text.
Proof.
  unfold alternatives, month_text. rewrite !in_app_iff.
  intros [H | [H | H]].
  - apply two_In_chars in H. destruct H as [c1 [c2 [-> [H1 H2]]]].
    right. exists c1, c2. split; [reflexivity|]. split.
    + apply (is_char_ascii_digit 49); [lia | exact H1].
    + apply (between_ascii_digit 48 50); [lia | lia | exact H2].
  - apply two_In_chars in H. destruct H as [c1 [c2 [-> [H1 H2]]]].
    right. exists c1, c2. split; [reflexivity|]. split.
    + apply (is_char_ascii_digit 48); [lia | exact H1].
    + apply (between_ascii_digit 49 57); [lia | lia | exact H2].
  - apply one_In in H. destruct H as [_ [c [-> Hc]]].
    left. exists c. split; [reflexivity|].
    apply (between_ascii_digit 49 57); [lia | lia | exact Hc].
Qed.

Lemma alternatives_Y_text (s text rest : str) :
  In (text, rest) (alternatives Dir_Y s) -> year_text text.
Proof. unfold alternatives, year_text. apply four_In_chars. Qed.

Lemma re_match_raw_texts (s rest : str) (g : groupdict) :
  re_match [Dir_d; Lit 46; Dir_m; Lit 46; Dir_Y] s no_groups = Some (g, rest) ->
  exists dd mm yy,
    s = dd ++ 46%N :: mm ++ 46%N :: yy ++ rest
    /\ g = mk_groups (Some dd) (Some mm) (Some yy)
    /\ day_text dd /\ month_text mm /\ year_text yy.
Proof.
  intros H.
  rewrite re_match_cons in H; apply first_match_Some in H.
  destruct H as [dd [r1 [Hd H]]].
  pose proof (alternatives_d_text _ _ _ Hd) as Td. apply alternatives_In in Hd.
  rewrite re_match_cons in H; apply first_match_Some in H.
  destruct H as [p1 [r2 [Hp1 H]]]. apply alternatives_In in Hp1.
  rewrite re_match_cons in H; apply first_match_Some in H.
  destruct H as [mm [r3 [Hm H]]].
  pose proof (alternatives_m_text _ _ _ Hm) as Tm. apply alternatives_In in Hm.
  rewrite re_match_cons in H; apply first_match_Some in H.
  destruct H as [p2 [r4 [Hp2 H]]]. apply alternatives_In in Hp2.
  rewrite re_match_cons in H; apply first_match_Some in H.
  destruct H as [yy [r5 [Hy H]]].
  pose proof (alternatives_Y_text _ _ _ Hy) as Ty. apply alternatives_In in Hy.
  simpl in H; inversion H; subst g rest; clear H.
  destruct Hd as [-> _], Hp1 as [-> Hp1], Hm as [-> _], Hp2 as [-> Hp2],
    Hy as [-> _].
  simpl in Hp1, Hp2; subst p1 p2.
  exists dd, mm, yy. repeat split; assumption.
Qed.

(** A string that [Birthday] accepts, by its three fields. *)
Lemma Birthday_init_texts (s : str) (b : Birthday.t) :
  Birthday.init s = Ok b ->
  valid_date (Birthday.value b)
  /\ exists dd mm yy,
       s = dd ++ 46%N :: mm ++ 46%N :: yy
       /\ day_text dd /\ month_text mm /\ year_text yy
       /\ int dd = Ok (date.day (Birthday.value b))
       /\ int mm = Ok (date.month (Birthday.value b))
       /\ int yy = Ok (date.year (Birthday.value b)).
Proof.
  unfold Birthday.init.
  destruct (strptime_date s Birthday.RAW_DATE_PATTERN) as [d|e'] eqn:Hp;
    cbn [bind try_except]; [|destruct (exn_eqb e' ValueError); discriminate].
  intros H; inversion H; subst b; clear H. cbn [Birthday.value].
  unfold strptime_date, _strptime in Hp.
  change (pattern Birthday.RAW_DATE_PATTERN)
    with (Some [Dir_d; Lit 46; Dir_m; Lit 46; Dir_Y]) in Hp.
  cbv beta iota in Hp.
  destruct (re_match _ s no_groups) as [[found rest]|] eqn:Hm;
    cbn [bind] in Hp; [|discriminate].
  destruct (Z.eqb_spec (len rest) 0) as [Hl | Hl]; cbn [negb] in Hp;
    [|discriminate].
  destruct (re_match_raw_texts _ _ _ Hm)
    as [dd [mm [yy [Hs [Hg [Hd [Hmm Hy]]]]]]].
  subst found. cbn [group_Y group_m group_d group_int] in Hp.
  destruct (int yy) as [y|] eqn:HY; cbn [bind] in Hp; [|discriminate].
  destruct (int mm) as [m|] eqn:HM; cbn [bind] in Hp; [|discriminate].
  destruct (int dd) as [dy|] eqn:HD; cbn [bind] in Hp; [|discriminate].
  destruct (date_new_inv _ _ _ _ Hp) as [-> Hv].
  split; [exact Hv|].
  exists dd, mm, yy. cbn [date.year date.month date.day].
  assert (rest = []) by (destruct rest; [reflexivity | discriminate Hl]).
  subst rest. rewrite app_nil_r in Hs. auto 10.
Qed.

Lemma day_text_no_dot (text : str) :
  day_text text -> forall c, In c text -> c <> 46%N.
Proof.
  intros [[c [-> Hc]] | [[c [-> Hc]] | [c1 [c2 [-> [H1 H2]]]]]] x Hin Hx;
    subst x; simpl in Hin.
  - destruct Hin as [-> | []]. discriminate Hc.
  - destruct Hin as [H | [-> | []]]; [discriminate H | discriminate Hc].
  - destruct Hin as [-> | [-> | []]]; [discriminate H1 | discriminate H2].
Qed.

Lemma split_at_first (x : N) (a a' r r' : str) :
  (forall c, In c a -> c <> x) -> (forall c, In c a' -> c <> x) ->
  a ++ x :: r = a' ++ x :: r' -> a = a' /\ r = r'.
Proof.
  revert a'. induction a as [|c a IH]; intros [|c' a'] Ha Ha' H; simpl in H.
  - inversion H; auto.
  - inversion H; subst c'. exfalso. apply (Ha' x); [left|]; reflexivity.
  - inversion H; subst c. exfalso. apply (Ha x); [left|]; reflexivity.
  - inversion H; subst c'.
    destruct (IH a') as [-> ->]; auto.
    + intros c0 Hin; apply Ha; right; exact Hin.
    + intros c0 Hin; apply Ha'; right; exact Hin.
Qed.

(** A space before the month is refused. *)
Lemma Birthday_init_space_month (dd rest : str) :
  (forall c, In c dd -> c <> 46%N) ->
  Birthday.init (dd ++ 46%N :: 32%N :: rest)
  = Raise InvalidBirthdayFormatError.
Proof.
  intros Hdd.
  destruct (Birthday.init (dd ++ 46%N :: 32%N :: rest)) as [b|e] eqn:Hi.
  - exfalso. destruct (Birthday_init_texts _ _ Hi)
      as [_ [dd' [mm [yy [Hs [Td [Tm _]]]]]]].
    destruct (split_at_first 46 dd dd' _ _ Hdd (day_text_no_dot _ Td) Hs)
      as [_ Hr].
    destruct Tm as [[c [-> Hc]] | [c1 [c2 [-> [H1 _]]]]]; simpl in Hr;
      inversion Hr; subst.
    + discriminate Hc.
    + discriminate H1.
  - rewrite (Birthday_init_raise _ _ Hi). reflexivity.
Qed.

(** The ways to write a day and a month that are parsed to [n]: two digits,
    and below 10 also one digit, for the day also a space and one digit. *)
Definition day_form (n : Z) (text : str) : Prop :=
  text = two_digits n
  \/ (n <= 9 /\ (text = [digit_char n] \/ text = [32%N; digit_char n])).

Definition month_form (n : Z) (text : str) : Prop :=
  text = two_digits n \/ (n <= 9 /\ text = [digit_char n]).

Lemma one_to_nine (n : Z) :
  1 <= n <= 9 ->
  n = 1 \/ n = 2 \/ n = 3 \/ n = 4 \/ n = 5 \/ n = 6 \/ n = 7 \/ n = 8
  \/ n = 9.
Proof. lia. Qed.

Lemma day_form_head (n : Z) (text rest : str) :
  1 <= n <= 31 -> day_form n text ->
  (exists more,
     alternatives Dir_d (text ++ 46%N :: rest) = (text, 46%N :: rest) :: more)
  /\ int text = Ok n.
Proof.
  intros Hn [-> | [H9 [-> | ->]]].
  - split; [apply alternatives_d_two_digits; exact Hn|].
    apply two_digits_correct; lia.
  - destruct (one_to_nine n ltac:(lia)) as [-> | [-> | [-> | [-> | [-> | [->
      | [-> | [-> | ->]]]]]]]];
      (split; [eexists; reflexivity | reflexivity]).
  - destruct (one_to_nine n ltac:(lia)) as [-> | [-> | [-> | [-> | [-> | [->
      | [-> | [-> | ->]]]]]]]];
      (split; [eexists; reflexivity | reflexivity]).
Qed.

Lemma month_form_head (n : Z) (text rest : str) :
  1 <= n <= 12 -> month_form n text ->
  (exists more,
     alternatives Dir_m (text ++ 46%N :: rest) = (text, 46%N :: rest) :: more)
  /\ int text = Ok n.
Proof.
  intros Hn [-> | [H9 ->]].
  - split; [apply alternatives_m_two_digits; exact Hn|].
    apply two_digits_correct; lia.
  - destruct (one_to_nine n ltac:(lia)) as [-> | [-> | [-> | [-> | [-> | [->
      | [-> | [-> | ->]]]]]]]];
      (split; [eexists; reflexivity | reflexivity]).
Qed.

(** Parsing a date written in any of these forms. *)
Lemma Birthday_init_forms (d : date.t) (dd mm : str) :
  valid_date d -> day_form (date.day d) dd -> month_form (date.month d) mm ->
  Birthday.init (dd ++ 46%N :: mm ++ 46%N :: four_digits (date.year d))
  = Ok (Birthday.mk d).
Proof.
  intros Hv Fd Fm. destruct d as [y m dy]; unfold valid_date in Hv.
  cbn [date.year date.month date.day] in *.
  destruct Hv as [Hy [Hm Hd]].
  pose proof (days_in_month_le_31 y m Hm) as H31.
  destruct (day_form_head dy dd (mm ++ 46%N :: four_digits y) ltac:(lia) Fd)
    as [[more Hmore] HD].
  destruct (month_form_head m mm (four_digits y) Hm Fm)
    as [[more' Hmore'] HM].
  unfold Birthday.init, strptime_date, _strptime.
  change (pattern Birthday.RAW_DATE_PATTERN)
    with (Some [Dir_d; Lit 46; Dir_m; Lit 46; Dir_Y]).
  cbv beta iota.
  assert (Hmatch :
    re_match [Dir_d; Lit 46; Dir_m; Lit 46; Dir_Y]
      (dd ++ 46%N :: mm ++ 46%N :: four_digits y) no_groups
    = Some (mk_groups (Some dd) (Some mm) (Some (four_digits y)), [])).
  { rewrite re_match_cons. eapply first_match_head; [exact Hmore|].
    cbv beta. rewrite re_match_dot.
    rewrite re_match_cons. eapply first_match_head; [exact Hmore'|].
    cbv beta. rewrite re_match_dot.
    rewrite re_match_year by lia. reflexivity. }
  rewrite Hmatch. change (len (@nil N) =? 0) with true. cbn [negb].
  cbn [group_Y group_m group_d group_int].
  destruct (four_digits_correct y ltac:(lia)) as [_ [_ [_ HY]]].
  rewrite HY, HM, HD. cbn [bind].
  rewrite date_new_ok by (unfold valid_date; simpl; lia).
  reflexivity.
Qed.




(** * Further properties *)

(** ** Record: construction, lookup and the effect of the methods *)

Lemma len_zero_nil {A} (l : list A) : len l = 0 <-> l = [].
Proof.
  unfold len; destruct l; simpl; split; try reflexivity; discriminate.
Qed.

(** X1.  [Record(name)] raises [ValueError] exactly for the empty name;
    every other name gives a record with that name, no phones and no
    birthday, on which [find_phone] finds nothing. *)
Theorem Record_init_spec (name : str) :
  (Record.init name = Raise ValueError <-> name = [])
  /\ (forall e, Record.init name = Raise e -> e = ValueError)
  /\ (name <> [] ->
      Record.init name = Ok (Record.mk (Name.mk name) [] None))
  /\ (forall self phone,
        Record.init name = Ok self ->
        Name.value (Record.name self) = name
        /\ Record.find_phone phone self = None).
Proof.
  unfold Record.init, Name.init.
  destruct (Z.eqb_spec (len name) 0) as [H0 | H0]; cbn [bind].
  - apply len_zero_nil in H0.
    split; [tauto|]. split; [intros e H; inversion H; reflexivity|].
    split; [intros Hne; contradiction | discriminate].
  - assert (Hne : name <> []) by (intros ->; apply H0; reflexivity).
    split; [split; [discriminate | intros H; contradiction]|].
    split; [discriminate|]. split; [reflexivity|].
    intros self phone H; inversion H; subst self. split; reflexivity.
Qed.

Lemma Record_init_spec_witness :
  Record.init (lit "Ann") = Ok (Record.mk (Name.mk (lit "Ann")) [] None).
Proof.
  apply (proj1 (proj2 (proj2 (Record_init_spec (lit "Ann"))))).
  discriminate.
Defined.

(** X2.  [add_phone] returns exactly for strings of ten digits, and then
    puts the phone at the end of the list, also when an equal phone is
    already there; the name and the birthday stay. *)
Theorem add_phone_appends (raw : str) (self : Record.t) :
  (fst (Record.add_phone raw self) = Ok tt <-> ten_digits raw)
  /\ (ten_digits raw ->
      Record.add_phone raw self
      = (Ok tt, Record.mk (Record.name self)
                  (Record.phones self ++ [Phone.mk raw])
                  (Record.birthday self))).
Proof.
  rewrite add_phone_eq. split.
  - destruct (Phone.init raw) as [p|e] eqn:Hp; simpl.
    + destruct (Phone_init_inv _ _ Hp) as [_ Hv]. tauto.
    + destruct (Phone_init_raise _ _ Hp) as [_ Hn].
      split; [discriminate | intros H; contradiction].
  - intros Hv. rewrite (Phone_init_ok _ Hv). reflexivity.
Qed.

Lemma ten_digits_1111111111 : ten_digits (lit "1111111111").
Proof.
  split; [reflexivity|]. intros c Hin; simpl in Hin.
  repeat (destruct Hin as [<-|Hin]; [reflexivity|]); contradiction.
Qed.

Lemma add_phone_appends_witness :
  Record.add_phone (lit "1111111111") record_1111111111
  = (Ok tt, Record.mk (Name.mk (lit "Ann"))
              [Phone.mk (lit "1111111111"); Phone.mk (lit "1111111111")]
              None).
Proof.
  apply (proj2 (add_phone_appends (lit "1111111111") record_1111111111)).
  exact ten_digits_1111111111.
Defined.

Lemma find_phone_None (phone : str) (l : list Phone.t) :
  find (fun p => str_eqb (Phone.value p) phone) l = None
  <-> forall p, In p l -> Phone.value p <> phone.
Proof.
  induction l as [|q l IH]; simpl.
  - split; [intros _ p [] | reflexivity].
  - destruct (str_eqb (Phone.value q) phone) eqn:Hq.
    + apply str_eqb_eq in Hq. split; [discriminate|].
      intros H; exfalso; apply (H q); auto.
    + rewrite IH. split.
      * intros H p [<- | Hin]; [|apply H; exact Hin].
        intros Heq; apply str_eqb_eq in Heq; congruence.
      * intros H p Hin; apply H; right; exact Hin.
Qed.

Lemma find_phone_Some (phone : str) (l : list Phone.t) (p : Phone.t) :
  find (fun p => str_eqb (Phone.value p) phone) l = Some p ->
  p = Phone.mk phone
  /\ exists before after,
       l = before ++ p :: after
       /\ forall q, In q before -> Phone.value q <> phone.
Proof.
  induction l as [|q l IH]; simpl; [discriminate|].
  destruct (str_eqb (Phone.value q) phone) eqn:Hq.
  - intros H; inversion H; subst q. apply str_eqb_eq in Hq.
    split; [destruct p; simpl in Hq; subst; reflexivity|].
    exists [], l; split; [reflexivity | intros ? []].
  - intros H. destruct (IH H) as [Hp [before [after [Hl Hb]]]].
    split; [exact Hp|]. exists (q :: before), after; split.
    + simpl; rewrite Hl; reflexivity.
    + intros r [<- | Hin]; [|apply Hb; exact Hin].
      intros Heq; apply str_eqb_eq in Heq; congruence.
Qed.

(** X3.  [find_phone] validates nothing and never raises: it returns
    [None] exactly when no phone has the given value, and otherwise the
    first phone with that value. *)
Theorem find_phone_spec (phone : str) (self : Record.t) :
  (Record.find_phone phone self = None
   <-> forall p, In p (Record.phones self) -> Phone.value p <> phone)
  /\ (forall p,
        Record.find_phone phone self = Some p ->
        Phone.value p = phone
        /\ exists before after,
             Record.phones self = before ++ p :: after
             /\ forall q, In q before -> Phone.value q <> phone)
  /\ (phones_valid self -> ~ ten_digits phone ->
      Record.find_phone phone self = None).
Proof.
  unfold Record.find_phone. split; [apply find_phone_None|]. split.
  - intros p H. destruct (find_phone_Some _ _ _ H) as [-> Hrest].
    split; [reflexivity | exact Hrest].
  - intros Hinv Hbad. apply find_phone_None. intros p Hin Heq.
    unfold phones_valid in Hinv. rewrite Forall_forall in Hinv.
    apply Hbad. rewrite <- Heq. apply Hinv; exact Hin.
Qed.

Lemma find_phone_spec_witness :
  Record.find_phone (lit "0987654321") record_with_birthday
  = Some (Phone.mk (lit "0987654321"))
  /\ Record.find_phone (lit "abc") record_with_birthday = None.
Proof.
  split; [reflexivity|].
  apply (proj2 (proj2 (find_phone_spec (lit "abc") record_with_birthday))).
  - exact phones_valid_record_with_birthday.
  - intros [Hl _]; discriminate Hl.
Defined.

(** X4.  After [add_phone] has returned, [find_phone] finds a phone with the
    added value. *)
Theorem add_phone_then_find_phone (raw : str) (self : Record.t) :
  ten_digits raw ->
  Record.find_phone raw (snd (Record.add_phone raw self))
  = Some (Phone.mk raw).
Proof.
  intros Hv. rewrite add_phone_eq, (Phone_init_ok _ Hv).
  unfold Record.find_phone; simpl.
  induction (Record.phones self) as [|q l IH]; simpl.
  - rewrite str_eqb_refl; reflexivity.
  - destruct (str_eqb (Phone.value q) raw) eqn:Hq; [|exact IH].
    apply str_eqb_eq in Hq. destruct q; simpl in Hq; subst; reflexivity.
Qed.

Lemma add_phone_then_find_phone_witness :
  Record.find_phone (lit "1111111111")
    (snd (Record.add_phone (lit "1111111111") record_with_birthday))
  = Some (Phone.mk (lit "1111111111")).
Proof.
  apply (add_phone_then_find_phone (lit "1111111111") record_with_birthday).
  exact ten_digits_1111111111.
Defined.

Lemma list_index_first (before after : list Phone.t) (x : Phone.t) :
  ~ In x before ->
  list_index (before ++ x :: after) x = Ok (len before).
Proof.
  induction before as [|y before IH]; simpl; intros Hn.
  - rewrite (proj2 (Phone_eq_true x x) eq_refl); reflexivity.
  - destruct (Phone.eq y x) eqn:Heq.
    + apply Phone_eq_true in Heq; subst y. exfalso; apply Hn; left; reflexivity.
    + rewrite IH by (intros H; apply Hn; right; exact H).
      cbn [bind]. f_equal. unfold len; simpl List.length. lia.
Qed.

Lemma list_setitem_at (before after : list Phone.t) (x v : Phone.t) :
  list_setitem (before ++ x :: after) (len before) v
  = Ok (before ++ v :: after).
Proof.
  rewrite list_setitem_ok.
  - unfold len. rewrite Nat2Z.id.
    rewrite firstn_app, firstn_all, Nat.sub_diag, app_nil_r.
    replace (S (List.length before))
      with (List.length before + 1)%nat by lia.
    rewrite skipn_app, skipn_all2 by lia.
    replace (List.length before + 1 - List.length before)%nat with 1%nat
      by lia.
    reflexivity.
  - unfold len. rewrite length_app; simpl List.length. lia.
Qed.

(** X5.  With both numbers well formed, [edit_phone] puts the new phone in
    the place of the first phone equal to the old one and leaves every other
    phone, the name and the birthday as they were; editing a number to
    itself changes nothing. *)
Theorem edit_phone_replaces_first (old new : str) (self : Record.t)
  (before after : list Phone.t) :
  ten_digits old -> ten_digits new ->
  Record.phones self = before ++ Phone.mk old :: after ->
  ~ In (Phone.mk old) before ->
  Record.edit_phone old new self
  = (Ok tt, Record.mk (Record.name self)
              (before ++ Phone.mk new :: after) (Record.birthday self))
  /\ Record.edit_phone old old self = (Ok tt, self).
Proof.
  intros Ho Hn Hl Hb.
  rewrite !edit_phone_eq, (Phone_init_ok _ Ho), (Phone_init_ok _ Hn), Hl.
  rewrite (list_index_first _ _ _ Hb).
  assert (Hneg : (len before <? 0) = false).
  { apply Z.ltb_ge; unfold len; lia. }
  rewrite Hneg, !list_setitem_at. split; [reflexivity|].
  rewrite <- Hl. destruct self; reflexivity.
Qed.

Lemma edit_phone_replaces_first_witness :
  Record.edit_phone (lit "0987654321") (lit "1111111111") record_with_birthday
  = (Ok tt,
     Record.mk (Name.mk (lit "Ann"))
       [Phone.mk (lit "1111111111"); Phone.mk (lit "1111111111")]
       (Some (Birthday.mk (date.mk 1990 6 8)))).
Proof.
  refine (proj1 (edit_phone_replaces_first (lit "0987654321")
                   (lit "1111111111") record_with_birthday
                   [Phone.mk (lit "1111111111")] [] _ _ _ _)).
  - split; [reflexivity|]. intros c Hin; simpl in Hin.
    repeat (destruct Hin as [<-|Hin]; [reflexivity|]); contradiction.
  - exact ten_digits_1111111111.
  - reflexivity.
  - simpl; intros [H | []]; discriminate H.
Defined.

Lemma list_remove_last (l : list Phone.t) (x : Phone.t) :
  ~ In x l -> list_remove (l ++ [x]) x = Ok l.
Proof.
  induction l as [|y l IH]; simpl; intros Hn.
  - rewrite (proj2 (Phone_eq_true x x) eq_refl); reflexivity.
  - destruct (Phone.eq y x) eqn:Heq.
    + apply Phone_eq_true in Heq; subst y. exfalso; apply Hn; left; reflexivity.
    + rewrite IH by (intros H; apply Hn; right; exact H). reflexivity.
Qed.

(** X6.  Adding a number that the record does not hold and removing it again
    gives the record back. *)
Theorem add_phone_then_remove_phone (raw : str) (self : Record.t) :
  ten_digits raw -> ~ In (Phone.mk raw) (Record.phones self) ->
  Record.remove_phone raw (snd (Record.add_phone raw self)) = (Ok tt, self).
Proof.
  intros Hv Hn.
  rewrite add_phone_eq, remove_phone_eq, (Phone_init_ok _ Hv).
  cbn [snd Record.phones Record.name Record.birthday].
  rewrite (list_remove_last _ _ Hn). destruct self; reflexivity.
Qed.

Lemma add_phone_then_remove_phone_witness :
  Record.remove_phone (lit "1111111111")
    (snd (Record.add_phone (lit "1111111111")
            (Record.mk (Name.mk (lit "Ann")) [] None)))
  = (Ok tt, Record.mk (Name.mk (lit "Ann")) [] None).
Proof.
  apply (add_phone_then_remove_phone (lit "1111111111")
           (Record.mk (Name.mk (lit "Ann")) [] None)).
  - exact ten_digits_1111111111.
  - intros [].
Defined.

(** How a mutating method leaves the record when it raises, and its name in
    every case. *)
Lemma mutation_frame (self : Record.t) (m : Record.method unit) :
  (exists phone, m = Record.add_phone phone)
  \/ (exists phone, m = Record.remove_phone phone)
  \/ (exists phone new_phone, m = Record.edit_phone phone new_phone)
  \/ (exists birthday, m = Record.add_birthday birthday) ->
  Record.name (snd (m self)) = Record.name self
  /\ (forall e, fst (m self) = Raise e -> snd (m self) = self).
Proof.
  intros [[phone ->] | [[phone ->] | [[phone [new_phone ->]] | [b ->]]]].
  - rewrite add_phone_eq. destruct (Phone.init phone); simpl;
      split; try reflexivity; discriminate.
  - rewrite remove_phone_eq. destruct (Phone.init phone) as [p|]; simpl;
      [|split; reflexivity].
    destruct (list_remove _ p); simpl; split; try reflexivity; discriminate.
  - rewrite edit_phone_eq. destruct (Phone.init phone) as [p|]; simpl;
      [|split; reflexivity].
    destruct (list_index _ p) as [i|]; simpl; [|split; reflexivity].
    destruct (i <? 0); simpl; [split; reflexivity|].
    destruct (Phone.init new_phone) as [q|]; simpl; [|split; reflexivity].
    destruct (list_setitem _ i q); simpl; split; try reflexivity; discriminate.
  - rewrite add_birthday_eq. destruct (Birthday.init b); simpl;
      split; try reflexivity; discriminate.
Qed.

(** X7.  No method changes the name of a record: after [add_phone],
    [remove_phone], [edit_phone] and [add_birthday], returned or raised, the
    name is the one the record was created with. *)
Theorem Record_name_immutable (self : Record.t) :
  (forall phone,
     Record.name (snd (Record.add_phone phone self)) = Record.name self)
  /\ (forall phone,
        Record.name (snd (Record.remove_phone phone self)) = Record.name self)
  /\ (forall phone new_phone,
        Record.name (snd (Record.edit_phone phone new_phone self))
        = Record.name self)
  /\ (forall birthday,
        Record.name (snd (Record.add_birthday birthday self))
        = Record.name self).
Proof.
  repeat split; intros; apply mutation_frame; eauto 6.
Qed.

(** X8.  [add_birthday] with the text DD.MM.YYYY of a real date stores that
    date, whatever birthday the record had, and leaves the name and the
    phones; with a text that [Birthday] refuses it raises
    [InvalidBirthdayFormatError]. *)
Theorem add_birthday_sets (self : Record.t) :
  (forall d,
     valid_date d ->
     Record.add_birthday (rendering d) self
     = (Ok tt, Record.mk (Record.name self) (Record.phones self)
                 (Some (Birthday.mk d))))
  /\ (forall s e,
        fst (Record.add_birthday s self) = Raise e ->
        e = InvalidBirthdayFormatError).
Proof.
  split.
  - intros d Hv. rewrite add_birthday_eq.
    unfold Birthday.init, rendering. rewrite (strptime_rendering d Hv).
    reflexivity.
  - intros s e. rewrite add_birthday_eq.
    destruct (Birthday.init s) as [b|e'] eqn:Hb; simpl; [discriminate|].
    intros H; inversion H; subst e'. exact (Birthday_init_raise _ _ Hb).
Qed.

Lemma valid_date_2024_02_29 : valid_date (date.mk 2024 2 29).
Proof. unfold valid_date; simpl; vm_compute; repeat split; discriminate. Qed.

Lemma add_birthday_sets_witness :
  Record.add_birthday (rendering (date.mk 2024 2 29)) record_with_birthday
  = (Ok tt,
     Record.mk (Name.mk (lit "Ann"))
       [Phone.mk (lit "1111111111"); Phone.mk (lit "0987654321")]
       (Some (Birthday.mk (date.mk 2024 2 29)))).
Proof.
  apply (proj1 (add_birthday_sets record_with_birthday)).
  exact valid_date_2024_02_29.
Defined.

(** ** AddressBook: adding, deleting and listing *)

Definition keys (self : AddressBook.t) : list str :=
  map fst (AddressBook.data self).

Lemma dict_contains_false (d : dict) (k : str) :
  dict_contains d k = false <-> ~ In k (map fst d).
Proof.
  rewrite <- dict_contains_In. destruct (dict_contains d k); split; congruence.
Qed.

Lemma dict_set_absent (d : dict) (k : str) (v : Record.t) :
  ~ In k (map fst d) -> dict_set d k v = d ++ [(k, v)].
Proof.
  induction d as [|[k' v'] d IH]; simpl; intros Hn; [reflexivity|].
  destruct (str_eqb k' k) eqn:Hk.
  - apply str_eqb_eq in Hk; subst. exfalso; apply Hn; left; reflexivity.
  - rewrite IH by (intros H; apply Hn; right; exact H). reflexivity.
Qed.

Lemma dict_set_present (d : dict) (k : str) (v : Record.t) :
  In k (map fst d) ->
  exists before old after,
    d = before ++ (k, old) :: after
    /\ ~ In k (map fst before)
    /\ dict_set d k v = before ++ (k, v) :: after.
Proof.
  induction d as [|[k' v'] d IH]; simpl; [tauto|].
  intros Hin. destruct (str_eqb k' k) eqn:Hk.
  - apply str_eqb_eq in Hk; subst k'.
    exists [], v', d; repeat split; auto.
  - assert (Hne : k' <> k).
    { intros ->; rewrite str_eqb_refl in Hk; discriminate. }
    destruct Hin as [Heq | Hin]; [contradiction|].
    destruct (IH Hin) as [before [old [after [Hd [Hn Hs]]]]].
    exists ((k', v') :: before), old, after; repeat split.
    + simpl; rewrite Hd; reflexivity.
    + simpl; intros [H | H]; [contradiction | exact (Hn H)].
    + simpl; rewrite Hs; reflexivity.
Qed.

Lemma dict_set_keys (d : dict) (k : str) (v : Record.t) :
  In k (map fst d) -> map fst (dict_set d k v) = map fst d.
Proof.
  intros Hin. destruct (dict_set_present d k v Hin)
    as [before [old [after [Hd [_ Hs]]]]].
  rewrite Hs, Hd, !map_app; reflexivity.
Qed.

Lemma find_other_key (d : dict) (k other : str) (v : Record.t) :
  other <> k ->
  dict_contains (dict_set d k v) other = dict_contains d other
  /\ dict_get (dict_set d k v) other = dict_get d other.
Proof.
  intros Hne. unfold dict_contains, dict_get.
  induction d as [|[k' v'] d [IH1 IH2]]; simpl.
  - assert (Hk : str_eqb k other = false).
    { destruct (str_eqb k other) eqn:E; [|reflexivity].
      apply str_eqb_eq in E; congruence. }
    rewrite Hk; auto.
  - destruct (str_eqb k' k) eqn:Hk; simpl.
    + apply str_eqb_eq in Hk; subst k'.
      assert (Hk : str_eqb k other = false).
      { destruct (str_eqb k other) eqn:E; [|reflexivity].
        apply str_eqb_eq in E; congruence. }
      rewrite Hk; auto.
    + destruct (str_eqb k' other); simpl; auto.
Qed.

(** X9.  [add_record] keeps each key once.  A record with a new name goes
    to the end of [all_records]; a record whose name is already a key takes
    the place of the record stored under it, and the number and order of
    the keys stay. *)
Theorem add_record_spec (record : Record.t) (self : AddressBook.t) :
  (NoDup (keys self) -> NoDup (keys (AddressBook.add_record record self)))
  /\ (~ In (Name.value (Record.name record)) (keys self) ->
      AddressBook.all_records (AddressBook.add_record record self)
      = AddressBook.all_records self ++ [record])
  /\ (In (Name.value (Record.name record)) (keys self) ->
      keys (AddressBook.add_record record self) = keys self
      /\ exists before old after,
           AddressBook.data self
           = before ++ (Name.value (Record.name record), old) :: after
           /\ ~ In (Name.value (Record.name record)) (map fst before)
           /\ AddressBook.data (AddressBook.add_record record self)
              = before ++ (Name.value (Record.name record), record) :: after).
Proof.
  unfold keys, AddressBook.all_records, AddressBook.add_record; simpl.
  split; [apply dict_set_NoDup|]. split.
  - intros Hn. rewrite (dict_set_absent _ _ _ Hn), map_app. reflexivity.
  - intros Hin. split; [apply dict_set_keys; exact Hin|].
    apply dict_set_present; exact Hin.
Qed.

Lemma add_record_spec_witness :
  AddressBook.all_records
    (AddressBook.add_record record_with_birthday AddressBook.empty)
  = [record_with_birthday]
  /\ keys (AddressBook.add_record record_1111111111 book_of_one)
     = keys book_of_one.
Proof.
  split.
  - apply (proj1 (proj2 (add_record_spec record_with_birthday
                           AddressBook.empty))).
    intros [].
  - apply (proj1 (proj2 (proj2 (add_record_spec record_1111111111
                                  book_of_one)) (or_introl eq_refl))).
Defined.

(** X10.  [add_record] does not touch the other names: [find] for a name
    different from the name of the added record answers as before. *)
Theorem add_record_other_name (record : Record.t) (self : AddressBook.t)
  (other : str) :
  other <> Name.value (Record.name record) ->
  AddressBook.find other (AddressBook.add_record record self)
  = AddressBook.find other self.
Proof.
  intros Hne. unfold AddressBook.find, AddressBook.add_record; simpl.
  destruct (find_other_key (AddressBook.data self)
              (Name.value (Record.name record)) other record Hne)
    as [-> ->].
  reflexivity.
Qed.

Lemma add_record_other_name_witness :
  AddressBook.find (lit "Bob")
    (AddressBook.add_record record_with_birthday AddressBook.empty)
  = AddressBook.find (lit "Bob") AddressBook.empty.
Proof.
  apply (add_record_other_name record_with_birthday AddressBook.empty
           (lit "Bob")).
  discriminate.
Defined.

Lemma dict_pop_keys (d : dict) (k : str) :
  ~ In k (map fst (dict_pop d k)).
Proof.
  unfold dict_pop. rewrite in_map_iff. intros [[k' v] [Hk Hin]].
  simpl in Hk; subst k'. apply filter_In in Hin. destruct Hin as [_ H].
  simpl in H. rewrite str_eqb_refl in H. discriminate.
Qed.

Lemma dict_pop_other (d : dict) (k other : str) :
  other <> k ->
  dict_contains (dict_pop d k) other = dict_contains d other
  /\ dict_get (dict_pop d k) other = dict_get d other.
Proof.
  intros Hne. unfold dict_contains, dict_get, dict_pop.
  induction d as [|[k' v'] d [IH1 IH2]]; simpl; [auto|].
  destruct (str_eqb k' k) eqn:Hk; simpl.
  - apply str_eqb_eq in Hk; subst k'.
    assert (Hk : str_eqb k other = false).
    { destruct (str_eqb k other) eqn:E; [|reflexivity].
      apply str_eqb_eq in E; congruence. }
    rewrite Hk; simpl. auto.
  - destruct (str_eqb k' other); simpl; auto.
Qed.

Lemma dict_pop_absent (d : dict) (k : str) :
  ~ In k (map fst d) -> dict_pop d k = d.
Proof.
  unfold dict_pop. induction d as [|[k' v'] d IH]; simpl; intros Hn;
    [reflexivity|].
  destruct (str_eqb k' k) eqn:Hk; simpl.
  - apply str_eqb_eq in Hk; subst. exfalso; apply Hn; left; reflexivity.
  - rewrite IH by (intros H; apply Hn; right; exact H). reflexivity.
Qed.

(** With each key once, [pop] takes out the one entry of the key. *)
Lemma dict_pop_entry (before after : dict) (k : str) (v : Record.t) :
  NoDup (map fst (before ++ (k, v) :: after)) ->
  dict_pop (before ++ (k, v) :: after) k = before ++ after.
Proof.
  intros Hnd. rewrite map_app in Hnd; simpl in Hnd.
  pose proof (NoDup_remove_2 _ _ _ Hnd) as Hn.
  unfold dict_pop. rewrite filter_app; simpl. rewrite str_eqb_refl; simpl.
  fold (dict_pop before k). fold (dict_pop after k).
  rewrite !dict_pop_absent; [reflexivity | |];
    intros H; apply Hn; apply in_or_app; auto.
Qed.

(** X11.  [delete] raises [NoRecordError] exactly when the name is not a
    key.  Otherwise the entry of the name is taken out and the others keep
    their order: [find] then fails for the name and answers as before for
    every other name. *)
Theorem delete_spec (name : str) (self : AddressBook.t) :
  (AddressBook.delete name self = Raise NoRecordError
   <-> ~ In name (keys self))
  /\ (forall e, AddressBook.delete name self = Raise e -> e = NoRecordError)
  /\ (forall self',
        AddressBook.delete name self = Ok self' ->
        AddressBook.find name self' = Raise NoRecordError
        /\ (forall other, other <> name ->
              AddressBook.find other self' = AddressBook.find other self))
  /\ (forall before record after,
        NoDup (keys self) ->
        AddressBook.data self = before ++ (name, record) :: after ->
        AddressBook.delete name self = Ok (AddressBook.mk (before ++ after))).
Proof.
  unfold AddressBook.delete, keys.
  split; [|split; [|split]].
  - rewrite <- dict_contains_false.
    destruct (dict_contains _ name); simpl; split; congruence.
  - intros e. destruct (dict_contains _ name); simpl; congruence.
  - intros self'. destruct (dict_contains _ name) eqn:Hc; simpl;
      [|discriminate].
    intros H; inversion H; subst self'; clear H.
    unfold AddressBook.find; simpl. split.
    + rewrite (proj2 (dict_contains_false _ _) (dict_pop_keys _ name)).
      reflexivity.
    + intros other Hne.
      destruct (dict_pop_other (AddressBook.data self) name other Hne)
        as [-> ->].
      reflexivity.
  - intros before record after Hnd Hd.
    assert (Hc : dict_contains (AddressBook.data self) name = true).
    { apply dict_contains_In. rewrite Hd, map_app.
      apply in_or_app; right; left; reflexivity. }
    rewrite Hc; simpl. rewrite Hd in *. rewrite dict_pop_entry by exact Hnd.
    reflexivity.
Qed.

Lemma delete_spec_witness :
  AddressBook.delete (lit "Ann") book_of_one = Ok AddressBook.empty
  /\ AddressBook.delete (lit "Bob") book_of_one = Raise NoRecordError.
Proof.
  split.
  - apply (proj2 (proj2 (proj2 (delete_spec (lit "Ann") book_of_one)))
             [] record_with_birthday []).
    + simpl; constructor; [tauto | constructor].
    + reflexivity.
  - apply (proj1 (delete_spec (lit "Bob") book_of_one)).
    simpl; intros [H | []]; discriminate H.
Defined.

(** X12.  Deleting the name of a record that was just added under a new
    name gives the book back. *)
Theorem add_record_then_delete (record : Record.t) (self : AddressBook.t) :
  ~ In (Name.value (Record.name record)) (keys self) ->
  AddressBook.delete (Name.value (Record.name record))
    (AddressBook.add_record record self)
  = Ok self.
Proof.
  unfold keys, AddressBook.delete, AddressBook.add_record; simpl.
  intros Hn. rewrite dict_contains_set; simpl.
  rewrite (dict_set_absent _ _ _ Hn).
  unfold dict_pop. rewrite filter_app; simpl. rewrite str_eqb_refl; simpl.
  fold (dict_pop (AddressBook.data self) (Name.value (Record.name record))).
  rewrite (dict_pop_absent _ _ Hn), app_nil_r. destruct self; reflexivity.
Qed.

Lemma add_record_then_delete_witness :
  AddressBook.delete (lit "Ann")
    (AddressBook.add_record record_with_birthday AddressBook.empty)
  = Ok AddressBook.empty.
Proof.
  apply (add_record_then_delete record_with_birthday AddressBook.empty).
  intros [].
Defined.

(** X13.  [find_phones] raises [NoRecordError] exactly when the name is not
    a key, never runs into [None], and otherwise returns the phones of the
    record stored under the name. *)
Theorem find_phones_spec (name : str) (self : AddressBook.t) :
  (AddressBook.find_phones name self = Fails (Exn NoRecordError)
   <-> ~ In name (keys self))
  /\ (forall f, AddressBook.find_phones name self = Fails f ->
                f = Exn NoRecordError)
  /\ (forall record,
        NoDup (keys self) -> In (name, record) (AddressBook.data self) ->
        AddressBook.find_phones name self
        = Returns (Record.phones record)).
Proof.
  unfold AddressBook.find_phones, AddressBook.find, keys.
  split; [|split].
  - rewrite <- dict_contains_false.
    destruct (dict_contains _ name) eqn:Hc; simpl.
    + destruct (dict_get_contains _ _ Hc) as [v ->].
      split; [discriminate | congruence].
    + split; [reflexivity | congruence].
  - intros f. destruct (dict_contains _ name) eqn:Hc; simpl.
    + destruct (dict_get_contains _ _ Hc) as [v ->]. discriminate.
    + intros H; inversion H; reflexivity.
  - intros record Hnd Hin.
    assert (Hc : dict_contains (AddressBook.data self) name = true).
    { apply dict_contains_In, in_map_iff; exists (name, record); auto. }
    rewrite Hc; simpl. rewrite (dict_get_In _ _ _ Hnd Hin). reflexivity.
Qed.

Lemma find_phones_spec_witness :
  AddressBook.find_phones (lit "Ann") book_of_one
  = Returns [Phone.mk (lit "1111111111"); Phone.mk (lit "0987654321")]
  /\ AddressBook.find_phones (lit "Bob") book_of_one
     = Fails (Exn NoRecordError).
Proof.
  split.
  - apply (proj2 (proj2 (find_phones_spec (lit "Ann") book_of_one))
             record_with_birthday).
    + simpl; constructor; [tauto | constructor].
    + left; reflexivity.
  - apply (proj1 (find_phones_spec (lit "Bob") book_of_one)).
    simpl; intros [H | []]; discriminate H.
Defined.

(** ** Upcoming birthdays: order of dates, window, order of the result *)

Lemma days_before_year_succ (y : Z) :
  date._days_before_year (y + 1)
  = date._days_before_year y + 365 + (if date._is_leap y then 1 else 0).
Proof.
  unfold date._days_before_year, date._is_leap.
  replace (y + 1 - 1) with y by lia.
  repeat match goal with
         | |- context [?x =? ?z] => destruct (Z.eqb_spec x z)
         end; cbn [andb orb negb]; Z.div_mod_to_equations; lia.
Qed.

Lemma days_before_year_mono (y y' : Z) :
  y <= y' -> date._days_before_year y <= date._days_before_year y'.
Proof.
  intros H. unfold date._days_before_year. Z.div_mod_to_equations. lia.
Qed.

Definition month_order_ok (leap : bool) (m m' : Z) : bool :=
  negb (m <? m')
  || (item date._DAYS_BEFORE_MONTH m
      + (if (m >? 2) && leap then 1 else 0)
      + (if (m =? 2) && leap then 29 else item date._DAYS_IN_MONTH m)
      <=? item date._DAYS_BEFORE_MONTH m'
          + (if (m' >? 2) && leap then 1 else 0)).

Lemma month_order_table :
  forallb (fun leap =>
    forallb (fun k =>
      forallb (fun k' => month_order_ok leap (Z.of_nat k) (Z.of_nat k'))
        (seq 1 12)) (seq 1 12)) [true; false] = true.
Proof. vm_compute; reflexivity. Qed.

Lemma days_before_month_mono (y m m' : Z) :
  1 <= m -> m < m' -> m' <= 12 ->
  date._days_before_month y m + date._days_in_month y m
  <= date._days_before_month y m'.
Proof.
  intros H1 Hlt H12. pose proof month_order_table as H.
  rewrite forallb_forall in H.
  assert (Hl : In (date._is_leap y) [true; false]).
  { destruct (date._is_leap y); simpl; auto. }
  apply H in Hl. rewrite forallb_forall in Hl.
  specialize (Hl (Z.to_nat m) ltac:(apply in_seq; lia)).
  rewrite forallb_forall in Hl.
  specialize (Hl (Z.to_nat m') ltac:(apply in_seq; lia)).
  rewrite !Z2Nat.id in Hl by lia. unfold month_order_ok in Hl.
  apply orb_true_iff in Hl. destruct Hl as [Hl | Hl].
  - apply negb_true_iff, Z.ltb_ge in Hl. lia.
  - apply Z.leb_le in Hl.
    unfold date._days_before_month, date._days_in_month. lia.
Qed.

(** On real dates, [<] is the order of the ordinals. *)
Lemma date_lt_ordinal (a b : date.t) :
  valid_date a -> valid_date b ->
  date.lt a b = (date.toordinal a <? date.toordinal b).
Proof.
  intros [Hya [Hma Hda]] [Hyb [Hmb Hdb]].
  destruct (days_before_month_bounds (date.year a) (date.month a) Hma)
    as [Ha0 Ha1].
  destruct (days_before_month_bounds (date.year b) (date.month b) Hmb)
    as [Hb0 Hb1].
  pose proof (days_before_year_succ (date.year a)) as Sa.
  pose proof (days_before_year_succ (date.year b)) as Sb.
  unfold date.lt, date.toordinal, date._ymd2ord.
  destruct (Z.eqb_spec (date.year a) (date.year b)) as [Ey | Ey].
  - rewrite <- Ey in *.
    destruct (Z.eqb_spec (date.month a) (date.month b)) as [Em | Em].
    + rewrite <- Em.
      destruct (Z.ltb_spec (date.day a) (date.day b));
        symmetry; [apply Z.ltb_lt | apply Z.ltb_ge]; lia.
    + destruct (Z.ltb_spec (date.month a) (date.month b)) as [Hm | Hm].
      * pose proof (days_before_month_mono (date.year a) _ _
                      (proj1 Hma) Hm (proj2 Hmb)).
        symmetry; apply Z.ltb_lt; lia.
      * assert (Hm' : date.month b < date.month a) by lia.
        pose proof (days_before_month_mono (date.year a) _ _
                      (proj1 Hmb) Hm' (proj2 Hma)).
        symmetry; apply Z.ltb_ge; lia.
  - destruct (Z.ltb_spec (date.year a) (date.year b)) as [Hy | Hy].
    + pose proof (days_before_year_mono (date.year a + 1) (date.year b)
                    ltac:(lia)).
      symmetry; apply Z.ltb_lt; lia.
    + pose proof (days_before_year_mono (date.year b + 1) (date.year a)
                    ltac:(lia)).
      symmetry; apply Z.ltb_ge; lia.
Qed.

(** The congratulation date is a real date, not before today. *)
Lemma congrats_date_of_not_before (today bd c : date.t) :
  valid_date today ->
  AddressBook.congrats_date_of today bd = Ok c ->
  valid_date c /\ date.toordinal today <= date.toordinal c.
Proof.
  intros Ht. unfold AddressBook.congrats_date_of.
  destruct (date.new (date.year today) (date.month bd) (date.day bd))
    as [this|] eqn:Hthis; cbn [bind]; [|discriminate].
  destruct (date_new_inv _ _ _ _ Hthis) as [-> Hv].
  destruct (date.lt _ today) eqn:Hlt.
  - intros Hc. destruct (date_new_inv _ _ _ _ Hc) as [-> Hvc].
    split; [exact Hvc|].
    assert (Hlt' : date.lt today
                     (date.mk (date.year today + 1) (date.month bd)
                        (date.day bd)) = true).
    { unfold date.lt; simpl.
      destruct (Z.eqb_spec (date.year today) (date.year today + 1)); [lia|].
      apply Z.ltb_lt; lia. }
    rewrite (date_lt_ordinal _ _ Ht Hvc) in Hlt'.
    apply Z.ltb_lt in Hlt'. lia.
  - intros Hc; inversion Hc; subst c. split; [exact Hv|].
    rewrite (date_lt_ordinal _ _ Hv Ht) in Hlt. apply Z.ltb_ge in Hlt.
    exact Hlt.
Qed.


Lemma valid_date_2024_06_08 : valid_date (date.mk 2024 6 8).
Proof. unfold valid_date; simpl; vm_compute; repeat split; discriminate. Qed.


(** Whether the loop adds an entry for a record. *)
Definition qualifies (today : date.t) (record : Record.t) : bool :=
  match Record.birthday record with
  | None => false
  | Some b =>
      match AddressBook.congrats_date_of today (Birthday.value b) with
      | Ok c =>
          match AddressBook.weekend_shift c with
          | Ok c' => AddressBook.in_upcoming_range today c'
          | Raise _ => false
          end
      | Raise _ => false
      end
  end.

Lemma entries_of_users (pads_year : bool) (today : date.t)
  (records : list Record.t) (es : list upcoming) :
  entries_of pads_year today records = Ok es ->
  map user es = filter (qualifies today) records.
Proof.
  revert es; induction records as [|r records IH]; intros es; simpl.
  - intros H; inversion H; reflexivity.
  - unfold entry_of, qualifies.
    destruct (Record.birthday r) as [b|]; cbn [bind].
    + destruct (AddressBook.congrats_date_of today (Birthday.value b))
        as [c|]; cbn [bind]; [|discriminate].
      destruct (AddressBook.weekend_shift c) as [c'|]; cbn [bind];
        [|discriminate].
      destruct (entries_of pads_year today records) as [es'|]; cbn [bind];
        [|destruct (AddressBook.in_upcoming_range today c'); discriminate].
      destruct (AddressBook.in_upcoming_range today c');
        intros H; inversion H; subst es; simpl; rewrite (IH es' eq_refl);
        reflexivity.
    + destruct (entries_of pads_year today records) as [es'|]; cbn [bind];
        [|discriminate].
      intros H; inversion H; subst es. apply IH; reflexivity.
Qed.

(** X15.  The result has one entry for each record whose shifted
    congratulation date is in the window, in the order of [all_records];
    records without a birthday have none. *)
Theorem upcoming_order (pads_year : bool) (today : date.t)
  (self : AddressBook.t) (res : list upcoming) :
  AddressBook.get_upcoming_birthdays pads_year today self = Ok res ->
  map user res = filter (qualifies today) (AddressBook.all_records self)
  /\ (forall record, Record.birthday record = None ->
                     qualifies today record = false).
Proof.
  intros Hres. apply get_upcoming_birthdays_entries in Hres.
  split; [apply (entries_of_users _ _ _ _ Hres)|].
  intros record Hb. unfold qualifies. rewrite Hb. reflexivity.
Qed.

Lemma upcoming_order_witness :
  map user [mk_upcoming record_with_birthday (lit "2024.06.10")]
  = filter (qualifies (date.mk 2024 6 8)) (AddressBook.all_records book_of_one).
Proof.
  apply (proj1 (upcoming_order true (date.mk 2024 6 8) book_of_one
                  [mk_upcoming record_with_birthday (lit "2024.06.10")]
                  eq_refl)).
Defined.

(** ** Upcoming birthdays: a birthday on 29 February *)

Lemma leap_year_next_not_leap (y : Z) :
  date._is_leap y = true -> date._is_leap (y + 1) = false.
Proof.
  unfold date._is_leap. intros H. apply andb_true_iff in H.
  destruct H as [H _]. apply Z.eqb_eq in H.
  destruct (Z.eqb_spec ((y + 1) mod 4) 0) as [E | E]; [|reflexivity].
  exfalso. Z.div_mod_to_equations. lia.
Qed.

Lemma date_new_leap_day (y : Z) :
  date._is_leap y = false -> date.new y 2 29 = Raise ValueError.
Proof.
  intros HL. unfold date.new, date._days_in_month. rewrite HL.
  change (2 =? 2) with true. cbn [andb].
  change (item date._DAYS_IN_MONTH 2) with 28.
  change (29 <=? 28) with false. rewrite andb_false_r.
  destruct (negb _); [reflexivity|]. destruct (negb _); reflexivity.
Qed.

Lemma congrats_date_of_raise (today bd : date.t) (e : exn) :
  AddressBook.congrats_date_of today bd = Raise e -> e = ValueError.
Proof.
  unfold AddressBook.congrats_date_of.
  destruct (date.new (date.year today) _ _) as [this|e'] eqn:H1; cbn [bind].
  - destruct (date.lt this today); [|discriminate].
    intros H; apply (date_new_raise _ _ _ _ H).
  - intros H; inversion H; subst. apply (date_new_raise _ _ _ _ H1).
Qed.

Lemma congrats_date_of_leap_day (today bd : date.t) :
  date.month bd = 2 -> date.day bd = 29 ->
  date._is_leap (date.year today) = false
  \/ date.lt (date.mk (date.year today) 2 29) today = true ->
  AddressBook.congrats_date_of today bd = Raise ValueError.
Proof.
  intros Hm Hd Hcase. unfold AddressBook.congrats_date_of. rewrite Hm, Hd.
  destruct (date._is_leap (date.year today)) eqn:HL.
  - destruct Hcase as [Hc | Hc]; [discriminate|].
    destruct (date.new (date.year today) 2 29) as [this|e] eqn:Hn;
      cbn [bind].
    + destruct (date_new_inv _ _ _ _ Hn) as [-> _]. rewrite Hc.
      apply date_new_leap_day, leap_year_next_not_leap; exact HL.
    + destruct (date_new_raise _ _ _ _ Hn) as [-> _]; reflexivity.
  - rewrite (date_new_leap_day _ HL). reflexivity.
Qed.

Lemma upcoming_loop_leap_day (pads_year : bool) (today : date.t)
  (records : list Record.t) (acc : list upcoming) (record : Record.t)
  (b : Birthday.t) :
  In record records -> Record.birthday record = Some b ->
  AddressBook.congrats_date_of today (Birthday.value b) = Raise ValueError ->
  AddressBook.upcoming_loop pads_year today records acc = Raise ValueError.
Proof.
  intros Hin Hb Hraise. revert acc.
  induction records as [|r records IH]; intros acc; [destruct Hin|].
  simpl.
  destruct (Record.birthday r) as [rb|] eqn:Hrb.
  - destruct (AddressBook.congrats_date_of today (Birthday.value rb))
      as [c|e] eqn:Hc; cbn [bind].
    + assert (Htail : In record records).
      { destruct Hin as [-> | Hin]; [|exact Hin].
        rewrite Hb in Hrb; inversion Hrb; subst rb.
        rewrite Hraise in Hc; discriminate. }
      destruct (AddressBook.weekend_shift c) as [c'|e] eqn:Hs; cbn [bind].
      * destruct (AddressBook.in_upcoming_range today c');
          apply IH; exact Htail.
      * exfalso.
        assert (Hv : valid_date c).
        { revert Hc. unfold AddressBook.congrats_date_of.
          destruct (date.new (date.year today) _ _) as [this|] eqn:H1;
            cbn [bind]; [|discriminate].
          destruct (date.lt this today).
          - intros H; apply (date_new_inv _ _ _ _ H).
          - intros H; inversion H; subst c.
            apply (date_new_inv _ _ _ _ H1). }
        destruct (weekend_shift_ok c Hv) as [c' [Hc' _]].
        rewrite Hc' in Hs; discriminate.
    + rewrite (congrats_date_of_raise _ _ _ Hc). reflexivity.
  - apply IH. destruct Hin as [-> | Hin]; [|exact Hin].
    rewrite Hb in Hrb; discriminate.
Qed.

(** X16.  One record with a birthday on 29 February makes the whole query
    raise [ValueError] when this year is not a leap year or 29 February of
    this year is before today; the [birthdays] command then answers with the
    message for [ValueError] and no list. *)
Theorem leap_day_birthday_raises (pads_year : bool) (today : date.t)
  (self : AddressBook.t) (record : Record.t) (b : Birthday.t)
  (args : list str) :
  In record (AddressBook.all_records self) ->
  Record.birthday record = Some b ->
  date.month (Birthday.value b) = 2 -> date.day (Birthday.value b) = 29 ->
  date._is_leap (date.year today) = false
  \/ date.lt (date.mk (date.year today) 2 29) today = true ->
  AddressBook.get_upcoming_birthdays pads_year today self = Raise ValueError
  /\ birthdays pads_year today args self
     = (lit "ValueError. " ++ DEFAULT_ERROR_MESSAGE, self).
Proof.
  intros Hin Hb Hm Hd Hcase.
  assert (H : AddressBook.get_upcoming_birthdays pads_year today self
              = Raise ValueError).
  { unfold AddressBook.get_upcoming_birthdays.
    apply (upcoming_loop_leap_day _ _ _ _ record b Hin Hb).
    apply congrats_date_of_leap_day; assumption. }
  split; [exact H|].
  unfold birthdays, input_error, birthdays_func. rewrite H. reflexivity.
Qed.

Definition record_leap_day : Record.t :=
  Record.mk (Name.mk (lit "Leo")) [] (Some (Birthday.mk (date.mk 2024 2 29))).

Lemma leap_day_birthday_raises_witness :
  AddressBook.get_upcoming_birthdays true (date.mk 2025 2 27)
    (AddressBook.add_record record_leap_day book_of_one)
  = Raise ValueError
  /\ birthdays true (date.mk 2025 2 27) []
       (AddressBook.add_record record_leap_day book_of_one)
     = (lit "ValueError. " ++ DEFAULT_ERROR_MESSAGE,
        AddressBook.add_record record_leap_day book_of_one).
Proof.
  apply (leap_day_birthday_raises true (date.mk 2025 2 27)
           (AddressBook.add_record record_leap_day book_of_one)
           record_leap_day (Birthday.mk (date.mk 2024 2 29)) []).
  - right; left; reflexivity.
  - reflexivity.
  - reflexivity.
  - reflexivity.
  - left; reflexivity.
Defined.

(** ** The command functions *)

Lemma dict_update_same (d : dict) (k : str) (r : Record.t) :
  dict_get d k = Some r -> dict_update d k r = d.
Proof.
  unfold dict_get. induction d as [|[k' v'] d IH]; simpl; [reflexivity|].
  destruct (str_eqb k' k); simpl.
  - intros H; inversion H; reflexivity.
  - intros H; rewrite (IH H); reflexivity.
Qed.

Lemma dict_update_entry (before after : dict) (k : str) (r r' : Record.t) :
  ~ In k (map fst before) ->
  dict_update (before ++ (k, r) :: after) k r' = before ++ (k, r') :: after.
Proof.
  induction before as [|[k' v'] before IH]; simpl; intros Hn.
  - rewrite str_eqb_refl; reflexivity.
  - destruct (str_eqb k' k) eqn:Hk.
    + apply str_eqb_eq in Hk; subst. exfalso; apply Hn; left; reflexivity.
    + rewrite IH by (intros H; apply Hn; right; exact H). reflexivity.
Qed.

Lemma dict_update_keys (d : dict) (k : str) (r : Record.t) :
  map fst (dict_update d k r) = map fst d.
Proof.
  induction d as [|[k' v'] d IH]; simpl; [reflexivity|].
  destruct (str_eqb k' k); simpl; [|rewrite IH]; reflexivity.
Qed.

Lemma dict_update_In (d : dict) (k k0 : str) (r r0 : Record.t) :
  In (k0, r0) (dict_update d k r) ->
  (k0 = k /\ r0 = r) \/ In (k0, r0) d.
Proof.
  induction d as [|[k' v'] d IH]; simpl; [tauto|].
  destruct (str_eqb k' k) eqn:Hk; simpl.
  - apply str_eqb_eq in Hk; subst k'.
    intros [H | H]; [inversion H; subst; auto | auto].
  - intros [H | H]; [auto|]. destruct (IH H); auto.
Qed.

Lemma dict_set_In (d : dict) (k k0 : str) (r r0 : Record.t) :
  In (k0, r0) (dict_set d k r) -> (k0 = k /\ r0 = r) \/ In (k0, r0) d.
Proof.
  induction d as [|[k' v'] d IH]; simpl.
  - intros [H | []]; inversion H; auto.
  - destruct (str_eqb k' k) eqn:Hk; simpl.
    + apply str_eqb_eq in Hk; subst k'.
      intros [H | H]; [inversion H; subst; auto | auto].
    + intros [H | H]; [auto|]. destruct (IH H); auto.
Qed.

Lemma NoDup_keys_entry (before after : dict) (k : str) (r : Record.t) :
  NoDup (map fst (before ++ (k, r) :: after)) ->
  ~ In k (map fst before)
  /\ dict_contains (before ++ (k, r) :: after) k = true
  /\ dict_get (before ++ (k, r) :: after) k = Some r.
Proof.
  intros Hnd.
  assert (Hn : ~ In k (map fst before)).
  { rewrite map_app in Hnd; simpl in Hnd.
    intros H; apply (NoDup_remove_2 _ _ _ Hnd), in_or_app; auto. }
  split; [exact Hn|]. split.
  - apply dict_contains_In. rewrite map_app.
    apply in_or_app; right; left; reflexivity.
  - apply dict_get_In; [exact Hnd|].
    apply in_or_app; right; left; reflexivity.
Qed.

(** X17.  [add] with a new non-empty name and ten digits answers "Contact
    added." and puts a record with that name, that one phone and no birthday
    at the end of the book. *)
Theorem add_contact_new (name phone : str) (rest : list str)
  (self : AddressBook.t) :
  ~ In name (keys self) -> name <> [] -> ten_digits phone ->
  add_contact (name :: phone :: rest) self
  = (lit "Contact added.",
     AddressBook.mk
       (AddressBook.data self
        ++ [(name, Record.mk (Name.mk name) [Phone.mk phone] None)])).
Proof.
  unfold keys. intros Hn Hne Hv.
  unfold add_contact, input_error, add_contact_func.
  rewrite (proj2 (dict_contains_false _ _) Hn).
  assert (Hinit : Record.init name = Ok (Record.mk (Name.mk name) [] None)).
  { unfold Record.init, Name.init.
    destruct (Z.eqb_spec (len name) 0) as [H0 | H0]; [|reflexivity].
    apply len_zero_nil in H0; contradiction. }
  rewrite Hinit. unfold call_method, then_return.
  rewrite add_phone_eq, (Phone_init_ok _ Hv).
  cbn [of_result AddressBook.add_record AddressBook.data Record.name
       Name.value Record.phones Record.birthday app].
  rewrite (dict_set_absent _ _ _ Hn).
  rewrite (dict_update_entry (AddressBook.data self) [] name _ _ Hn).
  reflexivity.
Qed.

Lemma add_contact_new_witness :
  add_contact [lit "Bob"; lit "1111111111"] book_of_one
  = (lit "Contact added.",
     AddressBook.mk
       [(lit "Ann", record_with_birthday);
        (lit "Bob",
         Record.mk (Name.mk (lit "Bob")) [Phone.mk (lit "1111111111")]
           None)]).
Proof.
  apply (add_contact_new (lit "Bob") (lit "1111111111") [] book_of_one).
  - simpl; intros [H | []]; discriminate H.
  - discriminate.
  - exact ten_digits_1111111111.
Defined.

(** X18.  [add] with the name of a stored contact and ten digits answers
    "Contact updated." and puts the phone at the end of the phones of that
    contact; the other contacts and the order of the book stay. *)
Theorem add_contact_existing (name phone : str) (rest : list str)
  (self : AddressBook.t) (before after : dict) (record : Record.t) :
  NoDup (keys self) ->
  AddressBook.data self = before ++ (name, record) :: after ->
  ten_digits phone ->
  add_contact (name :: phone :: rest) self
  = (lit "Contact updated.",
     AddressBook.mk
       (before
        ++ (name, Record.mk (Record.name record)
                    (Record.phones record ++ [Phone.mk phone])
                    (Record.birthday record)) :: after)).
Proof.
  unfold keys. intros Hnd Hd Hv. rewrite Hd in Hnd.
  destruct (NoDup_keys_entry _ _ _ _ Hnd) as [Hn [Hc Hg]].
  unfold add_contact, input_error, add_contact_func, AddressBook.find.
  rewrite Hd, Hc, Hg. cbn [negb]. unfold call_method, then_return.
  rewrite add_phone_eq, (Phone_init_ok _ Hv).
  cbn [of_result AddressBook.data]. rewrite Hd.
  rewrite (dict_update_entry before after name _ _ Hn). reflexivity.
Qed.

Lemma add_contact_existing_witness :
  add_contact [lit "Ann"; lit "1111111111"] book_of_one
  = (lit "Contact updated.",
     AddressBook.mk
       [(lit "Ann",
         Record.mk (Name.mk (lit "Ann"))
           [Phone.mk (lit "1111111111"); Phone.mk (lit "0987654321");
            Phone.mk (lit "1111111111")]
           (Some (Birthday.mk (date.mk 1990 6 8))))]).
Proof.
  apply (add_contact_existing (lit "Ann") (lit "1111111111") [] book_of_one
           [] [] record_with_birthday).
  - simpl; constructor; [tauto | constructor].
  - reflexivity.
  - exact ten_digits_1111111111.
Defined.

(** X19.  [add] with a new non-empty name and a malformed phone answers with
    the message for a malformed phone, and yet the book has gained a contact
    with that name and no phones: the record is stored before the phone is
    checked. *)
Theorem add_contact_new_malformed (name phone : str) (rest : list str)
  (self : AddressBook.t) :
  ~ In name (keys self) -> name <> [] -> ~ ten_digits phone ->
  add_contact (name :: phone :: rest) self
  = (error_message (Exn InvalidPhoneNumberFormatError),
     AddressBook.mk
       (AddressBook.data self ++ [(name, Record.mk (Name.mk name) [] None)])).
Proof.
  unfold keys. intros Hn Hne Hv.
  unfold add_contact, input_error, add_contact_func.
  rewrite (proj2 (dict_contains_false _ _) Hn).
  assert (Hinit : Record.init name = Ok (Record.mk (Name.mk name) [] None)).
  { unfold Record.init, Name.init.
    destruct (Z.eqb_spec (len name) 0) as [H0 | H0]; [|reflexivity].
    apply len_zero_nil in H0; contradiction. }
  rewrite Hinit. unfold call_method, then_return.
  rewrite add_phone_eq.
  destruct (Phone.init phone) as [p|e] eqn:Hp.
  - destruct (Phone_init_inv _ _ Hp) as [_ Hok]; contradiction.
  - destruct (Phone_init_raise _ _ Hp) as [-> _].
    cbn [of_result AddressBook.add_record AddressBook.data Record.name
         Name.value].
    rewrite (dict_set_absent _ _ _ Hn).
    rewrite (dict_update_entry (AddressBook.data self) [] name _ _ Hn).
    reflexivity.
Qed.

Lemma add_contact_new_malformed_witness :
  add_contact [lit "Bob"; lit "abc"] book_of_one
  = (error_message (Exn InvalidPhoneNumberFormatError),
     AddressBook.mk
       [(lit "Ann", record_with_birthday);
        (lit "Bob", Record.mk (Name.mk (lit "Bob")) [] None)]).
Proof.
  apply (add_contact_new_malformed (lit "Bob") (lit "abc") [] book_of_one).
  - simpl; intros [H | []]; discriminate H.
  - discriminate.
  - intros [Hl _]; discriminate Hl.
Defined.

Lemma edit_phone_raises (phone new_phone : str) (self : Record.t) (e : exn) :
  fst (Record.edit_phone phone new_phone self) = Raise e ->
  e = InvalidPhoneNumberFormatError \/ e = ValueError.
Proof.
  rewrite edit_phone_eq.
  destruct (Phone.init phone) as [po|e0] eqn:Hpo; simpl.
  - destruct (list_index _ po) as [i|e1] eqn:Hi; simpl.
    + destruct (list_index_ok _ _ _ Hi) as [[H0 H1] _].
      destruct (i <? 0) eqn:Hneg; [apply Z.ltb_lt in Hneg; lia|].
      destruct (Phone.init new_phone) as [p|e2] eqn:Hp; simpl.
      * rewrite list_setitem_ok by lia; simpl; discriminate.
      * intros H; inversion H; subst e2.
        left; apply (Phone_init_raise _ _ Hp).
    + intros H; inversion H; subst e1.
      right; apply (list_index_raise _ _ _ Hi).
  - intros H; inversion H; subst e0. left; apply (Phone_init_raise _ _ Hpo).
Qed.

Lemma find_cases (name : str) (self : AddressBook.t) :
  AddressBook.find name self = Raise NoRecordError
  \/ exists record,
       AddressBook.find name self = Ok (Some record)
       /\ dict_get (AddressBook.data self) name = Some record.
Proof.
  unfold AddressBook.find.
  destruct (dict_contains (AddressBook.data self) name) eqn:Hc; simpl;
    [right | left; reflexivity].
  destruct (dict_get_contains _ _ Hc) as [v Hv]. exists v.
  rewrite Hv; auto.
Qed.

(** What [change] can answer. *)
Lemma change_contact_answers (args : list str) (self : AddressBook.t) :
  In (fst (change_contact args self))
     [lit "Contact changed."; error_message (Exn NoRecordError);
      error_message (Exn InvalidPhoneNumberFormatError);
      error_message (Exn ValueError)].
Proof.
  unfold change_contact, input_error, change_contact_func.
  destruct args as [|name [|old [|new rest]]];
    try (simpl; right; right; right; left; reflexivity).
  destruct (find_cases name self) as [-> | [record [-> Hg]]];
    [simpl; right; left; reflexivity|].
  unfold call_method, then_return.
  destruct (Record.edit_phone old new record) as [[u|e] record'] eqn:He.
  - simpl; left; reflexivity.
  - assert (Hfst : fst (Record.edit_phone old new record) = Raise e)
      by (rewrite He; reflexivity).
    destruct (edit_phone_raises _ _ _ _ Hfst) as [-> | ->]; simpl; auto.
Qed.

(** X20.  [change] never answers with the message "No such phone number
    found": when the contact does not hold the old number, a well-formed
    one, the answer is the message for [ValueError], and the book is as it
    was. *)
Theorem change_contact_absent_phone (name old new : str) (rest : list str)
  (self : AddressBook.t) (record : Record.t) :
  (forall args book,
     fst (change_contact args book) <> error_message (Exn NoPhoneError))
  /\ (NoDup (keys self) -> In (name, record) (AddressBook.data self) ->
      ten_digits old -> ~ In (Phone.mk old) (Record.phones record) ->
      change_contact (name :: old :: new :: rest) self
      = (lit "ValueError. " ++ DEFAULT_ERROR_MESSAGE, self)).
Proof.
  split.
  - intros args book Heq.
    pose proof (change_contact_answers args book) as Hin.
    rewrite Heq in Hin. simpl in Hin.
    destruct Hin as [H | [H | [H | [H | []]]]]; vm_compute in H;
      discriminate H.
  - unfold keys. intros Hnd Hin Hv Hn.
    unfold change_contact, input_error, change_contact_func, AddressBook.find.
    assert (Hc : dict_contains (AddressBook.data self) name = true).
    { apply dict_contains_In, in_map_iff; exists (name, record); auto. }
    pose proof (dict_get_In _ _ _ Hnd Hin) as Hg.
    rewrite Hc, Hg. cbn [negb]. unfold call_method, then_return.
    rewrite edit_phone_eq, (Phone_init_ok _ Hv), (list_index_absent _ _ Hn).
    cbn [of_result]. rewrite (dict_update_same _ _ _ Hg).
    destruct self; reflexivity.
Qed.

Lemma change_contact_absent_phone_witness :
  change_contact [lit "Ann"; lit "1111111111"; lit "0987654321"]
    (AddressBook.add_record (Record.mk (Name.mk (lit "Ann")) [] None)
       AddressBook.empty)
  = (lit "ValueError. " ++ DEFAULT_ERROR_MESSAGE,
     AddressBook.add_record (Record.mk (Name.mk (lit "Ann")) [] None)
       AddressBook.empty).
Proof.
  refine (proj2 (change_contact_absent_phone (lit "Ann") (lit "1111111111")
                   (lit "0987654321") []
                   (AddressBook.add_record
                      (Record.mk (Name.mk (lit "Ann")) [] None)
                      AddressBook.empty)
                   (Record.mk (Name.mk (lit "Ann")) [] None)) _ _ _ _).
  - simpl; constructor; [tauto | constructor].
  - left; reflexivity.
  - exact ten_digits_1111111111.
  - intros [].
Defined.

(** X21.  [change] with the name of a stored contact and well-formed numbers
    answers "Contact changed." and replaces, in that contact only, the first
    phone equal to the old number; the other contacts and the order of the
    book stay. *)
Theorem change_contact_replaces (name old new : str) (rest : list str)
  (self : AddressBook.t) (before after : dict) (record : Record.t)
  (phones_before phones_after : list Phone.t) :
  NoDup (keys self) ->
  AddressBook.data self = before ++ (name, record) :: after ->
  ten_digits old -> ten_digits new ->
  Record.phones record = phones_before ++ Phone.mk old :: phones_after ->
  ~ In (Phone.mk old) phones_before ->
  change_contact (name :: old :: new :: rest) self
  = (lit "Contact changed.",
     AddressBook.mk
       (before
        ++ (name, Record.mk (Record.name record)
                    (phones_before ++ Phone.mk new :: phones_after)
                    (Record.birthday record)) :: after)).
Proof.
  unfold keys. intros Hnd Hd Ho Hnew Hp Hfirst. rewrite Hd in Hnd.
  destruct (NoDup_keys_entry _ _ _ _ Hnd) as [Hn [Hc Hg]].
  unfold change_contact, input_error, change_contact_func, AddressBook.find.
  rewrite Hd, Hc, Hg. cbn [negb]. unfold call_method, then_return.
  rewrite edit_phone_eq, (Phone_init_ok _ Ho), (Phone_init_ok _ Hnew), Hp.
  rewrite (list_index_first _ _ _ Hfirst).
  assert (Hneg : (len phones_before <? 0) = false).
  { apply Z.ltb_ge; unfold len; lia. }
  rewrite Hneg, list_setitem_at. cbn [of_result AddressBook.data].
  rewrite Hd, (dict_update_entry before after name _ _ Hn). reflexivity.
Qed.

Lemma change_contact_replaces_witness :
  change_contact [lit "Ann"; lit "1111111111"; lit "1111111111"] book_of_one
  = (lit "Contact changed.", book_of_one).
Proof.
  refine (change_contact_replaces (lit "Ann") (lit "1111111111")
            (lit "1111111111") [] book_of_one [] [] record_with_birthday
            [] [Phone.mk (lit "0987654321")] _ _ _ _ _ _).
  - simpl; constructor; [tauto | constructor].
  - reflexivity.
  - exact ten_digits_1111111111.
  - exact ten_digits_1111111111.
  - reflexivity.
  - intros [].
Defined.

Definition mutator (m : Record.method unit) : Prop :=
  (exists phone, m = Record.add_phone phone)
  \/ (exists phone, m = Record.remove_phone phone)
  \/ (exists phone new_phone, m = Record.edit_phone phone new_phone)
  \/ (exists birthday, m = Record.add_birthday birthday).

Lemma call_method_raises (contact : option Record.t) (key : str)
  (m : Record.method unit) (self : AddressBook.t) (f : failure) :
  mutator m ->
  (forall record, contact = Some record ->
                  dict_get (AddressBook.data self) key = Some record) ->
  fst (call_method contact key m self) = Fails f ->
  snd (call_method contact key m self) = self.
Proof.
  intros Hm Hc. unfold call_method.
  destruct contact as [record|]; [|reflexivity].
  destruct (mutation_frame record m Hm) as [_ Hframe].
  destruct (m record) as [[u|e] record'] eqn:He; simpl; [discriminate|].
  intros _. specialize (Hframe e eq_refl). simpl in Hframe. subst record'.
  rewrite (dict_update_same _ _ _ (Hc record eq_refl)).
  destruct self; reflexivity.
Qed.

(** X22.  A [change] or an [add-birthday] that raises leaves the book as it
    was, and the commands that only read ([phone], [show-birthday],
    [birthdays], [all]) never change it. *)
Theorem commands_frame (args : list str) (self : AddressBook.t) :
  (forall f, fst (change_contact_func args self) = Fails f ->
             snd (change_contact args self) = self)
  /\ (forall f, fst (add_birthday_func args self) = Fails f ->
                snd (add_birthday args self) = self)
  /\ snd (find_numbers_by_name args self) = self
  /\ (forall pads_year, snd (show_birthday pads_year args self) = self)
  /\ (forall pads_year today,
        snd (birthdays pads_year today args self) = self)
  /\ (forall pads_year, snd (output_all_contacts pads_year self) = self).
Proof.
  split; [|split; [|split; [|split; [|split]]]].
  - intros f. unfold change_contact, input_error, change_contact_func.
    destruct args as [|name [|old [|new rest]]]; try reflexivity.
    destruct (find_cases name self) as [-> | [record [-> Hg]]];
      [reflexivity|].
    unfold then_return.
    destruct (call_method (Some record) name (Record.edit_phone old new) self)
      as [[u|f'] self'] eqn:Hcall; simpl; [discriminate|].
    intros _.
    assert (H : snd (call_method (Some record) name
                       (Record.edit_phone old new) self) = self).
    { apply (call_method_raises _ _ _ _ f').
      - right; right; left; eauto.
      - intros r Hr; inversion Hr; subst; exact Hg.
      - rewrite Hcall; reflexivity. }
    rewrite Hcall in H; exact H.
  - intros f. unfold add_birthday, input_error, add_birthday_func.
    destruct args as [|name [|birthday rest]]; try reflexivity.
    destruct (find_cases name self) as [-> | [record [-> Hg]]];
      [reflexivity|].
    unfold then_return.
    destruct (call_method (Some record) name (Record.add_birthday birthday)
                self) as [[u|f'] self'] eqn:Hcall; simpl; [discriminate|].
    intros _.
    assert (H : snd (call_method (Some record) name
                       (Record.add_birthday birthday) self) = self).
    { apply (call_method_raises _ _ _ _ f').
      - right; right; right; eauto.
      - intros r Hr; inversion Hr; subst; exact Hg.
      - rewrite Hcall; reflexivity. }
    rewrite Hcall in H; exact H.
  - unfold find_numbers_by_name, input_error, find_numbers_by_name_func.
    destruct args as [|name rest]; [reflexivity|].
    destruct (AddressBook.find_phones name self); reflexivity.
  - intros pads_year.
    unfold show_birthday, input_error, show_birthday_func.
    destruct args as [|name rest]; [reflexivity|].
    destruct (AddressBook.find name self) as [[user|]|]; try reflexivity.
    destruct (Record.birthday user); reflexivity.
  - intros pads_year today. unfold birthdays, input_error, birthdays_func.
    destruct (AddressBook.get_upcoming_birthdays _ _ _) as [[|e l]|];
      reflexivity.
  - intros pads_year.
    unfold output_all_contacts, input_error, output_all_contacts_func.
    destruct (len _ >? 0); reflexivity.
Qed.

Lemma commands_frame_witness :
  snd (change_contact [lit "Ann"; lit "1111111111"; lit "abc"] book_of_one)
  = book_of_one
  /\ snd (add_birthday [lit "Ann"; lit "31.02.2000"] book_of_one)
     = book_of_one.
Proof.
  split.
  - apply (proj1 (commands_frame [lit "Ann"; lit "1111111111"; lit "abc"]
                    book_of_one)
             (Exn InvalidPhoneNumberFormatError)).
    reflexivity.
  - apply (proj1 (proj2 (commands_frame [lit "Ann"; lit "31.02.2000"]
                           book_of_one))
             (Exn InvalidBirthdayFormatError)).
    reflexivity.
Defined.

Lemma keys_split (d : dict) (k : str) :
  In k (map fst d) ->
  exists before record after, d = before ++ (k, record) :: after.
Proof.
  rewrite in_map_iff. intros [[k' r] [Hk Hin]]. simpl in Hk; subst k'.
  destruct (in_split _ _ Hin) as [before [after ->]]. eauto.
Qed.

(** X23.  After [add-birthday] with the name of a stored contact and the
    text DD.MM.YYYY of a real date, [show-birthday] for that name answers
    with the same text (for a year of four significant digits, or where the
    platform pads the year). *)
Theorem add_birthday_then_show_birthday (pads_year : bool) (name : str)
  (rest rest' : list str) (self : AddressBook.t) (d : date.t) :
  NoDup (keys self) -> In name (keys self) -> valid_date d ->
  pads_year = true \/ 1000 <= date.year d ->
  fst (add_birthday (name :: rendering d :: rest) self)
  = lit "Birthday added for " ++ name
  /\ fst (show_birthday pads_year (name :: rest')
            (snd (add_birthday (name :: rendering d :: rest) self)))
     = lit "Birthday of " ++ name ++ lit "'s is " ++ rendering d.
Proof.
  unfold keys. intros Hnd Hin Hv Hp.
  destruct (keys_split _ _ Hin) as [before [record [after Hd]]].
  pose proof Hnd as Hnd0. rewrite Hd in Hnd.
  destruct (NoDup_keys_entry _ _ _ _ Hnd) as [Hn [Hc Hg]].
  assert (Hadd :
    add_birthday (name :: rendering d :: rest) self
    = (lit "Birthday added for " ++ name,
       AddressBook.mk
         (before
          ++ (name, Record.mk (Record.name record) (Record.phones record)
                      (Some (Birthday.mk d))) :: after))).
  { unfold add_birthday, input_error, add_birthday_func, AddressBook.find.
    rewrite Hd, Hc, Hg. cbn [negb]. unfold call_method, then_return.
    rewrite add_birthday_eq. unfold Birthday.init, rendering.
    rewrite (strptime_rendering d Hv).
    cbn [bind try_except of_result AddressBook.data].
    rewrite Hd, (dict_update_entry before after name _ _ Hn). reflexivity. }
  rewrite Hadd. split; [reflexivity|]. cbn [snd].
  assert (Hnd' : NoDup (map fst
                   (before
                    ++ (name, Record.mk (Record.name record)
                                (Record.phones record)
                                (Some (Birthday.mk d))) :: after))).
  { rewrite map_app in *; exact Hnd. }
  destruct (NoDup_keys_entry _ _ _ _ Hnd') as [_ [Hc' Hg']].
  unfold show_birthday, input_error, show_birthday_func, AddressBook.find.
  cbn [AddressBook.data]. rewrite Hc', Hg'. cbn [negb Record.birthday fst].
  rewrite (to_str_rendering pads_year d Hv Hp). reflexivity.
Qed.

Lemma add_birthday_then_show_birthday_witness :
  fst (add_birthday [lit "Ann"; rendering (date.mk 2024 2 29)] book_of_one)
  = lit "Birthday added for " ++ lit "Ann"
  /\ fst (show_birthday false [lit "Ann"]
            (snd (add_birthday [lit "Ann"; rendering (date.mk 2024 2 29)]
                    book_of_one)))
     = lit "Birthday of " ++ lit "Ann" ++ lit "'s is "
       ++ rendering (date.mk 2024 2 29).
Proof.
  apply (add_birthday_then_show_birthday false (lit "Ann") [] [] book_of_one
           (date.mk 2024 2 29)).
  - simpl; constructor; [tauto | constructor].
  - left; reflexivity.
  - exact valid_date_2024_02_29.
  - right; simpl; lia.
Defined.

(** A book as the commands build it: each key once, each record stored
    under its own name, each phone of ten digits. *)
Definition book_ok (self : AddressBook.t) : Prop :=
  NoDup (keys self)
  /\ forall k record,
       In (k, record) (AddressBook.data self) ->
       Name.value (Record.name record) = k /\ phones_valid record.

Lemma mutator_phones_valid (m : Record.method unit) (record : Record.t) :
  mutator m -> phones_valid record -> phones_valid (snd (m record)).
Proof.
  intros [[phone ->] | [[phone ->] | [[phone [new_phone ->]] | [b ->]]]] Hv;
    apply (proj2 phones_valid_steps record Hv).
Qed.

Lemma call_method_book_ok (contact : option Record.t) (key : str)
  (m : Record.method unit) (self : AddressBook.t) :
  mutator m -> book_ok self ->
  (forall record, contact = Some record ->
                  In (key, record) (AddressBook.data self)) ->
  book_ok (snd (call_method contact key m self)).
Proof.
  intros Hm [Hnd Hall] Hc. unfold call_method.
  destruct contact as [record|]; [|split; assumption].
  destruct (Hall key record (Hc record eq_refl)) as [Hname Hvalid].
  destruct (mutation_frame record m Hm) as [Hn _].
  pose proof (mutator_phones_valid m record Hm Hvalid) as Hv'.
  destruct (m record) as [r record']; simpl in *.
  split.
  - unfold keys; simpl. rewrite dict_update_keys. exact Hnd.
  - intros k r0 Hin. simpl in Hin.
    destruct (dict_update_In _ _ _ _ _ Hin) as [[-> ->] | Hin'].
    + split; [rewrite Hn; exact Hname | exact Hv'].
    + apply Hall; exact Hin'.
Qed.

Lemma then_return_snd {A} (message : str) (r : outcome A * AddressBook.t) :
  snd (then_return message r) = snd r.
Proof. destruct r as [[a|f] b]; reflexivity. Qed.

Lemma input_error_snd {Args} (func : command Args) (args : Args)
  (self : AddressBook.t) :
  snd (input_error func args self) = snd (func args self).
Proof.
  unfold input_error. destruct (func args self) as [[a|f] b]; reflexivity.
Qed.

Lemma commands_book_ok_steps :
  book_ok AddressBook.empty
  /\ forall args self,
       book_ok self ->
       book_ok (snd (add_contact args self))
       /\ book_ok (snd (change_contact args self))
       /\ book_ok (snd (add_birthday args self)).
Proof.
  split.
  { split; [constructor | intros k r []]. }
  intros args self Hok. split; [|split].
  - unfold add_contact. rewrite input_error_snd. unfold add_contact_func.
    destruct args as [|name [|phone rest]]; try exact Hok.
    destruct (dict_contains (AddressBook.data self) name) eqn:Hc.
    + destruct (find_cases name self) as [-> | [record [-> Hg]]];
        [exact Hok|].
      rewrite then_return_snd. apply call_method_book_ok; [left; eauto | exact Hok|].
      intros r Hr; inversion Hr; subst. apply dict_get_Some; exact Hg.
    + destruct (Record.init name) as [contact|e] eqn:Hinit; [|exact Hok].
      rewrite then_return_snd.
      assert (Hname : Name.value (Record.name contact) = name
                      /\ Record.phones contact = []).
      { revert Hinit. unfold Record.init.
        destruct (Name.init name) as [n|] eqn:Hn; cbn [bind]; [|discriminate].
        intros H; inversion H; subst contact; simpl.
        revert Hn. unfold Name.init. destruct (len name =? 0); [discriminate|].
        intros H'; inversion H'; auto. }
      destruct Hname as [Hname Hphones].
      apply call_method_book_ok; [left; eauto | |].
      * destruct Hok as [Hnd Hall]. split.
        -- unfold keys, AddressBook.add_record; simpl.
           apply dict_set_NoDup; exact Hnd.
        -- intros k r Hin. unfold AddressBook.add_record in Hin; simpl in Hin.
           destruct (dict_set_In _ _ _ _ _ Hin) as [[-> ->] | Hin'].
           ++ split; [reflexivity|]. unfold phones_valid.
              rewrite Hphones; constructor.
           ++ apply Hall; exact Hin'.
      * intros r Hr; inversion Hr; subst r.
        apply dict_get_Some. unfold AddressBook.add_record; simpl.
        apply dict_get_set.
  - unfold change_contact. rewrite input_error_snd.
    unfold change_contact_func.
    destruct args as [|name [|old [|new rest]]]; try exact Hok.
    destruct (find_cases name self) as [-> | [record [-> Hg]]]; [exact Hok|].
    rewrite then_return_snd.
    apply call_method_book_ok; [right; right; left; eauto | exact Hok|].
    intros r Hr; inversion Hr; subst. apply dict_get_Some; exact Hg.
  - unfold add_birthday. rewrite input_error_snd. unfold add_birthday_func.
    destruct args as [|name [|birthday rest]]; try exact Hok.
    destruct (find_cases name self) as [-> | [record [-> Hg]]]; [exact Hok|].
    rewrite then_return_snd.
    apply call_method_book_ok; [right; right; right; eauto | exact Hok|].
    intros r Hr; inversion Hr; subst. apply dict_get_Some; exact Hg.
Qed.

(** X24.  The empty book has each key once, each record under its own name
    and only phones of ten digits, and [add], [change] and [add-birthday]
    keep it so on every argument list. *)
Theorem commands_keep_book_ok :
  book_ok AddressBook.empty
  /\ forall args self,
       book_ok self ->
       book_ok (snd (add_contact args self))
       /\ book_ok (snd (change_contact args self))
       /\ book_ok (snd (add_birthday args self)).
Proof. exact commands_book_ok_steps. Qed.

Lemma book_ok_book_of_one : book_ok book_of_one.
Proof.
  split.
  - simpl; constructor; [tauto | constructor].
  - intros k r [H | []]; inversion H; subst.
    split; [reflexivity | exact phones_valid_record_with_birthday].
Qed.

Lemma commands_keep_book_ok_witness :
  book_ok (snd (add_contact [lit "Bob"; lit "abc"] book_of_one))
  /\ book_ok (snd (change_contact
                     [lit "Ann"; lit "1111111111"; lit "5555555555"]
                     book_of_one))
  /\ book_ok (snd (add_birthday [lit "Ann"; lit "1.1.2000"] book_of_one)).
Proof.
  split; [|split].
  - apply (proj2 commands_keep_book_ok [lit "Bob"; lit "abc"] book_of_one
             book_ok_book_of_one).
  - apply (proj2 commands_keep_book_ok
             [lit "Ann"; lit "1111111111"; lit "5555555555"] book_of_one
             book_ok_book_of_one).
  - apply (proj2 commands_keep_book_ok [lit "Ann"; lit "1.1.2000"]
             book_of_one book_ok_book_of_one).
Defined.

(** X25.  For a name that is not a key, [change], [add-birthday], [phone]
    and [show-birthday] answer with the message for [NoRecordError] and
    leave the book as it was. *)
Theorem commands_unknown_contact (name : str) (self : AddressBook.t) :
  ~ In name (keys self) ->
  (forall old new rest,
     change_contact (name :: old :: new :: rest) self
     = (error_message (Exn NoRecordError), self))
  /\ (forall birthday rest,
        add_birthday (name :: birthday :: rest) self
        = (error_message (Exn NoRecordError), self))
  /\ (forall rest,
        find_numbers_by_name (name :: rest) self
        = (error_message (Exn NoRecordError), self))
  /\ (forall pads_year rest,
        show_birthday pads_year (name :: rest) self
        = (error_message (Exn NoRecordError), self)).
Proof.
  unfold keys. intros Hn. apply dict_contains_false in Hn.
  assert (Hfind : AddressBook.find name self = Raise NoRecordError).
  { unfold AddressBook.find. rewrite Hn. reflexivity. }
  split; [|split; [|split]]; intros.
  - unfold change_contact, input_error, change_contact_func.
    rewrite Hfind. reflexivity.
  - unfold add_birthday, input_error, add_birthday_func.
    rewrite Hfind. reflexivity.
  - unfold find_numbers_by_name, input_error, find_numbers_by_name_func,
      AddressBook.find_phones.
    rewrite Hfind. reflexivity.
  - unfold show_birthday, input_error, show_birthday_func.
    rewrite Hfind. reflexivity.
Qed.

Lemma commands_unknown_contact_witness :
  find_numbers_by_name [lit "Bob"] book_of_one
  = (error_message (Exn NoRecordError), book_of_one).
Proof.
  apply (proj1 (proj2 (proj2 (commands_unknown_contact (lit "Bob")
                                book_of_one
                                ltac:(simpl; intros [H | []];
                                      discriminate H))))).
Defined.

(** X26.  With too few arguments the commands raise while unpacking: [add]
    and [add-birthday] with fewer than two and [change] with fewer than
    three answer with the message for [ValueError], [phone] and
    [show-birthday] with none answer with the message for [IndexError]; the
    book is as it was. *)
Theorem commands_too_few_arguments (args : list str) (self : AddressBook.t) :
  ((List.length args < 2)%nat ->
   add_contact args self = (error_message (Exn ValueError), self)
   /\ add_birthday args self = (error_message (Exn ValueError), self))
  /\ ((List.length args < 3)%nat ->
      change_contact args self = (error_message (Exn ValueError), self))
  /\ (args = [] ->
      find_numbers_by_name args self = (error_message (Exn IndexError), self)
      /\ forall pads_year,
           show_birthday pads_year args self
           = (error_message (Exn IndexError), self)).
Proof.
  split; [|split].
  - intros H. destruct args as [|a [|b rest]]; simpl in H; try lia;
      split; reflexivity.
  - intros H. destruct args as [|a [|b [|c rest]]]; simpl in H; try lia;
      reflexivity.
  - intros ->. split; [reflexivity | intros; reflexivity].
Qed.

Lemma commands_too_few_arguments_witness :
  add_contact [lit "Ann"] book_of_one
  = (error_message (Exn ValueError), book_of_one)
  /\ change_contact [lit "Ann"; lit "1111111111"] book_of_one
     = (error_message (Exn ValueError), book_of_one).
Proof.
  split.
  - apply (proj1 (commands_too_few_arguments [lit "Ann"] book_of_one)).
    simpl; lia.
  - apply (proj1 (proj2 (commands_too_few_arguments
                           [lit "Ann"; lit "1111111111"] book_of_one))).
    simpl; lia.
Defined.

(** ** The session *)

Lemma split_from_blank (blank : str) :
  (forall c, In c blank -> isspace_char c = true) -> split_from [] blank = [].
Proof.
  induction blank as [|c blank IH]; intros H; simpl; [reflexivity|].
  rewrite (H c (or_introl eq_refl)). apply IH.
  intros c' Hin; apply H; right; exact Hin.
Qed.

(** X27.  A line that is empty or holds only white space ends the session at
    once: the lines after it are not read, nothing is printed and nothing
    is saved, so the changes of the session are lost; the same happens when
    the input ends before [close] or [exit]. *)
Theorem blank_line_ends_session (lower : str -> str) (pads_year : bool)
  (today_at : nat -> date.t) (blank : str) (rest : list str) (n : nat)
  (address_book : AddressBook.t) (out : list str) :
  ((forall c, In c blank -> isspace_char c = true) ->
   command_loop lower pads_year today_at (blank :: rest) n address_book out
   = mk_session out (Some (error_message (Exn ValueError))) None)
  /\ saved (command_loop lower pads_year today_at [] n address_book out)
     = None.
Proof.
  split; [|reflexivity].
  intros H. cbn [command_loop]. unfold parse_input, split.
  rewrite (split_from_blank _ H). reflexivity.
Qed.

Lemma blank_line_ends_session_witness :
  use_case ascii_lower true (fun _ => date.mk 2024 6 5) None
    [lit "   "; lit "add Ann 1111111111"; lit "close"]
  = mk_session [lit "Welcome to the assistant bot!"; format_info]
      (Some (error_message (Exn ValueError))) None.
Proof.
  apply (proj1 (blank_line_ends_session ascii_lower true
                  (fun _ => date.mk 2024 6 5) (lit "   ")
                  [lit "add Ann 1111111111"; lit "close"] 0
                  AddressBook.empty
                  [lit "Welcome to the assistant bot!"; format_info])).
  intros c Hin; simpl in Hin.
  repeat (destruct Hin as [<-|Hin]; [reflexivity|]); contradiction.
Defined.

Definition close_substrings : list str :=
  [ lit ""; lit "c"; lit "cl"; lit "clo"; lit "clos"; lit "close";
    lit "l"; lit "lo"; lit "los"; lit "lose"; lit "o"; lit "os"; lit "ose";
    lit "s"; lit "se"; lit "e" ].

Lemma contains_close (command : str) :
  contains (lit "close") command = true -> In command close_substrings.
Proof.
  change (lit "close") with [99; 108; 111; 115; 101]%N.
  unfold close_substrings.
  destruct command as [|c1 [|c2 [|c3 [|c4 [|c5 [|c6 more]]]]]];
    cbn [contains startswith];
    repeat first
      [ progress cbn [N.eqb Pos.eqb andb orb]
      | match goal with
        | |- context [N.eqb ?x ?y] =>
            is_var x; destruct (N.eqb_spec x y); [subst|]
        end ];
    intros H; try discriminate H;
    vm_compute; auto 20.
Qed.

(** X28.  The test for [close] is a test for a piece of the word: every
    command whose lower-case form occurs in "close", that is "c", "cl", ...,
    "lose", "e", ends the session like [close], with "Good bye!" and the
    book saved. *)
Theorem close_by_substring (lower : str -> str) (pads_year : bool)
  (today_at : nat -> date.t) (line : str) (rest : list str) (n : nat)
  (address_book : AddressBook.t) (out : list str) (command : str)
  (args : list str) :
  parse_input lower line = Ok (command, args) ->
  contains (lit "close") command = true ->
  In command close_substrings
  /\ command_loop lower pads_year today_at (line :: rest) n address_book out
     = mk_session (out ++ [lit "Good bye!"]) None (Some address_book).
Proof.
  intros Hparse Hc. pose proof (contains_close command Hc) as Hin.
  split; [exact Hin|]. cbn [command_loop]. rewrite Hparse.
  unfold close_substrings in Hin. simpl in Hin.
  repeat (destruct Hin as [<- | Hin]; [reflexivity|]). contradiction.
Qed.

Lemma close_by_substring_witness :
  use_case ascii_lower true (fun _ => date.mk 2024 6 5) None
    [lit "Lose everything"; lit "hello"]
  = mk_session
      [lit "Welcome to the assistant bot!"; format_info; lit "Good bye!"]
      None (Some AddressBook.empty).
Proof.
  apply (proj2 (close_by_substring ascii_lower true
                  (fun _ => date.mk 2024 6 5)
                  (lit "Lose everything") [lit "hello"] 0 AddressBook.empty
                  [lit "Welcome to the assistant bot!"; format_info]
                  (lit "lose") [lit "everything"] eq_refl eq_refl)).
Defined.

(** X29.  The help text lists a command [clear], but the loop has no branch
    for it: it is answered with "Invalid command." and the book stays. *)
Theorem clear_not_implemented (lower : str -> str) (pads_year : bool)
  (today_at : nat -> date.t) (line : str) (rest : list str) (n : nat)
  (address_book : AddressBook.t) (out : list str) (args : list str) :
  contains ASSISTANT_INFO (lit "  clear  ") = true
  /\ (parse_input lower line = Ok (lit "clear", args) ->
      command_loop lower pads_year today_at (line :: rest) n address_book out
      = command_loop lower pads_year today_at rest (S n) address_book
          (out ++ [lit "Invalid command."])).
Proof.
  split; [vm_compute; reflexivity|].
  intros Hparse. cbn [command_loop]. rewrite Hparse. reflexivity.
Qed.

Lemma clear_not_implemented_witness :
  command_loop ascii_lower true (fun _ => date.mk 2024 6 5)
    [lit "clear"; lit "exit"] 0 book_of_one []
  = command_loop ascii_lower true (fun _ => date.mk 2024 6 5)
      [lit "exit"] 1 book_of_one ([] ++ [lit "Invalid command."]).
Proof.
  apply (proj2 (clear_not_implemented ascii_lower true
                  (fun _ => date.mk 2024 6 5) (lit "clear") [lit "exit"] 0
                  book_of_one [] [])).
  reflexivity.
Defined.

Lemma read_commands_snd (args : list str) (self : AddressBook.t) :
  snd (find_numbers_by_name args self) = self
  /\ (forall pads_year, snd (show_birthday pads_year args self) = self)
  /\ (forall pads_year today,
        snd (birthdays pads_year today args self) = self)
  /\ (forall pads_year, snd (output_all_contacts pads_year self) = self).
Proof.
  split; [|split; [|split]].
  - unfold find_numbers_by_name, input_error, find_numbers_by_name_func.
    destruct args as [|name rest]; [reflexivity|].
    destruct (AddressBook.find_phones name self); reflexivity.
  - intros pads_year.
    unfold show_birthday, input_error, show_birthday_func.
    destruct args as [|name rest]; [reflexivity|].
    destruct (AddressBook.find name self) as [[user|]|]; try reflexivity.
    destruct (Record.birthday user); reflexivity.
  - intros pads_year today. unfold birthdays, input_error, birthdays_func.
    destruct (AddressBook.get_upcoming_birthdays _ _ _) as [[|e l]|];
      reflexivity.
  - intros pads_year.
    unfold output_all_contacts, input_error, output_all_contacts_func.
    destruct (len _ >? 0); reflexivity.
Qed.

Lemma command_loop_saved_ok (lower : str -> str) (pads_year : bool)
  (today_at : nat -> date.t) (inputs : list str) :
  forall n address_book out b,
    book_ok address_book ->
    saved (command_loop lower pads_year today_at inputs n address_book out)
    = Some b ->
    book_ok b.
Proof.
  induction inputs as [|line inputs IH]; intros n book out b Hok;
    cbn [command_loop]; [discriminate|].
  destruct (parse_input lower line) as [[command args]|e]; [|discriminate].
  destruct (commands_book_ok_steps) as [_ Hsteps].
  destruct (Hsteps args book Hok) as [Hadd [Hchange Hbirthday]].
  destruct (read_commands_snd args book) as [Hphone [Hshow [Hbs Hall]]].
  repeat match goal with
         | |- context [if ?c then _ else _] => destruct c
         end;
    try (apply IH; exact Hok).
  - destruct (add_contact args book) as [m b']; apply IH; exact Hadd.
  - destruct (change_contact args book) as [m b']; apply IH; exact Hchange.
  - specialize (Hphone).
    destruct (find_numbers_by_name args book) as [m b']; simpl in Hphone;
      subst b'; apply IH; exact Hok.
  - destruct (add_birthday args book) as [m b']; apply IH; exact Hbirthday.
  - specialize (Hshow pads_year).
    destruct (show_birthday pads_year args book) as [m b']; simpl in Hshow;
      subst b'; apply IH; exact Hok.
  - specialize (Hbs pads_year (today_at n)).
    destruct (birthdays pads_year (today_at n) args book) as [m b'];
      simpl in Hbs; subst b'; apply IH; exact Hok.
  - specialize (Hall pads_year).
    destruct (output_all_contacts pads_year book) as [m b']; simpl in Hall;
      subst b'; apply IH; exact Hok.
  - simpl; intros H; inversion H; subst; exact Hok.
  - simpl; intros H; inversion H; subst; exact Hok.
Qed.

(** X30.  Whatever the lines of a session are, the book it saves has each
    key once, each record under its own name and only phones of ten digits,
    provided the book it loaded had, or there was none. *)
Theorem session_saves_ok_book (lower : str -> str) (pads_year : bool)
  (today_at : nat -> date.t) (stored : option AddressBook.t)
  (inputs : list str) (b : AddressBook.t) :
  (forall address_book, stored = Some address_book -> book_ok address_book) ->
  saved (use_case lower pads_year today_at stored inputs) = Some b ->
  book_ok b.
Proof.
  intros Hstored. unfold use_case.
  apply command_loop_saved_ok.
  destruct stored as [address_book|]; simpl.
  - apply Hstored; reflexivity.
  - apply (proj1 commands_book_ok_steps).
Qed.

Lemma session_saves_ok_book_witness :
  book_ok
    (AddressBook.mk
       [(lit "Ann", Record.mk (Name.mk (lit "Ann"))
                      [Phone.mk (lit "1111111111")] None)]).
Proof.
  apply (session_saves_ok_book ascii_lower true (fun _ => date.mk 2024 6 5)
           None [lit "add Ann 1111111111"; lit "exit"]).
  - intros address_book H; discriminate H.
  - reflexivity.
Defined.
